(** * Flash-loan arbitrage: the contract, the scanner, the slippage guard,
      the circuit breaker and the submission channel

    A shallow embedding of the parts of the repository that the
    specification's testable properties talk about:

    - [Js]: the JavaScript side's values (BigInt as [Z] with truncating
      division, exceptions as a result type);
    - [UniswapScanner]: [calculateAmountOut], [findArbitrage], [scanAll];
    - [SlippageCalculator]: [calculateMinAmountOut],
      [isProfitableWithSlippage], [getProtectedParameters];
    - [CircuitBreaker]: [recordSuccess], [recordFailure],
      [shouldAllowRequest];
    - [ArbitrageBot]: the class's method table and [executeArbitrageReal];
    - [FlashArbitrage]: the Solidity contract, in a revert monad over the
      contract's storage and the token ledger. *)

From Stdlib Require Import ZArith Lia Bool List Ascii String Permutation Sorted.
From stdpp Require Import base tactics option list gmap strings.

Local Open Scope Z_scope.

(** ** JavaScript values and exceptions *)

Module Js.

(** The exceptions the modelled code can raise. *)
Inductive error : Type :=
| RangeError            (* BigInt division by zero *)
| TypeError             (* BigInt(undefined), calling undefined *)
| CallFailed.           (* a rejected provider / contract call *)

(** A computation either returns or throws. *)
Inductive result (A : Type) : Type :=
| Return (a : A)
| Throw (e : error).
Arguments Return {A} a.
Arguments Throw {A} e.

Definition bind {A B} (m : result A) (k : A -> result B) : result B :=
  match m with
  | Return a => k a
  | Throw e => Throw e
  end.

(** BigInt [/]: truncation toward zero, RangeError on a zero divisor. *)
Definition bigint_div (n d : Z) : result Z :=
  if d =? 0 then Throw RangeError else Return (Z.quot n d).

(** A value that reaches [BigInt(...)] or [||]: [undefined], a BigInt, or
    the decimal string of an integer ([toString] of a BigInt). *)
Inductive amount : Type :=
| Undefined
| BigIntV (z : Z)
| StringV (z : Z).

(** [BigInt(v)] *)
Definition BigInt (v : amount) : result Z :=
  match v with
  | Undefined => Throw TypeError
  | BigIntV z => Return z
  | StringV z => Return z
  end.

(** Truthiness: [undefined] and [0n] are falsy, a decimal string is
    non-empty and so truthy. *)
Definition truthy (v : amount) : bool :=
  match v with
  | Undefined => false
  | BigIntV z => negb (z =? 0)
  | StringV _ => true
  end.

(** [a || b] *)
Definition or_else (a b : amount) : amount := if truthy a then a else b.

End Js.

Notation "'let*' x ':=' m 'in' k" := (Js.bind m (fun x => k))
  (at level 10, x name, m at level 100, k at level 200, only parsing).

(** ** lib/uniswap-scanner.js: the V2 scanner *)

Module UniswapScanner.
Import Js.

(** [calculateAmountOut(amountIn, reserveIn, reserveOut)] *)
Definition calculateAmountOut (amountIn reserveIn reserveOut : Z) : result Z :=
  let amountInWithFee := amountIn * 997 in
  let numerator := amountInWithFee * reserveOut in
  let denominator := reserveIn * 1000 + amountInWithFee in
  bigint_div numerator denominator.

(** What [getReserves(pairAddress)] resolves to. *)
Record reserves : Type := {
  reserve0 : Z;
  reserve1 : Z;
  token0 : string;
  token1 : string;
  timestamp : Z
}.

(** An entry of [this.pairs]. *)
Record pair_info : Type := {
  pair : string;
  dex : string;
  p_token0 : string;
  p_token1 : string
}.

(** The fields [findArbitrage] sets when the two reads succeed. *)
Record quote : Type := {
  amountIn : Z;
  amountOut : Z;
  path : list string;
  pathReverse : list string;
  pair1 : string;
  pair2 : string;
  q_timestamp : Z
}.

(** The object [findArbitrage] resolves to: [profitable] and [profit]
    always, the quote unless the [catch] branch built it. *)
Record arbitrage : Type := {
  profitable : bool;
  profit : Z;
  details : option quote
}.

(** The object [scanAll] pushes: [...result] (kept in [found]) plus five
    fields. *)
Record opportunity : Type := {
  found : arbitrage;
  dex1 : string;
  dex2 : string;
  pairName : string;
  o_token0 : string;
  o_token1 : string
}.

(** [String.prototype.toLowerCase] on the ASCII range. *)
Definition lower_ascii (c : ascii) : ascii :=
  let n := Ascii.nat_of_ascii c in
  if ((65 <=? n) && (n <=? 90))%nat then Ascii.ascii_of_nat (n + 32) else c.

Fixpoint toLowerCase (s : string) : string :=
  match s with
  | EmptyString => EmptyString
  | String c s' => String (lower_ascii c) (toLowerCase s')
  end.

(** [s.split('-')], with the piece being read kept in [cur]. *)
Fixpoint split_from (cur s : string) : list string :=
  match s with
  | EmptyString => [cur]
  | String c s' =>
      if Ascii.eqb c "-"%char then cur :: split_from EmptyString s'
      else split_from (cur +:+ String c EmptyString) s'
  end.

Definition split_dash (s : string) : list string := split_from EmptyString s.

(** [Array.prototype.sort()] without a comparator, on strings: ascending
    by code unit. *)
Fixpoint insert_string (x : string) (l : list string) : list string :=
  match l with
  | [] => [x]
  | y :: l' => if String.leb y x then y :: insert_string x l' else x :: y :: l'
  end.

Definition sort_strings (l : list string) : list string :=
  foldr insert_string [] l.

(** [l.join('')] *)
Definition join (l : list string) : string := foldr String.append EmptyString l.

(** [key.split('-').slice(0, 2).sort().join('')] *)
Definition token_key (key : string) : string :=
  join (sort_strings (take 2 (split_dash key))).

(** [(a, b) => (b.profit > a.profit ? 1 : -1)] *)
Definition by_profit_desc (a b : opportunity) : Z :=
  if profit (found a) <? profit (found b) then 1 else -1.

(** [Array.prototype.sort(cmp)] as an insertion sort that consults only
    [cmp]: [y] stays ahead of [x] when [cmp y x <= 0]. *)
Fixpoint insert_by {A} (cmp : A -> A -> Z) (x : A) (l : list A) : list A :=
  match l with
  | [] => [x]
  | y :: l' => if cmp y x <=? 0 then y :: insert_by cmp x l' else x :: y :: l'
  end.

Definition sort_by {A} (cmp : A -> A -> Z) (l : list A) : list A :=
  foldr (insert_by cmp) [] l.

Section Scanner.

(** The chain as the provider shows it: the reserves of a pair address, or
    a rejected call. *)
Variable getReserves : string -> result reserves.

(** [Date.now()] while the scan runs. *)
Variable now : Z.

(** [this.pairs], in the order [Object.keys] lists it. *)
Variable pairs : list (string * pair_info).

(** [findArbitrage(pair1Address, pair2Address, tokenIn, amountIn)] *)
Definition findArbitrage (pair1Address pair2Address tokenIn : string)
    (amountIn : Z) : arbitrage :=
  let attempt :=
    let* reserves1 := getReserves pair1Address in
    let* reserves2 := getReserves pair2Address in
    let isToken0_1 := String.eqb (toLowerCase (token0 reserves1)) (toLowerCase tokenIn) in
    let reserveIn1 := if isToken0_1 then reserve0 reserves1 else reserve1 reserves1 in
    let reserveOut1 := if isToken0_1 then reserve1 reserves1 else reserve0 reserves1 in
    let tokenOut := if isToken0_1 then token1 reserves1 else token0 reserves1 in
    let isToken0_2 := String.eqb (toLowerCase (token0 reserves2)) (toLowerCase tokenOut) in
    let reserveIn2 := if isToken0_2 then reserve0 reserves2 else reserve1 reserves2 in
    let reserveOut2 := if isToken0_2 then reserve1 reserves2 else reserve0 reserves2 in
    let* amountOut1 := calculateAmountOut amountIn reserveIn1 reserveOut1 in
    let* amountOut2 := calculateAmountOut amountOut1 reserveIn2 reserveOut2 in
    let profit := if amountIn <? amountOut2 then amountOut2 - amountIn else 0 in
    let profitable := 0 <? profit in
    Return {| profitable := profitable;
              profit := profit;
              details := Some {| amountIn := amountIn;
                                 amountOut := amountOut2;
                                 path := [tokenIn; tokenOut];
                                 pathReverse := [tokenOut; tokenIn];
                                 pair1 := pair1Address;
                                 pair2 := pair2Address;
                                 q_timestamp := now |} |} in
  match attempt with
  | Return r => r
  | Throw _ => {| profitable := false; profit := 0; details := None |}
  end.

(** The body of the inner loop of [scanAll] for one [(i, j)]: what it
    pushes, if anything. *)
Definition compare_pairs (tokenIn : string) (amountIn : Z)
    (ki kj : string * pair_info) : list opportunity :=
  let pair1 := ki.2 in
  let pair2 := kj.2 in
  let tokens1 := token_key ki.1 in
  let tokens2 := token_key kj.1 in
  if String.eqb tokens1 tokens2 && negb (String.eqb (dex pair1) (dex pair2)) then
    let res := findArbitrage (pair pair1) (pair pair2) tokenIn amountIn in
    if profitable res then
      [ {| found := res;
           dex1 := dex pair1;
           dex2 := dex pair2;
           pairName := ki.1;
           o_token0 := p_token0 pair1;
           o_token1 := p_token1 pair1 |} ]
    else []
  else [].

(** The two nested loops: [i] over the keys, [j] over the keys after [i]. *)
Fixpoint scan_from (tokenIn : string) (amountIn : Z)
    (keys : list (string * pair_info)) : list opportunity :=
  match keys with
  | [] => []
  | ki :: rest =>
      flat_map (compare_pairs tokenIn amountIn ki) rest
        ++ scan_from tokenIn amountIn rest
  end.

(** [scanAll(tokenIn, amountIn)] *)
Definition scanAll (tokenIn : string) (amountIn : Z) : list opportunity :=
  let opportunities := scan_from tokenIn amountIn pairs in
  sort_by by_profit_desc opportunities.

End Scanner.

End UniswapScanner.

(** ** lib/slippage-calculator.js *)

Module SlippageCalculator.
Import Js.

(** The calculator's only field; the constructor stores
    [slippagePercentage * 100] (200 for the default 2). *)
Record t : Type := { slippageBasisPoints : Z }.

Definition new (slippagePercentage : Z) : t :=
  {| slippageBasisPoints := slippagePercentage * 100 |}.

(** The fields of an opportunity that the calculator reads. *)
Record opportunity : Type := {
  reserve0A : amount; reserves0A : amount;
  reserve1A : amount; reserves1A : amount;
  reserve0B : amount; reserves0B : amount;
  reserve1B : amount; reserves1B : amount;
  profit : amount
}.

(** [calculateMinAmountOut(amountIn, reserve0, reserve1, token0In,
    feeBasisPoints)]; the returned decimal string is kept as its value. *)
Definition calculateMinAmountOut (self : t) (amountIn reserve0 reserve1 : amount)
    (token0In : bool) (feeBasisPoints : Z) : result Z :=
  let* amountInBN := BigInt amountIn in
  let* reserve0BN := BigInt reserve0 in
  let* reserve1BN := BigInt reserve1 in
  let feeMultiplier := 10000 - feeBasisPoints in
  let feeDivisor := 10000 in
  let reserveIn := if token0In then reserve0BN else reserve1BN in
  let reserveOut := if token0In then reserve1BN else reserve0BN in
  let amountInWithFee := amountInBN * feeMultiplier in
  let numerator := amountInWithFee * reserveOut in
  let denominator := reserveIn * feeDivisor + amountInWithFee in
  let* expectedOut := bigint_div numerator denominator in
  let slippageMultiplier := 10000 - slippageBasisPoints self in
  bigint_div (expectedOut * slippageMultiplier) 10000.

Record slippage : Type := {
  s_minAmountOut1 : Z;
  s_minAmountOut2 : Z;
  s_expectedProfit : amount
}.

(** [calculateArbitrageSlippage(opportunity, flashLoanAmount)] *)
Definition calculateArbitrageSlippage (self : t) (opp : opportunity)
    (flashLoanAmount : Z) : result slippage :=
  let* minAmountOut1 := calculateMinAmountOut self (StringV flashLoanAmount)
      (or_else (reserve0A opp) (reserves0A opp))
      (or_else (reserve1A opp) (reserves1A opp)) true 30 in
  let* minAmountOut2 := calculateMinAmountOut self (StringV minAmountOut1)
      (or_else (reserve0B opp) (reserves0B opp))
      (or_else (reserve1B opp) (reserves1B opp)) false 30 in
  Return {| s_minAmountOut1 := minAmountOut1;
            s_minAmountOut2 := minAmountOut2;
            s_expectedProfit := profit opp |}.

(** [isProfitableWithSlippage(flashLoanAmount, minAmountOut2)]; the third
    parameter of the source is never read. *)
Definition isProfitableWithSlippage (flashLoanAmount minAmountOut2 : Z) : result bool :=
  let* amountBorrowed := BigInt (StringV flashLoanAmount) in
  let* premium := bigint_div (amountBorrowed * 5) 10000 in
  let amountOwed := amountBorrowed + premium in
  let* minOutput := BigInt (StringV minAmountOut2) in
  Return (amountOwed <? minOutput).

Record protected : Type := {
  minAmountOut1 : Z;
  minAmountOut2 : Z;
  expectedProfit : amount;
  isProfitable : bool;
  slippagePercent : Z;
  flashLoanAmount : Z
}.

(** [getProtectedParameters(opportunity, flashLoanAmount)].
    [slippagePercent] is [slippageBasisPoints / 100] on numbers; the
    basis points are a multiple of 100 whenever the percentage is a whole
    number, which is the case kept here. *)
Definition getProtectedParameters (self : t) (opp : opportunity)
    (amount : Z) : result protected :=
  let* s := calculateArbitrageSlippage self opp amount in
  let* ok := isProfitableWithSlippage amount (s_minAmountOut2 s) in
  Return {| minAmountOut1 := s_minAmountOut1 s;
            minAmountOut2 := s_minAmountOut2 s;
            expectedProfit := s_expectedProfit s;
            isProfitable := ok;
            slippagePercent := slippageBasisPoints self / 100;
            flashLoanAmount := amount |}.

End SlippageCalculator.


(** ** lib/monitoring.js: the circuit breaker *)

Module CircuitBreaker.

Inductive phase : Type := CLOSED | OPEN | HALF_OPEN.

(** The object's fields. Times are milliseconds, as [Date.now()] gives
    them; [lastFailureTime] starts as [null]. *)
Record t : Type := {
  maxFailures : Z;
  resetTimeout : Z;
  minProfitThreshold : Z;
  failures : Z;
  totalProfit : Z;
  state : phase;
  lastFailureTime : option Z
}.

(** [options.x || d] on numbers: [undefined] and [0] give the default. *)
Definition number_or (o : option Z) (d : Z) : Z :=
  match o with
  | Some n => if n =? 0 then d else n
  | None => d
  end.

(** [new CircuitBreaker(options)] *)
Definition new (o_maxFailures o_resetTimeout o_minProfitThreshold : option Z) : t :=
  {| maxFailures := number_or o_maxFailures 5;
     resetTimeout := number_or o_resetTimeout 60000;
     minProfitThreshold := number_or o_minProfitThreshold 0;
     failures := 0;
     totalProfit := 0;
     state := CLOSED;
     lastFailureTime := None |}.

(** [recordSuccess(profit = 0n)] *)
Definition recordSuccess (profit : Z) (b : t) : t :=
  {| maxFailures := maxFailures b;
     resetTimeout := resetTimeout b;
     minProfitThreshold := minProfitThreshold b;
     failures := 0;
     totalProfit := totalProfit b + profit;
     state := CLOSED;
     lastFailureTime := lastFailureTime b |}.

(** [recordFailure(error)] at time [now]: the returned flag and the object
    afterwards. *)
Definition recordFailure (now : Z) (b : t) : bool * t :=
  let failures' := failures b + 1 in
  let opened := maxFailures b <=? failures' in
  (opened,
   {| maxFailures := maxFailures b;
      resetTimeout := resetTimeout b;
      minProfitThreshold := minProfitThreshold b;
      failures := failures';
      totalProfit := totalProfit b;
      state := if opened then OPEN else state b;
      lastFailureTime := Some now |}).

(** [Date.now() - this.lastFailureTime]: [null] counts as 0. *)
Definition since_last_failure (now : Z) (b : t) : Z :=
  now - default 0 (lastFailureTime b).

(** [shouldAllowRequest()] at time [now]. *)
Definition shouldAllowRequest (now : Z) (b : t) : bool * t :=
  match state b with
  | CLOSED => (true, b)
  | OPEN =>
      if resetTimeout b <? since_last_failure now b then
        (true,
         {| maxFailures := maxFailures b;
            resetTimeout := resetTimeout b;
            minProfitThreshold := minProfitThreshold b;
            failures := 0;
            totalProfit := totalProfit b;
            state := HALF_OPEN;
            lastFailureTime := lastFailureTime b |})
      else (false, b)
  | HALF_OPEN => (true, b)
  end.

(** Calls of [recordFailure] in a row, one at each of the times listed. *)
Definition recordFailures (times : list Z) (b : t) : t :=
  foldl (fun b now => (recordFailure now b).2) b times.

End CircuitBreaker.

(** ** bot/arbitrage-bot.js: the execution path of one opportunity *)

Module ArbitrageBot.
Import Js.

(** The calls the bot makes to its collaborators (lock, provider, wallet,
    Flashbots relay, contract, notifier), in the order made. *)
Inductive action : Type :=
| LockAcquire | LockRelease | LockQuit
| PopulateTransaction | GetBlockNumber | GetNetwork
| SignBundle | SimulateBundle (targetBlock : Z)
| SendBundle (targetBlock : Z) | WaitForInclusion
| GetFeeData | StaticCall | SendTransaction | WaitForReceipt
| NotifyProfit | NotifyError.

(** The fields of the bot that the execution path reads or writes, and the
    calls made so far. [flashbotsProvider] is [true] when the field holds a
    provider and [false] when it is [null]. *)
Record bot : Type := {
  flashbotsProvider : bool;
  circuitBreaker : CircuitBreaker.t;
  slippageCalculator : SlippageCalculator.t;
  executed : Z;
  trace : list action
}.

(** The fields of an opportunity that the execution path reads; [None]
    is a field the scanner did not set. *)
Record opportunity : Type := {
  amountIn : option Z;
  profit : option Z;
  timestamp : option Z;
  reserves : SlippageCalculator.opportunity;
  path : option (list string);
  pathReverse : option (list string)
}.

(** What [simulate] resolves to: an object with an [error] key, one with a
    [firstRevert], or neither. *)
Inductive simulation : Type := SimError | SimFirstRevert | SimPassed.

(** The answers of the collaborators during one execution. *)
Record world : Type := {
  now : Z;                        (* Date.now() *)
  rejects : action -> bool;       (* the awaited call throws *)
  lockToken : bool;               (* acquire returned a token *)
  useFlashLoan : bool;            (* USE_FLASH_LOAN !== '0' *)
  blockNumber : Z;
  simulated : simulation;
  waitResponse : Z;               (* bundleSubmission.wait() *)
  gasTooHigh : bool;              (* the fee-to-profit comparison *)
  receiptStatus : Z;              (* receipt.status *)
  wethAddress : option string;    (* process.env.WETH_ADDRESS *)
  minProfit : result Z;           (* ethers.parseEther(MIN_PROFIT_ETH || '0.01') *)
  feePrice : option Z             (* feeData.maxFeePerGas || feeData.gasPrice,
                                     [None] when that is null *)
}.

(** A method body: it changes the bot and returns or throws. *)
Definition run (A : Type) : Type := bot -> result A * bot.

Definition ret {A} (a : A) : run A := fun b => (Return a, b).

Definition throw {A} (e : error) : run A := fun b => (Throw e, b).

Definition seq {A B} (m : run A) (k : A -> run B) : run B :=
  fun b => match m b with
           | (Return a, b') => k a b'
           | (Throw e, b') => (Throw e, b')
           end.

(** [try { m } catch (e) { h }] *)
Definition try_catch {A} (m : run A) (h : error -> run A) : run A :=
  fun b => match m b with
           | (Return a, b') => (Return a, b')
           | (Throw e, b') => h e b'
           end.

(** [try { m } finally { f }] *)
Definition finally {A} (m : run A) (f : run unit) : run A :=
  fun b => match m b with
           | (r, b') => match f b' with
                        | (Return _, b'') => (r, b'')
                        | (Throw e, b'') => (Throw e, b'')
                        end
           end.

Notation "m ';;;' k" := (seq m (fun _ => k))
  (at level 100, k at level 200, right associativity, only parsing).

Section Execution.

Variable env : world.

(** An awaited call to a collaborator: noted, then it resolves or throws. *)
Definition call (a : action) : run unit :=
  fun b =>
    let b' := {| flashbotsProvider := flashbotsProvider b;
                 circuitBreaker := circuitBreaker b;
                 slippageCalculator := slippageCalculator b;
                 executed := executed b;
                 trace := trace b ++ [a] |} in
    if rejects env a then (Throw CallFailed, b') else (Return tt, b').

(** [this.circuitBreaker.recordFailure()] *)
Definition breakerFailure : run unit :=
  fun b =>
    (Return tt,
     {| flashbotsProvider := flashbotsProvider b;
        circuitBreaker := (CircuitBreaker.recordFailure (now env) (circuitBreaker b)).2;
        slippageCalculator := slippageCalculator b;
        executed := executed b;
        trace := trace b |}).

(** [this.stats.executed++; this.circuitBreaker.recordSuccess()] *)
Definition countSuccess : run unit :=
  fun b =>
    (Return tt,
     {| flashbotsProvider := flashbotsProvider b;
        circuitBreaker := CircuitBreaker.recordSuccess 0 (circuitBreaker b);
        slippageCalculator := slippageCalculator b;
        executed := executed b + 1;
        trace := trace b |}).

(** [Date.now() - (opportunity.timestamp || Date.now())] *)
Definition ageMs (opp : opportunity) : Z :=
  now env - CircuitBreaker.number_or (timestamp opp) (now env).

Definition is_Some_bool {A} (o : option A) : bool :=
  match o with Some _ => true | None => false end.

(** The slippage gate of the first [executeViaMempool]: [true] when the
    method goes on, [false] when it returns early. [amount.toString()] on
    an [undefined] amount throws a TypeError. *)
Definition slippageGate (opp : opportunity) : run bool :=
  fun b =>
    if truthy (SlippageCalculator.reserve0A (reserves opp))
       && truthy (SlippageCalculator.reserve1A (reserves opp)) then
      match amountIn opp with
      | None => (Throw TypeError, b)
      | Some amount =>
          match SlippageCalculator.getProtectedParameters
                  (slippageCalculator b) (reserves opp) amount with
          | Return p => (Return (SlippageCalculator.isProfitable p), b)
          | Throw e => (Throw e, b)
          end
      end
    else (Return true, b).

(** [opportunity.path ? opportunity.path[0] : process.env.WETH_ADDRESS]:
    [None] is [undefined], the first element of an empty path or an unset
    variable. *)
Definition asset (opp : opportunity) : option string :=
  match path opp with
  | Some p => head p
  | None => wethAddress env
  end.

(** The opening lines of both [executeViaMempool] methods: the minimum
    profit is parsed, then the amount, the asset and the two paths
    ([opportunity.path || [asset]], likewise the reverse) are formatted
    for the log. A malformed minimum throws what [parseEther] throws,
    [formatEther] throws a TypeError on an [undefined] amount and
    [asset.substring] one on an [undefined] asset; with an asset the
    paths hold strings only. *)
Definition announce (opp : opportunity) : run unit :=
  match minProfit env with
  | Throw e => throw e
  | Return _ =>
      match amountIn opp with
      | None => throw TypeError
      | Some _ =>
          match asset opp with
          | None => throw TypeError
          | Some _ => ret tt
          end
      end
  end.

(** [ethers.formatEther(opportunity.profit)], a TypeError on an
    [undefined] profit. *)
Definition formatProfit (opp : opportunity) : run unit :=
  match profit opp with
  | None => throw TypeError
  | Some _ => ret tt
  end.

(** The first method the class body names [executeViaMempool]: it builds,
    signs, simulates and sends a Flashbots bundle. *)
Definition executeViaMempool_bundle (opp : opportunity) : run unit :=
  announce opp ;;;
  if 3000 <? ageMs opp then ret tt else
  seq (slippageGate opp) (fun go1 =>
  if negb go1 then ret tt else
  seq (slippageGate opp) (fun go2 =>
  if negb go2 then ret tt else
  call PopulateTransaction ;;;
  call GetBlockNumber ;;;
  let targetBlock := blockNumber env + 1 in
  call GetNetwork ;;;
  call SignBundle ;;;
  call (SimulateBundle targetBlock) ;;;
  match simulated env with
  | SimError | SimFirstRevert => breakerFailure
  | SimPassed =>
      call (SendBundle targetBlock) ;;;
      call WaitForInclusion ;;;
      if waitResponse env =? 0 then
        countSuccess ;;; formatProfit opp ;;; call NotifyProfit
      else if waitResponse env =? 1 then ret tt
      else breakerFailure
  end)).

(** The second method the class body names [executeViaMempool]: the
    public broadcast. *)
Definition executeViaMempool_public (opp : opportunity) : run unit :=
  announce opp ;;;
  if 3000 <? ageMs opp then ret tt else
  call GetFeeData ;;;
  (* [gasPrice * 800000n] with a null price *)
  if negb (is_Some_bool (feePrice env)) then throw TypeError else
  formatProfit opp ;;;
  if gasTooHigh env then ret tt else
  seq (try_catch (call StaticCall ;;; ret true)
                 (fun _ => breakerFailure ;;; ret false)) (fun simulatedOk =>
  if negb simulatedOk then ret tt else
  try_catch
    (call SendTransaction ;;;
     call WaitForReceipt ;;;
     if receiptStatus env =? 1 then
       countSuccess ;;; formatProfit opp ;;; call NotifyProfit
     else breakerFailure)
    (fun _ => breakerFailure)).

(** [executeLegacyArbitrage(opportunity)] *)
Definition executeLegacyArbitrage (opp : opportunity) : run unit :=
  seq (try_catch (call StaticCall ;;; ret true)
                 (fun _ => breakerFailure ;;; ret false)) (fun simulatedOk =>
  if negb simulatedOk then ret tt else
  call SendTransaction ;;;
  call WaitForReceipt ;;;
  if receiptStatus env =? 1 then
    countSuccess ;;; formatProfit opp ;;; call NotifyProfit
  else breakerFailure).

(** The methods of the class body that the execution path can reach by
    name, in source order. *)
Definition class_body : list (string * (opportunity -> run unit)) :=
  [ ("executeViaMempool"%string, executeViaMempool_bundle);
    ("executeViaMempool"%string, executeViaMempool_public);
    ("executeLegacyArbitrage"%string, executeLegacyArbitrage) ].

(** [this[name]]: of two definitions with one name the later one is the
    property's value; a name the class never defines is [undefined]. *)
Fixpoint member (body : list (string * (opportunity -> run unit)))
    (name : string) : option (opportunity -> run unit) :=
  match body with
  | [] => None
  | (n, m) :: rest =>
      match member rest name with
      | Some later => Some later
      | None => if String.eqb n name then Some m else None
      end
  end.

(** [this.name(opportunity)]: calling [undefined] throws a TypeError. *)
Definition invoke (name : string) (opp : opportunity) : run unit :=
  match member class_body name with
  | Some m => m opp
  | None => throw TypeError
  end.

(** [executeFlashLoanArbitrage(opportunity)] *)
Definition executeFlashLoanArbitrage (opp : opportunity) : run unit :=
  fun b =>
    if flashbotsProvider b then invoke "executeViaFlashbots" opp b
    else invoke "executeViaMempool" opp b.

(** [executeArbitrageReal(opportunity)] *)
Definition executeArbitrageReal (opp : opportunity) : run unit :=
  call LockAcquire ;;;
  if negb (lockToken env) then ret tt else
  finally
    (try_catch
       (if useFlashLoan env then executeFlashLoanArbitrage opp
        else invoke "executeLegacyArbitrage" opp)
       (fun _ => breakerFailure ;;; call NotifyError))
    (call LockRelease ;;; call LockQuit).

End Execution.

End ArbitrageBot.

(** ** The FlashArbitrage contract *)

Module FlashArbitrage.

Definition address : Type := Z.

Definition MAX_UINT256 : Z := 2 ^ 256 - 1.

(** Why a call frame reverted. *)
Inductive failure : Type :=
| Error (reason : string)   (* require(false, reason) *)
| Panic (code : Z)          (* 0x11 checked arithmetic, 0x32 array index *)
| BadCalldata               (* abi.decode on malformed bytes *)
| CallReverted.             (* an external call that reverted *)

(** A call frame ends with a value and the state it leaves, or reverts and
    leaves nothing. *)
Inductive outcome (A : Type) : Type :=
| Ok (a : A)
| Revert (f : failure).
Arguments Ok {A} a.
Arguments Revert {A} f.

(** The contract's storage ([Ownable], [Pausable] and [ReentrancyGuard]
    state included). *)
Record storage : Type := {
  owner : address;
  paused : bool;
  entered : bool;             (* ReentrancyGuard: _status == _ENTERED *)
  totalProfits : Z;
  aavePool : address;
  router1 : address;
  router2 : address;
  inFlashLoan : bool
}.

(** Everything outside the contract: ERC-20 allowances keyed by
    (token, owner, spender), balances keyed by (token, holder), and the
    state [V] of the venues and the lender. *)
Record chain (V : Type) : Type := {
  allowance : gmap (address * address * address) Z;
  balance : gmap (address * address) Z;
  venues : V
}.
Arguments allowance {V} c.
Arguments balance {V} c.
Arguments venues {V} c.

Inductive event : Type :=
| FlashLoanExecuted (asset : address) (amount profit premium : Z).

Record world (V : Type) : Type := {
  store : storage;
  ext : chain V;
  logs : list event           (* newest first *)
}.
Arguments store {V} w.
Arguments ext {V} w.
Arguments logs {V} w.

(** [bytes params]: what [abi.encode(path1, path2, minProfit)] builds, or
    bytes that do not decode. *)
Inductive calldata : Type :=
| Encoded (path1 path2 : list address) (minProfit : Z)
| Malformed.

(** The contracts this one calls. [swapExactTokensForTokens] is the router
    at the given address called by [this] (sender, amountIn, amountOutMin,
    path, to, deadline); [None] is a reverted call. The lender at
    [aavePool] follows MockAavePool's protocol: it sets the premium, hands
    the principal over ([transferToReceiver]), calls [executeOperation]
    and requires it to succeed (reverting with [callbackFailed] of the
    callback's failure: the mock's own message, Aave's bubbled one), then
    takes the repayment ([requireRepayment]). Routers, tokens and lender
    act on the chain only: none of them writes this contract's storage or
    log. *)
Record externals (V : Type) : Type := {
  this : address;
  block_timestamp : Z;
  swapExactTokensForTokens :
    address -> address -> Z -> Z -> list address -> address -> Z ->
    chain V -> option (list Z * chain V);
  premiumOf : address -> address -> Z -> option Z;
  callbackFailed : failure -> failure;
  transferToReceiver : address -> address -> Z -> address -> chain V -> option (chain V);
  requireRepayment : address -> address -> Z -> address -> chain V -> option (chain V)
}.
Arguments this {V} e.
Arguments block_timestamp {V} e.
Arguments swapExactTokensForTokens {V} e.
Arguments premiumOf {V} e.
Arguments callbackFailed {V} e.
Arguments transferToReceiver {V} e.
Arguments requireRepayment {V} e.

(** How a transaction ends. *)
Inductive receipt : Type :=
| Succeeded
| Failed (f : failure).

Section Contract.

Context {V : Type} (E : externals V).

Definition M (A : Type) : Type := world V -> outcome (A * world V).

Definition ret {A} (a : A) : M A := fun w => Ok (a, w).

Definition revert {A} (f : failure) : M A := fun _ => Revert f.

Definition bind {A B} (m : M A) (k : A -> M B) : M B :=
  fun w => match m w with
           | Ok (a, w') => k a w'
           | Revert f => Revert f
           end.

Definition require (c : bool) (reason : string) : M unit :=
  if c then ret tt else revert (Error reason).

Definition in_uint256 (z : Z) : bool := (0 <=? z) && (z <=? MAX_UINT256).

(** Solidity 0.8 arithmetic: a result outside uint256 is Panic(0x11). *)
Definition checked (z : Z) : M Z :=
  if in_uint256 z then ret z else revert (Panic 17).

Definition add (a b : Z) : M Z := checked (a + b).
Definition sub (a b : Z) : M Z := checked (a - b).
Definition mul (a b : Z) : M Z := checked (a * b).

(** [l[i]]: Panic(0x32) out of range. *)
Definition index {A} (l : list A) (i : Z) : M A :=
  match l !! Z.to_nat i with
  | Some a => ret a
  | None => revert (Panic 50)
  end.

(** [l[l.length - 1]]: on an empty array the subtraction underflows,
    Panic(0x11); otherwise the index is in range. *)
Definition last_of {A} (l : list A) : M A :=
  match last l with
  | Some a => ret a
  | None => revert (Panic 17)
  end.

Definition sload {A} (field : storage -> A) : M A :=
  fun w => Ok (field (store w), w).

Definition sstore (update : storage -> storage) : M unit :=
  fun w => Ok (tt, {| store := update (store w); ext := ext w; logs := logs w |}).

Definition set_inFlashLoan (b : bool) (s : storage) : storage :=
  {| owner := owner s; paused := paused s; entered := entered s;
     totalProfits := totalProfits s; aavePool := aavePool s;
     router1 := router1 s; router2 := router2 s; inFlashLoan := b |}.

Definition set_entered (b : bool) (s : storage) : storage :=
  {| owner := owner s; paused := paused s; entered := b;
     totalProfits := totalProfits s; aavePool := aavePool s;
     router1 := router1 s; router2 := router2 s; inFlashLoan := inFlashLoan s |}.

Definition set_totalProfits (p : Z) (s : storage) : storage :=
  {| owner := owner s; paused := paused s; entered := entered s;
     totalProfits := p; aavePool := aavePool s;
     router1 := router1 s; router2 := router2 s; inFlashLoan := inFlashLoan s |}.

Definition emit (e : event) : M unit :=
  fun w => Ok (tt, {| store := store w; ext := ext w; logs := e :: logs w |}).

(** An external call that changes the chain or reverts; its revert
    reverts the caller. *)
Definition external (f : chain V -> option (chain V)) : M unit :=
  fun w => match f (ext w) with
           | Some c => Ok (tt, {| store := store w; ext := c; logs := logs w |})
           | None => Revert CallReverted
           end.

(** A call whose failure the caller passes on in its own words:
    [(bool success, ) = target.call(...); require(success, ...)]. *)
Definition relay {A} (reword : failure -> failure) (m : M A) : M A :=
  fun w => match m w with
           | Ok r => Ok r
           | Revert f => Revert (reword f)
           end.

(** [IERC20(token).approve(spender, amount)] on a standard token: the
    allowance of [this] to [spender] becomes [amount]. *)
Definition approve (token spender : address) (amount : Z) : M unit :=
  external (fun c =>
    Some {| allowance := <[(token, this E, spender) := amount]> (allowance c);
            balance := balance c;
            venues := venues c |}).

(** [IUniswapV2Router(router).swapExactTokensForTokens(...)], outside any
    [try]. *)
Definition swap (router : address) (amountIn amountOutMin : Z)
    (path : list address) (deadline : Z) : M (list Z) :=
  fun w =>
    match swapExactTokensForTokens E router (this E) amountIn amountOutMin path
            (this E) deadline (ext w) with
    | Some (amounts, c) => Ok (amounts, {| store := store w; ext := c; logs := logs w |})
    | None => Revert CallReverted
    end.

(** The [for] loop over [routers] with its [try]/[catch]: a call that
    returns sets [amountReceived] to its last amount and breaks, a call
    that reverts leaves the chain as it was and the loop continues. *)
Fixpoint try_routers (routers : list address) (intermediateAmount minAmountOut : Z)
    (path2 : list address) (amountReceived : Z) : M Z :=
  match routers with
  | [] => ret amountReceived
  | r :: rest =>
      bind (add (block_timestamp E) 300) (fun deadline w =>
        match swapExactTokensForTokens E r (this E) intermediateAmount minAmountOut
                path2 (this E) deadline (ext w) with
        | Some (amounts, c) =>
            last_of amounts {| store := store w; ext := c; logs := logs w |}
        | None =>
            try_routers rest intermediateAmount minAmountOut path2 amountReceived w
        end)
  end.

(** [_executeSwaps], step 1: approve router1, swap on it, approve router2
    for what came out. Returns [intermediateAmount]. *)
Definition swapOnRouter1 (asset : address) (amount : Z) (path1 : list address) : M Z :=
  let minAmountOut1 := 0 in
  bind (sload router1) (fun r1 =>
  bind (approve asset r1 amount) (fun _ =>
  bind (add (block_timestamp E) 300) (fun deadline =>
  bind (swap r1 amount minAmountOut1 path1 deadline) (fun amounts1 =>
  bind (last_of path1) (fun intermediateToken =>
  bind (last_of amounts1) (fun intermediateAmount =>
  bind (sload router2) (fun r2 =>
  bind (approve intermediateToken r2 intermediateAmount) (fun _ =>
  ret intermediateAmount)))))))).

(** [_executeSwaps], step 2: the minimum requested, the fallback loop over
    router2 then router1, and the two checks on what was received. *)
Definition swapBack (amount intermediateAmount : Z) (path2 : list address) : M Z :=
  bind (mul amount 101) (fun scaled =>
  let minAmountOut := scaled / 100 in
  bind (sload router2) (fun r2 =>
  bind (sload router1) (fun r1 =>
  let routers := [r2; r1] in
  bind (try_routers routers intermediateAmount minAmountOut path2 0) (fun amountReceived =>
  bind (require (0 <? amountReceived) "All swap attempts failed") (fun _ =>
  bind (mul amount 50) (fun bps =>
  bind (add amount (bps / 10000)) (fun floor =>
  bind (require (floor <=? amountReceived) "Arbitrage not profitable") (fun _ =>
  ret amountReceived)))))))).

(** [_executeSwaps(asset, amount, path1, path2)] *)
Definition _executeSwaps (asset : address) (amount : Z)
    (path1 path2 : list address) : M Z :=
  bind (swapOnRouter1 asset amount path1) (fun intermediateAmount =>
  swapBack amount intermediateAmount path2).

Definition abi_decode (params : calldata) : M (list address * list address * Z) :=
  match params with
  | Encoded path1 path2 minProfit => ret (path1, path2, minProfit)
  | Malformed => revert BadCalldata
  end.

(** [executeOperation(asset, amount, premium, initiator, params)] called
    by [sender]. *)
Definition executeOperation (sender asset : address) (amount premium : Z)
    (initiator : address) (params : calldata) : M bool :=
  bind (sload aavePool) (fun pool =>
  bind (require (sender =? pool) "Caller must be Aave Pool") (fun _ =>
  bind (require (initiator =? this E) "Initiator must be this contract") (fun _ =>
  bind (sload inFlashLoan) (fun flag =>
  bind (require flag "Not in flash loan") (fun _ =>
  bind (abi_decode params) (fun '(path1, path2, minProfit) =>
  bind (_executeSwaps asset amount path1 path2) (fun finalAmount =>
  bind (add amount premium) (fun amountOwed =>
  bind (require (amountOwed <? finalAmount) "Arbitrage not profitable") (fun _ =>
  bind (sub finalAmount amountOwed) (fun profit =>
  bind (require (minProfit <=? profit) "Profit below minimum threshold") (fun _ =>
  bind (approve asset pool amountOwed) (fun _ =>
  bind (sload totalProfits) (fun total =>
  bind (add total profit) (fun total' =>
  bind (sstore (set_totalProfits total')) (fun _ =>
  bind (emit (FlashLoanExecuted asset amount profit premium)) (fun _ =>
  ret true)))))))))))))))).

(** [aavePool.flashLoanSimple(receiver, asset, amount, params, 0)] called
    by [this]: the lender's protocol around the callback. *)
Definition flashLoanSimple (pool asset : address) (amount : Z) (params : calldata) : M unit :=
  match premiumOf E pool asset amount with
  | None => revert CallReverted
  | Some premium =>
      bind (external (transferToReceiver E pool asset amount (this E))) (fun _ =>
      bind (relay (callbackFailed E)
              (executeOperation pool asset amount premium (this E) params)) (fun _ =>
      bind (add amount premium) (fun owed =>
      external (requireRepayment E pool asset owed (this E)))))
  end.

(** [flashArbitrage(asset, amount, path1, path2, minProfit)] called by
    [sender], under [onlyOwner nonReentrant whenNotPaused]. *)
Definition flashArbitrage (sender asset : address) (amount : Z)
    (path1 path2 : list address) (minProfit : Z) : M unit :=
  bind (sload owner) (fun o =>
  bind (require (o =? sender) "Ownable: caller is not the owner") (fun _ =>
  bind (sload entered) (fun e =>
  bind (require (negb e) "ReentrancyGuard: reentrant call") (fun _ =>
  bind (sstore (set_entered true)) (fun _ =>
  bind (sload paused) (fun p =>
  bind (require (negb p) "Pausable: paused") (fun _ =>
  bind (sload aavePool) (fun pool =>
  bind (require (negb (pool =? 0)) "Aave Pool not configured") (fun _ =>
  bind (sload router1) (fun r1 =>
  bind (sload router2) (fun r2 =>
  bind (require (negb (r1 =? 0) && negb (r2 =? 0)) "Routers not configured") (fun _ =>
  bind (require ((2 <=? Z.of_nat (length path1)) && (2 <=? Z.of_nat (length path2)))
          "Invalid paths") (fun _ =>
  bind (index path1 0) (fun first =>
  bind (last_of path2) (fun final =>
  bind (require ((first =? asset) && (final =? asset))
          "Paths must start and end with flash loan asset") (fun _ =>
  bind (sstore (set_inFlashLoan true)) (fun _ =>
  let params := Encoded path1 path2 minProfit in
  bind (flashLoanSimple pool asset amount params) (fun _ =>
  bind (sstore (set_inFlashLoan false)) (fun _ =>
  sstore (set_entered false)))))))))))))))))))).

(** A transaction: the state a successful call leaves is kept, a reverted
    call leaves the state it started from. *)
Definition transact {A} (call : M A) (w : world V) : receipt * world V :=
  match call w with
  | Ok (_, w') => (Succeeded, w')
  | Revert f => (Failed f, w)
  end.

End Contract.

End FlashArbitrage.

(** ** The test doubles: MockAavePool and MockUniswapRouter *)

Module Mocks.
Import FlashArbitrage.

(** [new uint256[](n)] with [amounts[0] = amountIn] and
    [amounts[n - 1] = amountOut]. *)
Definition amounts_of (n : nat) (amountIn amountOut : Z) : list Z :=
  <[pred n := amountOut]> (<[0%nat := amountIn]> (replicate n 0)).

(** [MockUniswapRouter.swapExactTokensForTokens]: 1.5% more comes out than
    went in; it moves no token. *)
Definition mockSwap {V} (timestamp : Z) (amountIn amountOutMin : Z)
    (path : list address) (deadline : Z) (c : chain V) : option (list Z * chain V) :=
  if deadline <? timestamp then None
  else if MAX_UINT256 <? amountIn * 1015 then None
  else
    let amountOut := amountIn * 1015 / 1000 in
    if amountOut <? amountOutMin then None
    else match path with
         | [] => None
         | _ => Some (amounts_of (length path) amountIn amountOut, c)
         end.

(** [MockAavePool.flashLoanSimple]: the 0.05% premium. *)
Definition mockPremium (amount : Z) : option Z :=
  if MAX_UINT256 <? amount * 5 then None else Some (amount * 5 / 10000).

(** The deployment of the security tests: the contract at address 100,
    MockAavePool as the lender, a MockUniswapRouter behind every router
    address. *)
Definition mockExternals (timestamp : Z) : externals unit :=
  {| this := 100;
     block_timestamp := timestamp;
     swapExactTokensForTokens := fun _ _ amountIn amountOutMin path _ deadline c =>
       mockSwap timestamp amountIn amountOutMin path deadline c;
     premiumOf := fun _ _ amount => mockPremium amount;
     callbackFailed := fun _ => Error "Flash loan callback failed";
     transferToReceiver := fun _ _ _ _ c => Some c;
     requireRepayment := fun _ _ _ _ c => Some c |}.

(** A router that returns without reverting and reports a zero output,
    whatever minimum it was asked for. *)
Definition zeroSwap {V} (amountIn : Z) (c : chain V) : option (list Z * chain V) :=
  Some ([amountIn; 0], c).

(** The same deployment with the zero-output router at address 12 (the
    contract's router2) and MockUniswapRouter elsewhere. *)
Definition zeroRouter2Externals (timestamp : Z) : externals unit :=
  {| this := 100;
     block_timestamp := timestamp;
     swapExactTokensForTokens := fun router _ amountIn amountOutMin path _ deadline c =>
       if router =? 12 then zeroSwap amountIn c
       else mockSwap timestamp amountIn amountOutMin path deadline c;
     premiumOf := fun _ _ amount => mockPremium amount;
     callbackFailed := fun _ => Error "Flash loan callback failed";
     transferToReceiver := fun _ _ _ _ c => Some c;
     requireRepayment := fun _ _ _ _ c => Some c |}.

(** Storage after deployment by account 1 with the lender at 10, router1
    at 11 and router2 at 12. *)
Definition deployed : storage :=
  {| owner := 1; paused := false; entered := false; totalProfits := 0;
     aavePool := 10; router1 := 11; router2 := 12; inFlashLoan := false |}.

Definition genesis : world unit :=
  {| store := deployed;
     ext := {| allowance := ∅; balance := ∅; venues := tt |};
     logs := [] |}.

(** The same world while a loan is in progress. *)
Definition borrowing : world unit :=
  {| store := set_inFlashLoan true deployed;
     ext := {| allowance := ∅; balance := ∅; venues := tt |};
     logs := [] |}.

(** Token addresses of the tests. *)
Definition tokenA : address := 201.
Definition tokenB : address := 202.

End Mocks.

(** * Properties *)

(** ** The constant-product quote *)

Section QuoteFacts.
Import Js UniswapScanner.

(** On a non-negative dividend and a positive divisor BigInt division is
    the floor. *)
Lemma bigint_div_floor (n d : Z) :
  0 <= n -> 0 < d -> bigint_div n d = Return (n / d).
Proof.
  intros Hn Hd. unfold bigint_div.
  destruct (Z.eqb_spec d 0) as [->|_]; [lia|].
  now rewrite Z.quot_div_nonneg by lia.
Qed.

Lemma floor_bounds (n d : Z) :
  0 < d -> (n / d) * d <= n < (n / d + 1) * d.
Proof.
  intros Hd. pose proof (Z.mul_div_le n d Hd).
  pose proof (Z.mul_succ_div_gt n d Hd). lia.
Qed.

(** C7. On amounts and reserves as the chain reports them (non-negative,
    not all zero) [calculateAmountOut] returns
    floor(amountIn * 997 * reserveOut / (reserveIn * 1000 + amountIn * 997)),
    the constant-product output after a 0.3% fee; for amountIn = 10,
    reserveIn = 1000, reserveOut = 500 that value is 4. *)
Theorem calculateAmountOut_closed_form (amountIn reserveIn reserveOut : Z) :
  0 <= amountIn -> 0 <= reserveIn -> 0 <= reserveOut ->
  0 < reserveIn * 1000 + amountIn * 997 ->
  let num := amountIn * 997 * reserveOut in
  let den := reserveIn * 1000 + amountIn * 997 in
  exists out,
    calculateAmountOut amountIn reserveIn reserveOut = Return out
    /\ out = num / den
    /\ out * den <= num < (out + 1) * den
    /\ calculateAmountOut 10 1000 500 = Return 4.
Proof.
  intros Hin Hrin Hrout Hden num den.
  exists (num / den). repeat split.
  - unfold calculateAmountOut. apply bigint_div_floor; [subst num; nia | exact Hden].
  - apply (floor_bounds num den Hden).
  - apply (floor_bounds num den Hden).
Qed.

(** With nothing put in and an empty input reserve the divisor is zero and
    the division throws. *)
Lemma calculateAmountOut_empty_pool (reserveOut : Z) :
  calculateAmountOut 0 0 reserveOut = Throw RangeError.
Proof. reflexivity. Qed.

Lemma calculateAmountOut_closed_form_witness :
  exists out,
    calculateAmountOut 10 1000 500 = Return out
    /\ out = 10 * 997 * 500 / (1000 * 1000 + 10 * 997)
    /\ out * (1000 * 1000 + 10 * 997) <= 10 * 997 * 500
        < (out + 1) * (1000 * 1000 + 10 * 997)
    /\ calculateAmountOut 10 1000 500 = Return 4.
Proof.
  apply (calculateAmountOut_closed_form 10 1000 500); lia.
Defined.

End QuoteFacts.

(** ** The slippage guard *)

Section SlippageFacts.
Import Js SlippageCalculator.

Lemma bind_Return {A B} (m : result A) (k : A -> result B) (b : B) :
  Js.bind m k = Return b -> exists a, m = Return a /\ k a = Return b.
Proof. destruct m as [a|e]; simpl; [eauto | discriminate]. Qed.

(** [isProfitableWithSlippage] never throws, and on a non-negative loan it
    compares against the loan plus floor(loan * 5 / 10000). *)
Lemma isProfitableWithSlippage_spec (amount minOut : Z) :
  0 <= amount ->
  isProfitableWithSlippage amount minOut
  = Return (amount + amount * 5 / 10000 <? minOut).
Proof.
  intros H. unfold isProfitableWithSlippage. cbn [BigInt Js.bind].
  rewrite bigint_div_floor by lia. reflexivity.
Qed.

(** A route over two venues whose prices differ: venue A holds
    (1000, 50000), venue B holds (2000, 50000). Borrowing 10 gives
    [minAmountOut1 = 483] and [minAmountOut2 = 18]. *)
Definition skewedRoute : opportunity :=
  {| reserve0A := BigIntV 1000; reserves0A := Undefined;
     reserve1A := BigIntV 50000; reserves1A := Undefined;
     reserve0B := BigIntV 2000; reserves0B := Undefined;
     reserve1B := BigIntV 50000; reserves1B := Undefined;
     profit := BigIntV 0 |}.

(** C9. Whenever [getProtectedParameters] returns for a non-negative loan
    amount, [isProfitable] is true exactly when [minAmountOut2] is
    strictly above the amount plus floor(amount * 5 / 10000); at equality
    or below it is false. *)
Theorem getProtectedParameters_isProfitable
    (self : t) (opp : opportunity) (amount : Z) (p : protected) :
  0 <= amount ->
  getProtectedParameters self opp amount = Return p ->
  flashLoanAmount p = amount
  /\ (isProfitable p = true <-> amount + amount * 5 / 10000 < minAmountOut2 p)
  /\ (minAmountOut2 p <= amount + amount * 5 / 10000 -> isProfitable p = false).
Proof.
  intros Hamt Hret. unfold getProtectedParameters in Hret.
  apply bind_Return in Hret as (s & _ & Hret).
  rewrite isProfitableWithSlippage_spec in Hret by exact Hamt.
  simpl in Hret. injection Hret as <-. simpl.
  split; [reflexivity|]. split.
  - apply Z.ltb_lt.
  - intros Hle. apply Z.ltb_ge. exact Hle.
Qed.

Lemma getProtectedParameters_isProfitable_witness :
  exists p,
    getProtectedParameters (new 2) skewedRoute 10 = Return p
    /\ flashLoanAmount p = 10
    /\ (isProfitable p = true <-> 10 + 10 * 5 / 10000 < minAmountOut2 p)
    /\ (minAmountOut2 p <= 10 + 10 * 5 / 10000 -> isProfitable p = false).
Proof.
  eexists. split; [reflexivity|].
  apply (getProtectedParameters_isProfitable (new 2) skewedRoute 10);
    [lia | reflexivity].
Defined.

End SlippageFacts.

(** ** The circuit breaker *)

Section BreakerFacts.
Import CircuitBreaker.

(** Below the threshold, failures only count up: the breaker stays
    CLOSED. *)
Lemma recordFailures_below_threshold (times : list Z) (b : t) :
  state b = CLOSED ->
  failures b + Z.of_nat (length times) < maxFailures b ->
  let b' := recordFailures times b in
  state b' = CLOSED
  /\ failures b' = failures b + Z.of_nat (length times)
  /\ maxFailures b' = maxFailures b
  /\ resetTimeout b' = resetTimeout b.
Proof.
  revert b. induction times as [|now times IH]; intros b Hst Hlt.
  - simpl. repeat split; try done. lia.
  - cbn [length] in Hlt. rewrite Nat2Z.inj_succ in Hlt.
    change (recordFailures (now :: times) b)
      with (recordFailures times (recordFailure now b).2).
    destruct (IH (recordFailure now b).2) as (H1 & H2 & H3 & H4).
    + unfold recordFailure; cbn.
      destruct (Z.leb_spec (maxFailures b) (failures b + 1)); [lia | exact Hst].
    + unfold recordFailure; cbn. lia.
    + cbv zeta. rewrite H1, H2, H3, H4. unfold recordFailure; cbn.
      cbn [length]. rewrite Nat2Z.inj_succ. repeat split; lia.
Qed.

(** The failure that reaches [maxFailures] opens the breaker. *)
Lemma recordFailure_reaches_threshold (now : Z) (b : t) :
  maxFailures b <= failures b + 1 ->
  (recordFailure now b).1 = true
  /\ state (recordFailure now b).2 = OPEN
  /\ lastFailureTime (recordFailure now b).2 = Some now.
Proof.
  intros H. unfold recordFailure; cbn.
  destruct (Z.leb_spec (maxFailures b) (failures b + 1)); [done | lia].
Qed.

(** The part of the transition the code does have: from a CLOSED
    breaker with no failure counted, fewer than [maxFailures] failures in
    a row leave requests allowed, and exactly [maxFailures] of them block
    requests until [resetTimeout] has passed since the last one. *)
Lemma breaker_opens_after_maxFailures (times : list Z) (last now : Z) (b : t) :
  state b = CLOSED -> failures b = 0 ->
  Z.of_nat (length times) + 1 = maxFailures b ->
  (shouldAllowRequest now (recordFailures times b)).1 = true
  /\ (now - last <= resetTimeout b ->
      (shouldAllowRequest now (recordFailures (times ++ [last]) b)).1 = false).
Proof.
  intros Hst Hf Hlen.
  destruct (recordFailures_below_threshold times b Hst ltac:(lia))
    as (H1 & H2 & H3 & H4).
  split.
  - unfold shouldAllowRequest. cbv zeta in H1. now rewrite H1.
  - intros Hnow. unfold recordFailures in *. rewrite foldl_app. cbn [foldl].
    set (b1 := foldl _ b times) in *. cbv zeta in H1, H2, H3, H4.
    destruct (recordFailure_reaches_threshold last b1 ltac:(lia)) as (_ & Ho & Hl).
    unfold shouldAllowRequest, since_last_failure. rewrite Ho, Hl. cbn.
    unfold recordFailure; cbn. rewrite H4.
    destruct (Z.ltb_spec (resetTimeout b) (now - last)); [lia | done].
Qed.

(** What the HALF_OPEN state looks like when it is entered. *)
Definition half_open_of (b : t) : t :=
  {| maxFailures := maxFailures b;
     resetTimeout := resetTimeout b;
     minProfitThreshold := minProfitThreshold b;
     failures := 0;
     totalProfit := totalProfit b;
     state := HALF_OPEN;
     lastFailureTime := lastFailureTime b |}.

Lemma shouldAllowRequest_open_elapsed (now : Z) (b : t) :
  state b = OPEN -> resetTimeout b < since_last_failure now b ->
  shouldAllowRequest now b = (true, half_open_of b).
Proof.
  intros Hst Hwait. unfold shouldAllowRequest. rewrite Hst.
  destruct (Z.ltb_spec (resetTimeout b) (since_last_failure now b)); [done | lia].
Qed.

Lemma shouldAllowRequest_half_open (now : Z) (b : t) :
  state b = HALF_OPEN -> shouldAllowRequest now b = (true, b).
Proof. intros Hst. unfold shouldAllowRequest. now rewrite Hst. Qed.

(** C3, the part the code does not have. Once an OPEN breaker with a
    threshold above one has waited out [resetTimeout], [shouldAllowRequest]
    answers true and enters HALF_OPEN; asked again it answers true again;
    and a [recordFailure] right after the trial leaves the state HALF_OPEN,
    so the next [shouldAllowRequest] still answers true. *)
Theorem half_open_trial_failure_not_reopened (b : t) (t0 t1 t2 : Z) :
  state b = OPEN ->
  1 < maxFailures b ->
  resetTimeout b < since_last_failure t0 b ->
  let trial := shouldAllowRequest t0 b in
  let again := shouldAllowRequest t0 trial.2 in
  let failed := recordFailure t1 again.2 in
  let after := shouldAllowRequest t2 failed.2 in
  trial.1 = true /\ state trial.2 = HALF_OPEN
  /\ again.1 = true
  /\ failed.1 = false /\ state failed.2 = HALF_OPEN
  /\ after.1 = true.
Proof.
  intros Hst Hmax Hwait. cbv zeta.
  rewrite (shouldAllowRequest_open_elapsed t0 b Hst Hwait). cbn [fst snd].
  rewrite shouldAllowRequest_half_open by reflexivity. cbn [fst snd].
  unfold recordFailure; cbn.
  change (0 + 1) with 1.
  destruct (Z.leb_spec (maxFailures b) 1); [lia|].
  repeat split; reflexivity.
Qed.

(** The default breaker after five failures at times 1 to 5. *)
Definition trippedBreaker : t :=
  recordFailures [1; 2; 3; 4; 5] (new None None None).

Lemma half_open_trial_failure_not_reopened_witness :
  state trippedBreaker = OPEN
  /\ (shouldAllowRequest 60005 trippedBreaker).1 = false
  /\ let trial := shouldAllowRequest 60006 trippedBreaker in
     let again := shouldAllowRequest 60006 trial.2 in
     let failed := recordFailure 60007 again.2 in
     let after := shouldAllowRequest 60008 failed.2 in
     trial.1 = true /\ state trial.2 = HALF_OPEN
     /\ again.1 = true
     /\ failed.1 = false /\ state failed.2 = HALF_OPEN
     /\ after.1 = true.
Proof.
  split; [reflexivity|]. split; [reflexivity|].
  apply (half_open_trial_failure_not_reopened trippedBreaker 60006 60007 60008);
    [reflexivity | reflexivity | reflexivity].
Defined.

End BreakerFacts.

(** ** The scan over the known pairs *)

Section ScannerFacts.
Import Js UniswapScanner.

Variable getReserves : string -> result reserves.
Variable now : Z.
Variable pairs : list (string * pair_info).

(** Descending by profit: [a] may stand before [b]. *)
Definition profit_ge (a b : opportunity) : Prop :=
  profit (found b) <= profit (found a).

Lemma by_profit_desc_le (a b : opportunity) :
  (by_profit_desc a b <=? 0) = true <-> profit_ge a b.
Proof.
  unfold by_profit_desc, profit_ge.
  destruct (Z.ltb_spec (profit (found a)) (profit (found b))); cbn; split;
    intros; try lia; try done.
Qed.

Lemma insert_by_Permutation {A} (cmp : A -> A -> Z) (x : A) (l : list A) :
  Permutation (insert_by cmp x l) (x :: l).
Proof.
  induction l as [|y l IH]; cbn; [done|].
  destruct (cmp y x <=? 0); [|done].
  rewrite IH. apply perm_swap.
Qed.

Lemma sort_by_Permutation {A} (cmp : A -> A -> Z) (l : list A) :
  Permutation (sort_by cmp l) l.
Proof.
  induction l as [|x l IH]; cbn; [done|].
  fold (sort_by cmp l). rewrite insert_by_Permutation. now constructor.
Qed.

Lemma insert_by_profit_HdRel (a x : opportunity) (l : list opportunity) :
  profit_ge a x -> HdRel profit_ge a l ->
  HdRel profit_ge a (insert_by by_profit_desc x l).
Proof.
  intros Hax Hal. destruct l as [|y l]; cbn; [now constructor|].
  destruct (by_profit_desc y x <=? 0); constructor; [|exact Hax].
  now apply HdRel_inv in Hal.
Qed.

Lemma insert_by_profit_Sorted (x : opportunity) (l : list opportunity) :
  Sorted profit_ge l -> Sorted profit_ge (insert_by by_profit_desc x l).
Proof.
  induction 1 as [|y l Hs IH Hhd]; cbn; [repeat constructor|].
  destruct (by_profit_desc y x <=? 0) eqn:Hc.
  - constructor; [exact IH|].
    apply insert_by_profit_HdRel; [|exact Hhd]. now apply by_profit_desc_le.
  - constructor; [now constructor|]. constructor.
    unfold profit_ge. unfold by_profit_desc in Hc.
    destruct (Z.ltb_spec (profit (found y)) (profit (found x))); [lia | done].
Qed.

Lemma sort_by_profit_Sorted (l : list opportunity) :
  Sorted profit_ge (sort_by by_profit_desc l).
Proof.
  induction l as [|x l IH]; cbn; [constructor|].
  now apply insert_by_profit_Sorted.
Qed.

Lemma profit_ge_transitive : Relations_1.Transitive profit_ge.
Proof. intros a b c. unfold profit_ge. lia. Qed.

(** An answer without a quote is the [catch] branch's. *)
Lemma findArbitrage_no_quote (p1 p2 tokenIn : string) (amount : Z) :
  let r := findArbitrage getReserves now p1 p2 tokenIn amount in
  details r = None -> profitable r = false.
Proof.
  unfold findArbitrage.
  destruct (getReserves p1) as [r1|]; cbn; [|done].
  destruct (getReserves p2) as [r2|]; cbn; [|done].
  repeat (match goal with |- context [Js.bind ?c _] => destruct c end; cbn; [|done]).
  discriminate.
Qed.

(** An answer with a quote is profitable exactly when the quote's final
    amount is above the amount put in. *)
Lemma findArbitrage_quote (p1 p2 tokenIn : string) (amount : Z) (q : quote) :
  let r := findArbitrage getReserves now p1 p2 tokenIn amount in
  details r = Some q ->
  amountIn q = amount
  /\ profitable r = (amount <? amountOut q)
  /\ profit r = (if amount <? amountOut q then amountOut q - amount else 0).
Proof.
  unfold findArbitrage.
  destruct (getReserves p1) as [r1|]; cbn; [|done].
  destruct (getReserves p2) as [r2|]; cbn; [|done].
  repeat (match goal with |- context [Js.bind ?c _] => destruct c end; cbn; [|done]).
  intros [= <-]. cbn. repeat split.
  match goal with |- (0 <? (if ?c then _ else _)) = _ => destruct c eqn:Hc end;
    [apply Z.ltb_lt in Hc; apply Z.ltb_lt; lia | reflexivity].
Qed.

(** What a profitable answer of [findArbitrage] holds. *)
Lemma findArbitrage_profitable (p1 p2 tokenIn : string) (amount : Z) :
  let r := findArbitrage getReserves now p1 p2 tokenIn amount in
  profitable r = true <->
  exists q, details r = Some q /\ amountIn q = amount /\ amount < amountOut q
            /\ profit r = amountOut q - amount /\ 0 < profit r.
Proof.
  cbv zeta. split.
  - intros Hp.
    destruct (details (findArbitrage getReserves now p1 p2 tokenIn amount))
      as [q|] eqn:Hq.
    + destruct (findArbitrage_quote p1 p2 tokenIn amount q Hq) as (H1 & H2 & H3).
      rewrite Hp in H2. symmetry in H2. rewrite H2 in H3.
      apply Z.ltb_lt in H2. exists q. repeat split; try done; lia.
    + apply findArbitrage_no_quote in Hq. congruence.
  - intros (q & Hq & _ & Hlt & _).
    destruct (findArbitrage_quote p1 p2 tokenIn amount q Hq) as (_ & -> & _).
    now apply Z.ltb_lt.
Qed.

(** What one comparison of the inner loop pushes. *)
Lemma compare_pairs_In (tokenIn : string) (amount : Z)
    (ki kj : string * pair_info) (o : opportunity) :
  In o (compare_pairs getReserves now tokenIn amount ki kj) <->
  token_key ki.1 = token_key kj.1 /\ dex ki.2 <> dex kj.2
  /\ profitable (findArbitrage getReserves now (pair ki.2) (pair kj.2) tokenIn amount) = true
  /\ o = {| found := findArbitrage getReserves now (pair ki.2) (pair kj.2) tokenIn amount;
            dex1 := dex ki.2; dex2 := dex kj.2; pairName := ki.1;
            o_token0 := p_token0 ki.2; o_token1 := p_token1 ki.2 |}.
Proof.
  unfold compare_pairs.
  destruct (String.eqb_spec (token_key ki.1) (token_key kj.1)) as [Hk|Hk]; cbn;
    [|split; [done | intros (? & _); done]].
  destruct (String.eqb_spec (dex ki.2) (dex kj.2)) as [Hd|Hd]; cbn;
    [split; [done | intros (_ & ? & _); done]|].
  destruct (profitable _) eqn:Hp; cbn.
  - split; [intros [<-|[]]; done | intros (_ & _ & _ & ->); now left].
  - split; [done | intros (_ & _ & ? & _); done].
Qed.

(** The nested loops visit every pair of keys [ki] before [kj]. *)
Lemma scan_from_In (tokenIn : string) (amount : Z)
    (keys : list (string * pair_info)) (o : opportunity) :
  In o (scan_from getReserves now tokenIn amount keys) <->
  exists pre ki mid kj post,
    keys = pre ++ ki :: mid ++ kj :: post
    /\ In o (compare_pairs getReserves now tokenIn amount ki kj).
Proof.
  induction keys as [|k rest IH]; cbn.
  - split; [done|]. intros (pre & ki & mid & kj & post & H & _).
    now destruct pre.
  - rewrite in_app_iff, in_flat_map, IH. split.
    + intros [(kj & Hin & Ho)|(pre & ki & mid & kj & post & -> & Ho)].
      * apply in_split in Hin as (mid & post & ->).
        now exists [], k, mid, kj, post.
      * now exists (k :: pre), ki, mid, kj, post.
    + intros (pre & ki & mid & kj & post & Heq & Ho).
      destruct pre as [|p pre]; cbn in Heq; injection Heq as -> ->.
      * left. exists kj. split; [|exact Ho].
        apply in_or_app. right. now left.
      * right. now exists pre, ki, mid, kj, post.
Qed.

(** C8. [scanAll] returns exactly the round trips of the pairs of keys
    (first before second in [this.pairs]) with the same token pair and
    different venues whose final amount strictly exceeds [amountIn]; each
    carries [profit = amountOut - amountIn > 0]; and the list is in
    descending order of profit. *)
Theorem scanAll_keeps_profitable_sorted (tokenIn : string) (amount : Z) :
  let out := scanAll getReserves now pairs tokenIn amount in
  (forall o, In o out <->
     exists pre ki mid kj post,
       pairs = pre ++ ki :: mid ++ kj :: post
       /\ token_key ki.1 = token_key kj.1 /\ dex ki.2 <> dex kj.2
       /\ (exists q,
             details (findArbitrage getReserves now (pair ki.2) (pair kj.2) tokenIn amount)
               = Some q
             /\ amount < amountOut q)
       /\ o = {| found := findArbitrage getReserves now (pair ki.2) (pair kj.2) tokenIn amount;
                 dex1 := dex ki.2; dex2 := dex kj.2; pairName := ki.1;
                 o_token0 := p_token0 ki.2; o_token1 := p_token1 ki.2 |})
  /\ (forall o, In o out ->
        exists q, details (found o) = Some q /\ amountIn q = amount
                  /\ amount < amountOut q
                  /\ profit (found o) = amountOut q - amount
                  /\ 0 < profit (found o))
  /\ StronglySorted (fun a b => profit (found b) <= profit (found a)) out.
Proof.
  cbv zeta. unfold scanAll.
  assert (Hin : forall o,
    In o (sort_by by_profit_desc (scan_from getReserves now tokenIn amount pairs)) <->
    In o (scan_from getReserves now tokenIn amount pairs)).
  { intros o. split; apply Permutation_in;
      [|symmetry]; apply sort_by_Permutation. }
  split; [|split].
  - intros o. rewrite Hin, scan_from_In. split.
    + intros (pre & ki & mid & kj & post & Hp & Ho).
      apply compare_pairs_In in Ho as (Hk & Hd & Hprof & ->).
      exists pre, ki, mid, kj, post. repeat split; try done.
      apply findArbitrage_profitable in Hprof as (q & Hq & _ & Hlt & _). eauto.
    + intros (pre & ki & mid & kj & post & Hp & Hk & Hd & (q & Hq & Hlt) & ->).
      exists pre, ki, mid, kj, post. split; [exact Hp|].
      apply compare_pairs_In. repeat split; try done.
      destruct (findArbitrage_quote (pair ki.2) (pair kj.2) tokenIn amount q Hq)
        as (_ & -> & _).
      now apply Z.ltb_lt.
  - intros o Ho. apply Hin, scan_from_In in Ho as (pre & ki & mid & kj & post & _ & Ho).
    apply compare_pairs_In in Ho as (_ & _ & Hprof & ->). cbn.
    now apply findArbitrage_profitable in Hprof.
  - apply Sorted_StronglySorted; [exact profit_ge_transitive|].
    apply sort_by_profit_Sorted.
Qed.

End ScannerFacts.

Section ScannerExample.
Import Js UniswapScanner.

(** Three venues quoting the same two tokens at different prices, and a
    fourth pair of other tokens. *)
Definition threeVenues : list (string * pair_info) :=
  [ ("WETH-USDC-uni"%string,
     {| pair := "0xP1"; dex := "uniswap"; p_token0 := "WETH"; p_token1 := "USDC" |});
    ("WETH-USDC-shiba"%string,
     {| pair := "0xP2"; dex := "shibaswap"; p_token0 := "WETH"; p_token1 := "USDC" |});
    ("USDC-WETH-sushi"%string,
     {| pair := "0xP3"; dex := "sushiswap"; p_token0 := "WETH"; p_token1 := "USDC" |});
    ("WETH-DAI-uni"%string,
     {| pair := "0xP4"; dex := "uniswap"; p_token0 := "DAI"; p_token1 := "WETH" |}) ].

Definition threeVenuesChain (pairAddress : string) : result reserves :=
  if String.eqb pairAddress "0xP1" then
    Return {| reserve0 := 1000000; reserve1 := 2000000;
              token0 := "0xAa"; token1 := "0xBb"; timestamp := 0 |}
  else if String.eqb pairAddress "0xP2" then
    Return {| reserve0 := 1000000; reserve1 := 1500000;
              token0 := "0xAa"; token1 := "0xBb"; timestamp := 0 |}
  else if String.eqb pairAddress "0xP3" then
    Return {| reserve0 := 1000000; reserve1 := 1000000;
              token0 := "0xAa"; token1 := "0xBb"; timestamp := 0 |}
  else Throw CallFailed.

(** The scan pushes the round trips in loop order (profits 322, 982, 487)
    and returns them in descending order; the pair of other tokens is
    never compared. *)
Example scanAll_threeVenues :
  map (fun o => (pairName o, dex1 o, dex2 o, profit (found o)))
      (scanAll threeVenuesChain 0 threeVenues "0xaa" 1000)
  = [ ("WETH-USDC-uni"%string, "uniswap"%string, "sushiswap"%string, 982);
      ("WETH-USDC-shiba"%string, "shibaswap"%string, "sushiswap"%string, 487);
      ("WETH-USDC-uni"%string, "uniswap"%string, "shibaswap"%string, 322) ].
Proof. vm_compute. reflexivity. Qed.

End ScannerExample.

(** ** The submission channel *)

Section ChannelFacts.
Import Js ArbitrageBot.

Variable env : world.

(** The class defines [executeViaMempool] twice and [executeViaFlashbots]
    never: the name resolves to the public broadcast, and the bundle
    method is out of reach. *)
Lemma member_executeViaMempool :
  member (class_body env) "executeViaMempool" = Some (executeViaMempool_public env).
Proof. reflexivity. Qed.

Lemma member_executeViaFlashbots :
  member (class_body env) "executeViaFlashbots" = None.
Proof. reflexivity. Qed.

Definition with_trace (b : bot) (tr : list action) : bot :=
  {| flashbotsProvider := flashbotsProvider b;
     circuitBreaker := circuitBreaker b;
     slippageCalculator := slippageCalculator b;
     executed := executed b;
     trace := tr |}.

Definition with_failure (b : bot) : bot :=
  {| flashbotsProvider := flashbotsProvider b;
     circuitBreaker := (CircuitBreaker.recordFailure (now env) (circuitBreaker b)).2;
     slippageCalculator := slippageCalculator b;
     executed := executed b;
     trace := trace b |}.

Lemma call_accepted (a : action) (b : bot) :
  rejects env a = false ->
  call env a b = (Return tt, with_trace b (trace b ++ [a])).
Proof. intros H. unfold call. now rewrite H. Qed.

(** The bundle method by itself does follow the private path: on a fresh
    opportunity with an asset that passes the slippage gate it signs and
    simulates before anything is sent; a failed simulation records a
    failure and sends nothing; a bundle that was sent and not included
    (wait response 1) records no failure. *)
Lemma bundle_method_follows_private_path (opp : opportunity) (b : bot) :
  (forall a, rejects env a = false) ->
  (exists m, minProfit env = Return m) -> (exists n, amountIn opp = Some n) ->
  (exists a, asset env opp = Some a) ->
  ageMs env opp <= 3000 ->
  truthy (SlippageCalculator.reserve0A (reserves opp)) = false ->
  let target := blockNumber env + 1 in
  let prepared :=
    trace b ++ [PopulateTransaction; GetBlockNumber; GetNetwork; SignBundle;
                SimulateBundle target] in
  (simulated env <> SimPassed ->
     executeViaMempool_bundle env opp b
     = (Return tt, with_failure (with_trace b prepared)))
  /\ (simulated env = SimPassed -> waitResponse env = 1 ->
        executeViaMempool_bundle env opp b
        = (Return tt,
           with_trace b (prepared ++ [SendBundle target; WaitForInclusion]))).
Proof.
  intros Hacc [m Hm] [n Hn] [a Ha] Hage Hres. cbv zeta. unfold executeViaMempool_bundle.
  unfold seq at 1, announce. rewrite Hm, Hn, Ha. cbn [ret].
  destruct (Z.ltb_spec 3000 (ageMs env opp)); [lia|].
  unfold seq at 1 2, slippageGate. rewrite Hres. cbn [andb negb].
  unfold seq, call. rewrite !Hacc. cbn.
  rewrite <- !app_assoc. cbn [app].
  split.
  - intros Hsim. destruct (simulated env); try done.
  - intros -> ->. cbn. unfold with_trace. cbn.
    rewrite <- !app_assoc. reflexivity.
Qed.

(** C6, as the code has it. With a Flashbots provider in place (and the
    lock, the notifier and USE_FLASH_LOAN as in a normal run),
    [executeArbitrageReal] builds, signs, simulates and sends nothing: the
    call of the undefined [executeViaFlashbots] throws, the handler
    records a failure, and the lock is released. Neither the simulation's
    outcome nor the opportunity matters. *)
Theorem flashbots_path_never_entered (opp : opportunity) (b : bot) :
  flashbotsProvider b = true ->
  lockToken env = true ->
  useFlashLoan env = true ->
  rejects env LockAcquire = false ->
  rejects env NotifyError = false ->
  rejects env LockRelease = false ->
  rejects env LockQuit = false ->
  executeArbitrageReal env opp b
  = (Return tt,
     with_trace (with_failure b)
       (trace b ++ [LockAcquire; NotifyError; LockRelease; LockQuit])).
Proof.
  intros Hfb Hlock Hflash Ha Hn Hr Hq.
  unfold executeArbitrageReal, seq.
  rewrite (call_accepted LockAcquire b Ha), Hlock, Hflash. cbn [negb].
  unfold finally, try_catch, executeFlashLoanArbitrage.
  cbn [flashbotsProvider with_trace]. rewrite Hfb.
  unfold invoke. rewrite member_executeViaFlashbots.
  unfold throw, seq, breakerFailure.
  rewrite call_accepted by exact Hn. cbn.
  rewrite call_accepted by exact Hr. cbn.
  rewrite call_accepted by exact Hq. cbn.
  unfold with_trace, with_failure. cbn. rewrite <- !app_assoc. reflexivity.
Qed.

End ChannelFacts.

Section ChannelWitness.
Import Js ArbitrageBot.

(** A run in which every collaborator answers and the simulation would
    pass. *)
Definition calmRun : world :=
  {| now := 1000; rejects := fun _ => false; lockToken := true;
     useFlashLoan := true; blockNumber := 7; simulated := SimPassed;
     waitResponse := 0; gasTooHigh := false; receiptStatus := 1;
     wethAddress := Some "0xC02aaA39b223FE8D0A0e5C4F27eAD9083C756Cc2"%string;
     minProfit := Return 10000000000000000; feePrice := Some 30000000000 |}.

Definition freshOpportunity : opportunity :=
  {| amountIn := Some 10; profit := Some 8; timestamp := Some 999;
     reserves := skewedRoute; path := None; pathReverse := None |}.

(** The bot as [initialize] leaves it with Flashbots enabled. *)
Definition flashbotsBot : bot :=
  {| flashbotsProvider := true;
     circuitBreaker := CircuitBreaker.new None None None;
     slippageCalculator := SlippageCalculator.new 2;
     executed := 0;
     trace := [] |}.

Lemma flashbots_path_never_entered_witness :
  executeArbitrageReal calmRun freshOpportunity flashbotsBot
  = (Return tt,
     with_trace (with_failure calmRun flashbotsBot)
       [LockAcquire; NotifyError; LockRelease; LockQuit]).
Proof.
  apply (flashbots_path_never_entered calmRun freshOpportunity flashbotsBot);
    reflexivity.
Defined.

End ChannelWitness.

(** ** The contract *)

Section ContractFacts.
Import FlashArbitrage.

Context {V : Type} (E : externals V).

(** *** Stepping through the revert monad *)

Lemma bind_Ok {A B} (m : M A) (k : A -> M B) (w : world V) (r : B * world V) :
  bind m k w = Ok r -> exists a w1, m w = Ok (a, w1) /\ k a w1 = Ok r.
Proof.
  unfold bind. destruct (m w) as [[a w1]|f]; [eauto | discriminate].
Qed.

Lemma bind_step {A B} (m : M A) (k : A -> M B) (w w1 : world V) (a : A) :
  m w = Ok (a, w1) -> bind m k w = k a w1.
Proof. unfold bind. now intros ->. Qed.

Lemma bind_Revert {A B} (m : M A) (k : A -> M B) (w : world V) (f : failure) :
  m w = Revert f -> bind m k w = Revert f.
Proof. unfold bind. now intros ->. Qed.

Lemma require_Ok (c : bool) (reason : string) (w w' : world V) (u : unit) :
  require c reason w = Ok (u, w') -> c = true /\ w' = w.
Proof. unfold require, ret, revert. destruct c; [intros [= <-]; done | discriminate]. Qed.

Lemma checked_Ok (z z' : Z) (w w' : world V) :
  checked z w = Ok (z', w') -> z' = z /\ w' = w /\ 0 <= z <= MAX_UINT256.
Proof.
  unfold checked, in_uint256, ret, revert.
  destruct (Z.leb_spec 0 z), (Z.leb_spec z MAX_UINT256); cbn;
    try discriminate. intros [= <- <-]. done.
Qed.

Lemma checked_in_range (z : Z) (w : world V) :
  0 <= z <= MAX_UINT256 -> checked z w = Ok (z, w).
Proof.
  intros [H0 H1]. unfold checked, in_uint256, ret.
  destruct (Z.leb_spec 0 z), (Z.leb_spec z MAX_UINT256); cbn; done || lia.
Qed.

Lemma sload_Ok {A} (field : storage -> A) (w w' : world V) (a : A) :
  sload field w = Ok (a, w') -> a = field (store w) /\ w' = w.
Proof. unfold sload. now intros [= <- <-]. Qed.

Lemma index_Ok {A} (l : list A) (i : Z) (w w' : world V) (a : A) :
  index l i w = Ok (a, w') -> l !! Z.to_nat i = Some a /\ w' = w.
Proof.
  unfold index, ret, revert. destruct (l !! Z.to_nat i); [|discriminate].
  now intros [= <- <-].
Qed.

Lemma last_of_Ok {A} (l : list A) (w w' : world V) (a : A) :
  last_of l w = Ok (a, w') -> last l = Some a /\ w' = w.
Proof.
  unfold last_of, ret, revert. destruct (last l); [|discriminate].
  now intros [= <- <-].
Qed.

Lemma last_of_Some {A} (l : list A) (a : A) (w : world V) :
  last l = Some a -> last_of l w = Ok (a, w).
Proof. unfold last_of. now intros ->. Qed.

(** The world with another chain. *)
Definition with_ext (w : world V) (c : chain V) : world V :=
  {| store := store w; ext := c; logs := logs w |}.

(** The chain after [approve]. *)
Definition approved (c : chain V) (token spender : address) (amount : Z) : chain V :=
  {| allowance := <[(token, this E, spender) := amount]> (allowance c);
     balance := balance c;
     venues := venues c |}.

Lemma approve_run (token spender : address) (amount : Z) (w : world V) :
  approve E token spender amount w
  = Ok (tt, with_ext w (approved (ext w) token spender amount)).
Proof. reflexivity. Qed.

Lemma approve_Ok (token spender : address) (amount : Z) (w w' : world V) (u : unit) :
  approve E token spender amount w = Ok (u, w') ->
  w' = with_ext w (approved (ext w) token spender amount).
Proof. rewrite approve_run. now intros [= <-]. Qed.

Lemma sstore_Ok (update : storage -> storage) (w w' : world V) (u : unit) :
  sstore update w = Ok (u, w') ->
  w' = {| store := update (store w); ext := ext w; logs := logs w |}.
Proof. unfold sstore. now intros [= <-]. Qed.

Lemma emit_Ok (e : event) (w w' : world V) (u : unit) :
  emit e w = Ok (u, w') ->
  w' = {| store := store w; ext := ext w; logs := e :: logs w |}.
Proof. unfold emit. now intros [= <-]. Qed.

Lemma relay_Ok {A} (reword : failure -> failure) (m : M A) (w : world V)
    (r : A * world V) :
  relay reword m w = Ok r -> m w = Ok r.
Proof. unfold relay. destruct (m w); [now intros [= <-] | discriminate]. Qed.

Lemma swap_Ok (router : address) (amountIn amountOutMin : Z) (path : list address)
    (deadline : Z) (w w' : world V) (amounts : list Z) :
  swap E router amountIn amountOutMin path deadline w = Ok (amounts, w') ->
  exists c,
    swapExactTokensForTokens E router (this E) amountIn amountOutMin path (this E)
      deadline (ext w) = Some (amounts, c)
    /\ w' = with_ext w c.
Proof.
  unfold swap. destruct (swapExactTokensForTokens _ _ _ _ _ _ _ _ _) as [[a c]|];
    [|discriminate]. intros [= <- <-]. eauto.
Qed.

(** *** Hop 2 *)

(** What hop 2 asks of the router at [r], in world [w]. *)
Definition hop2_request (w : world V) (mid minOut : Z) (path2 : list address)
    (r : address) : option (list Z * chain V) :=
  swapExactTokensForTokens E r (this E) mid minOut path2 (this E)
    (block_timestamp E + 300) (ext w).

Lemma try_routers_success (r : address) (rest : list address) (mid minOut acc : Z)
    (path2 : list address) (w : world V) (amounts : list Z) (c : chain V) :
  0 <= block_timestamp E + 300 <= MAX_UINT256 ->
  hop2_request w mid minOut path2 r = Some (amounts, c) ->
  try_routers E (r :: rest) mid minOut path2 acc w = last_of amounts (with_ext w c).
Proof.
  intros Ht Hreq. cbn [try_routers]. unfold add.
  rewrite (bind_step _ _ w w _ (checked_in_range _ w Ht)).
  unfold hop2_request in Hreq. now rewrite Hreq.
Qed.

Lemma try_routers_failure (r : address) (rest : list address) (mid minOut acc : Z)
    (path2 : list address) (w : world V) :
  0 <= block_timestamp E + 300 <= MAX_UINT256 ->
  hop2_request w mid minOut path2 r = None ->
  try_routers E (r :: rest) mid minOut path2 acc w
  = try_routers E rest mid minOut path2 acc w.
Proof.
  intros Ht Hreq. cbn [try_routers]. unfold add.
  rewrite (bind_step _ _ w w _ (checked_in_range _ w Ht)).
  unfold hop2_request in Hreq. now rewrite Hreq.
Qed.

(** A loop that ends without reverting either fell through with the
    accumulator untouched (every candidate reverted), or took the last
    amount of the first candidate that did not revert. *)
Lemma try_routers_Ok (routers : list address) (mid minOut acc : Z)
    (path2 : list address) (w w' : world V) (x : Z) :
  try_routers E routers mid minOut path2 acc w = Ok (x, w') ->
  (x = acc /\ w' = w /\ Forall (fun r => hop2_request w mid minOut path2 r = None) routers)
  \/ (exists pre r post amounts c,
        routers = pre ++ r :: post
        /\ Forall (fun r => hop2_request w mid minOut path2 r = None) pre
        /\ hop2_request w mid minOut path2 r = Some (amounts, c)
        /\ last amounts = Some x
        /\ w' = with_ext w c).
Proof.
  induction routers as [|r rest IH]; cbn [try_routers].
  - intros [= <- <-]. left. repeat split. constructor.
  - intros H. apply bind_Ok in H as (deadline & w1 & Hd & H).
    apply checked_Ok in Hd as (-> & -> & _).
    destruct (swapExactTokensForTokens _ _ _ _ _ _ _ _ _) as [[amounts c]|] eqn:Hreq.
    + apply last_of_Ok in H as (Hl & ->). right.
      exists [], r, rest, amounts, c. repeat split; done || constructor.
    + destruct (IH H) as [(-> & -> & Hall)|(pre & r' & post & amounts & c & -> & Hpre & Hr & Hl & ->)].
      * left. repeat split. now constructor.
      * right. exists (r :: pre), r', post, amounts, c.
        repeat split; try done. now constructor.
Qed.

(** What the two checks after the loop make of an amount [x] received
    from a candidate that left the chain as [c]. *)
Definition settled (amount x : Z) (w : world V) (c : chain V) : outcome (Z * world V) :=
  if 0 <? x then
    if amount + amount * 50 / 10000 <=? x then Ok (x, with_ext w c)
    else Revert (Error "Arbitrage not profitable")
  else Revert (Error "All swap attempts failed").

Lemma swapBack_after_loop (amount mid x : Z) (path2 : list address)
    (w w1 : world V) :
  0 <= amount -> amount * 101 <= MAX_UINT256 ->
  store w1 = store w ->
  try_routers E [router2 (store w); router1 (store w)] mid (amount * 101 / 100)
    path2 0 w = Ok (x, w1) ->
  swapBack E amount mid path2 w = settled amount x w1 (ext w1).
Proof.
  intros Hamt Hmax Hst Hloop. unfold swapBack, mul, add.
  rewrite (bind_step _ _ w w (amount * 101)) by (apply checked_in_range; lia).
  rewrite (bind_step _ _ w w (router2 (store w))) by reflexivity.
  rewrite (bind_step _ _ w w (router1 (store w))) by reflexivity.
  rewrite (bind_step _ _ _ _ _ Hloop).
  unfold settled, require.
  destruct (0 <? x); [|reflexivity].
  rewrite (bind_step _ _ w1 w1 tt) by reflexivity.
  rewrite (bind_step _ _ w1 w1 (amount * 50)) by (apply checked_in_range; lia).
  assert (0 <= amount * 50 / 10000 <= amount).
  { split; [apply Z.div_pos; lia|]. apply Z.div_le_upper_bound; lia. }
  rewrite (bind_step _ _ w1 w1 (amount + amount * 50 / 10000))
    by (apply checked_in_range; lia).
  destruct (_ <=? x); [|reflexivity].
  rewrite (bind_step _ _ w1 w1 tt) by reflexivity.
  unfold ret, with_ext. now destruct w1.
Qed.

(** C4, as the code has it. Hop 2 asks router2, then router1, for at
    least [amount * 101 / 100]. The first candidate that does not revert
    ends the loop and its last amount is what was received, zero
    included: a zero from router2 reverts the unit with
    "All swap attempts failed" whatever router1 would have returned.
    Router1 is asked only when router2 reverted, and when both revert the
    unit reverts with that same message. *)
Theorem swapBack_takes_first_non_reverting (amount mid : Z) (path2 : list address)
    (w : world V) :
  0 <= amount -> amount * 101 <= MAX_UINT256 ->
  0 <= block_timestamp E + 300 <= MAX_UINT256 ->
  let ask := hop2_request w mid (amount * 101 / 100) path2 in
  (forall amounts c x,
     ask (router2 (store w)) = Some (amounts, c) -> last amounts = Some x ->
     swapBack E amount mid path2 w = settled amount x w c)
  /\ (forall amounts c,
        ask (router2 (store w)) = Some (amounts, c) -> last amounts = Some 0 ->
        swapBack E amount mid path2 w = Revert (Error "All swap attempts failed"))
  /\ (forall amounts c x,
        ask (router2 (store w)) = None ->
        ask (router1 (store w)) = Some (amounts, c) -> last amounts = Some x ->
        swapBack E amount mid path2 w = settled amount x w c)
  /\ (ask (router2 (store w)) = None -> ask (router1 (store w)) = None ->
        swapBack E amount mid path2 w = Revert (Error "All swap attempts failed")).
Proof.
  intros Hamt Hmax Ht ask.
  assert (Hfirst : forall amounts c x,
    ask (router2 (store w)) = Some (amounts, c) -> last amounts = Some x ->
    swapBack E amount mid path2 w = settled amount x w c).
  { intros amounts c x Hreq Hl.
    rewrite (swapBack_after_loop amount mid x path2 w (with_ext w c)); try done.
    rewrite (try_routers_success _ _ _ _ _ _ _ amounts c Ht Hreq).
    now apply last_of_Some. }
  split; [exact Hfirst|]. split; [|split].
  - intros amounts c Hreq Hl. now rewrite (Hfirst amounts c 0 Hreq Hl).
  - intros amounts c x Hreq2 Hreq1 Hl.
    rewrite (swapBack_after_loop amount mid x path2 w (with_ext w c)); try done.
    rewrite (try_routers_failure _ _ _ _ _ _ _ Ht Hreq2).
    rewrite (try_routers_success _ _ _ _ _ _ _ amounts c Ht Hreq1).
    now apply last_of_Some.
  - intros Hreq2 Hreq1.
    rewrite (swapBack_after_loop amount mid 0 path2 w w); try done.
    rewrite (try_routers_failure _ _ _ _ _ _ _ Ht Hreq2).
    now rewrite (try_routers_failure _ _ _ _ _ _ _ Ht Hreq1).
Qed.

(** *** What a successful swap phase guarantees *)

(** Peel one [bind] off a successful run. *)
Tactic Notation "ok_bind" hyp(H) "as" ident(a) ident(w1) ident(Ha) :=
  apply bind_Ok in H as (a & w1 & Ha & H).

(** A router that, like MockUniswapRouter and the Uniswap V2 router,
    reverts rather than return less than [amountOutMin]. *)
Definition honors_minimum : Prop :=
  forall router sender amountIn amountOutMin path to deadline c amounts c',
    swapExactTokensForTokens E router sender amountIn amountOutMin path to deadline c
    = Some (amounts, c') ->
    exists x, last amounts = Some x /\ amountOutMin <= x.

Lemma swapBack_Ok (amount mid x : Z) (path2 : list address) (w w' : world V) :
  swapBack E amount mid path2 w = Ok (x, w') ->
  0 <= amount * 101 <= MAX_UINT256
  /\ 0 < x
  /\ amount + amount * 50 / 10000 <= x
  /\ try_routers E [router2 (store w); router1 (store w)] mid (amount * 101 / 100)
       path2 0 w = Ok (x, w')
  /\ exists r amounts c,
       (r = router2 (store w) \/ r = router1 (store w))
       /\ hop2_request w mid (amount * 101 / 100) path2 r = Some (amounts, c)
       /\ last amounts = Some x
       /\ w' = with_ext w c.
Proof.
  unfold swapBack, mul, add. intros H.
  ok_bind H as scaled w1 Hs. apply checked_Ok in Hs as (-> & -> & Hr).
  ok_bind H as r2 w1 H2. apply sload_Ok in H2 as (-> & ->).
  ok_bind H as r1 w1 H1. apply sload_Ok in H1 as (-> & ->).
  ok_bind H as got w1 Hloop.
  ok_bind H as u w2 Hpos. apply require_Ok in Hpos as (Hpos & ->).
  ok_bind H as bps w2 Hb. apply checked_Ok in Hb as (-> & -> & _).
  ok_bind H as floor w2 Hf. apply checked_Ok in Hf as (-> & -> & _).
  ok_bind H as u' w2 Hfl. apply require_Ok in Hfl as (Hfl & ->).
  injection H as <- <-.
  apply Z.ltb_lt in Hpos. apply Z.leb_le in Hfl.
  repeat split; try lia; try exact Hloop.
  apply try_routers_Ok in Hloop
    as [(-> & _)|(pre & r & post & amounts & c & Heq & _ & Hreq & Hl & ->)]; [lia|].
  exists r, amounts, c. repeat split; try done.
  destruct pre as [|p [|p' pre]]; cbn in Heq.
  - injection Heq as <- _. now left.
  - injection Heq as _ <- _. now right.
  - injection Heq as _ _ Heq. now destruct pre.
Qed.

Lemma swapOnRouter1_frame (asset : address) (amount mid : Z) (path1 : list address)
    (w w' : world V) :
  swapOnRouter1 E asset amount path1 w = Ok (mid, w') ->
  store w' = store w /\ logs w' = logs w.
Proof.
  unfold swapOnRouter1, add. intros H.
  ok_bind H as r1 w1 H1. apply sload_Ok in H1 as (-> & ->).
  ok_bind H as u w1 Ha. apply approve_Ok in Ha as ->.
  ok_bind H as deadline w2 Hd. apply checked_Ok in Hd as (-> & -> & _).
  ok_bind H as amounts1 w2 Hs. apply swap_Ok in Hs as (c & _ & ->).
  ok_bind H as tok w2 Ht. apply last_of_Ok in Ht as (_ & ->).
  ok_bind H as mid' w2 Hm. apply last_of_Ok in Hm as (_ & ->).
  ok_bind H as r2 w2 H2. apply sload_Ok in H2 as (-> & ->).
  ok_bind H as u' w2 Ha'. apply approve_Ok in Ha' as ->.
  injection H as _ <-. done.
Qed.

(** A swap phase that returns [x] received a positive amount that meets
    the 0.5% floor, from routers that were asked for at least
    [amount * 101 / 100]; it touches neither the storage nor the log. *)
Lemma executeSwaps_Ok (asset : address) (amount x : Z) (path1 path2 : list address)
    (w w' : world V) :
  _executeSwaps E asset amount path1 path2 w = Ok (x, w') ->
  0 < x
  /\ amount + amount * 50 / 10000 <= x
  /\ (honors_minimum -> amount * 101 / 100 <= x)
  /\ store w' = store w /\ logs w' = logs w.
Proof.
  unfold _executeSwaps. intros H.
  ok_bind H as mid w1 H1. apply swapOnRouter1_frame in H1 as (Hst & Hlg).
  apply swapBack_Ok in H as (_ & Hpos & Hfl & _ & r & amounts & c & _ & Hreq & Hl & ->).
  repeat split; try done.
  intros Hon. destruct (Hon _ _ _ _ _ _ _ _ _ _ Hreq) as (x' & Hl' & Hmin).
  congruence.
Qed.

(** The storage after a successful callback. *)
Definition credited (s : storage) (profit : Z) : storage :=
  set_totalProfits (totalProfits s + profit) s.

(** A callback that returns passed the three guards, decoded its
    parameters, got [finalAmount] out of the swap phase, and then did
    exactly this: compared, approved, credited, logged. *)
Lemma executeOperation_Ok (sender asset : address) (amount premium : Z)
    (initiator : address) (params : calldata) (w w' : world V) (b : bool) :
  executeOperation E sender asset amount premium initiator params w = Ok (b, w') ->
  sender = aavePool (store w) /\ initiator = this E /\ inFlashLoan (store w) = true
  /\ exists path1 path2 minProfit finalAmount w1,
       params = Encoded path1 path2 minProfit
       /\ _executeSwaps E asset amount path1 path2 w = Ok (finalAmount, w1)
       /\ 0 <= amount + premium <= MAX_UINT256
       /\ amount + premium < finalAmount
       /\ minProfit <= finalAmount - (amount + premium)
       /\ 0 <= totalProfits (store w) + (finalAmount - (amount + premium)) <= MAX_UINT256
       /\ b = true
       /\ w' = {| store := credited (store w) (finalAmount - (amount + premium));
                  ext := approved (ext w1) asset (aavePool (store w)) (amount + premium);
                  logs := FlashLoanExecuted asset amount
                            (finalAmount - (amount + premium)) premium :: logs w |}.
Proof.
  unfold executeOperation, add, sub. intros H.
  ok_bind H as pool w1 Hp. apply sload_Ok in Hp as (-> & ->).
  ok_bind H as u w1 Hc. apply require_Ok in Hc as (Hsender & ->).
  ok_bind H as u' w1 Hi. apply require_Ok in Hi as (Hinit & ->).
  ok_bind H as flag w1 Hf. apply sload_Ok in Hf as (-> & ->).
  ok_bind H as u'' w1 Hfl. apply require_Ok in Hfl as (Hflag & ->).
  ok_bind H as decoded w1 Hd.
  destruct params as [path1 path2 minProfit|]; [|discriminate].
  injection Hd as <- <-.
  ok_bind H as finalAmount w1 Hswaps.
  destruct (executeSwaps_Ok _ _ _ _ _ _ _ Hswaps) as (_ & _ & _ & Hst & Hlg).
  ok_bind H as owed w2 Ho. apply checked_Ok in Ho as (-> & -> & Howed).
  ok_bind H as u3 w2 Hgt. apply require_Ok in Hgt as (Hgt & ->).
  ok_bind H as profit w2 Hpr. apply checked_Ok in Hpr as (-> & -> & _).
  ok_bind H as u4 w2 Hmin. apply require_Ok in Hmin as (Hmin & ->).
  ok_bind H as u5 w2 Ha. apply approve_Ok in Ha as ->.
  ok_bind H as total w2 Ht. apply sload_Ok in Ht as (-> & ->).
  ok_bind H as total' w2 Ht'. apply checked_Ok in Ht' as (-> & -> & Htot).
  ok_bind H as u6 w2 Hs. apply sstore_Ok in Hs as ->.
  ok_bind H as u7 w2 He. apply emit_Ok in He as ->.
  injection H as <- <-.
  apply Z.eqb_eq in Hsender, Hinit. apply Z.ltb_lt in Hgt. apply Z.leb_le in Hmin.
  cbn [store with_ext] in Htot |- *. rewrite Hst in Htot |- *.
  repeat split; try done.
  exists path1, path2, minProfit, finalAmount, w1.
  repeat split; try done; try lia.
  cbn. unfold credited. now rewrite Hlg.
Qed.

(** The other direction: guards passed, a swap phase that returned, and
    the two comparisons satisfied make the callback succeed. *)
Lemma executeOperation_run (asset : address) (amount premium minProfit finalAmount : Z)
    (path1 path2 : list address) (w w1 : world V) :
  inFlashLoan (store w) = true ->
  _executeSwaps E asset amount path1 path2 w = Ok (finalAmount, w1) ->
  0 <= amount + premium <= MAX_UINT256 ->
  amount + premium < finalAmount ->
  minProfit <= finalAmount - (amount + premium) ->
  0 <= totalProfits (store w) ->
  totalProfits (store w) + (finalAmount - (amount + premium)) <= MAX_UINT256 ->
  executeOperation E (aavePool (store w)) asset amount premium (this E)
    (Encoded path1 path2 minProfit) w
  = Ok (true,
        {| store := credited (store w) (finalAmount - (amount + premium));
           ext := approved (ext w1) asset (aavePool (store w)) (amount + premium);
           logs := FlashLoanExecuted asset amount
                     (finalAmount - (amount + premium)) premium :: logs w |}).
Proof.
  intros Hflag Hswaps Howed Hgt Hmin Htot0 Htot.
  destruct (executeSwaps_Ok _ _ _ _ _ _ _ Hswaps) as (_ & _ & _ & Hst & Hlg).
  unfold executeOperation, add, sub.
  rewrite (bind_step _ _ w w (aavePool (store w))) by reflexivity.
  unfold require at 1. rewrite Z.eqb_refl.
  rewrite (bind_step _ _ w w tt) by reflexivity.
  unfold require at 1. rewrite Z.eqb_refl.
  rewrite (bind_step _ _ w w tt) by reflexivity.
  rewrite (bind_step _ _ w w true) by (unfold sload; now rewrite Hflag).
  rewrite (bind_step _ _ w w tt) by reflexivity.
  rewrite (bind_step _ _ w w (path1, path2, minProfit)) by reflexivity.
  rewrite (bind_step _ _ _ _ _ Hswaps).
  rewrite (bind_step _ _ w1 w1 (amount + premium)) by (now apply checked_in_range).
  unfold require at 1.
  destruct (Z.ltb_spec (amount + premium) finalAmount); [|lia].
  rewrite (bind_step _ _ w1 w1 tt) by reflexivity.
  rewrite (bind_step _ _ w1 w1 (finalAmount - (amount + premium)))
    by (apply checked_in_range; lia).
  unfold require at 1.
  destruct (Z.leb_spec minProfit (finalAmount - (amount + premium))); [|lia].
  rewrite (bind_step _ _ w1 w1 tt) by reflexivity.
  rewrite (bind_step _ _ _ _ _ (approve_run _ _ _ _)).
  rewrite (bind_step _ _ _ _ (totalProfits (store w))) by (unfold sload; cbn; now rewrite Hst).
  rewrite (bind_step _ _ _ _ (totalProfits (store w) + (finalAmount - (amount + premium))))
    by (apply checked_in_range; lia).
  unfold bind, sstore, emit, ret, credited. cbn. now rewrite Hst, Hlg.
Qed.

(** *** The loan *)

(** The world in which the callback runs: the reentrancy guard and the
    loan flag set, and the chain as the lender's transfer left it. *)
Definition lent (w : world V) (c : chain V) : world V :=
  {| store := set_inFlashLoan true (set_entered true (store w));
     ext := c;
     logs := logs w |}.

(** A [flashArbitrage] that returns went through the lender's protocol
    with a callback that returned. *)
Lemma flashArbitrage_Ok (sender asset : address) (amount minProfit : Z)
    (path1 path2 : list address) (w w' : world V) (u : unit) :
  flashArbitrage E sender asset amount path1 path2 minProfit w = Ok (u, w') ->
  sender = owner (store w) /\ paused (store w) = false /\ entered (store w) = false
  /\ exists premium c b w2,
       premiumOf E (aavePool (store w)) asset amount = Some premium
       /\ transferToReceiver E (aavePool (store w)) asset amount (this E) (ext w) = Some c
       /\ executeOperation E (aavePool (store w)) asset amount premium (this E)
            (Encoded path1 path2 minProfit) (lent w c) = Ok (b, w2).
Proof.
  unfold flashArbitrage. intros H.
  ok_bind H as o w1 Ho. apply sload_Ok in Ho as (-> & ->).
  ok_bind H as u1 w1 Hown. apply require_Ok in Hown as (Hown & ->).
  ok_bind H as e w1 He. apply sload_Ok in He as (-> & ->).
  ok_bind H as u2 w1 Hent. apply require_Ok in Hent as (Hent & ->).
  ok_bind H as u3 w1 Hs. apply sstore_Ok in Hs as ->.
  ok_bind H as p w1 Hp. apply sload_Ok in Hp as (-> & ->).
  ok_bind H as u4 w1 Hpa. apply require_Ok in Hpa as (Hpa & ->).
  ok_bind H as pool w1 Hpool. apply sload_Ok in Hpool as (-> & ->).
  ok_bind H as u5 w1 Hcfg. apply require_Ok in Hcfg as (_ & ->).
  ok_bind H as r1 w1 Hr1. apply sload_Ok in Hr1 as (-> & ->).
  ok_bind H as r2 w1 Hr2. apply sload_Ok in Hr2 as (-> & ->).
  ok_bind H as u6 w1 Hrt. apply require_Ok in Hrt as (_ & ->).
  ok_bind H as u7 w1 Hlen. apply require_Ok in Hlen as (_ & ->).
  ok_bind H as first w1 Hfst. apply index_Ok in Hfst as (_ & ->).
  ok_bind H as final w1 Hlast. apply last_of_Ok in Hlast as (_ & ->).
  ok_bind H as u8 w1 Hends. apply require_Ok in Hends as (_ & ->).
  ok_bind H as u9 w1 Hflag. apply sstore_Ok in Hflag as ->.
  ok_bind H as u10 w1 Hloan. clear H.
  cbn [store ext logs] in *.
  apply Z.eqb_eq in Hown. apply negb_true_iff in Hent, Hpa.
  repeat split; try done.
  unfold flashLoanSimple in Hloan. cbn [aavePool set_entered set_inFlashLoan] in Hloan.
  destruct (premiumOf E (aavePool (store w)) asset amount) as [premium|];
    [|discriminate].
  ok_bind Hloan as u11 w2 Hlend. unfold external in Hlend. cbn [ext] in Hlend.
  destruct (transferToReceiver E _ _ _ _ _) as [c|] eqn:Hc; [|discriminate].
  injection Hlend as _ <-.
  ok_bind Hloan as b w2 Hcb. apply relay_Ok in Hcb.
  exists premium, c, b, w2. repeat split; try done.
Qed.

(** *** Settlement *)

(** C2. A callback that returns computed [owed = amount + premium]
    without overflow, found the swap phase's final amount strictly above
    it and the difference at least [minProfit], left the lender an
    allowance of exactly [owed] on the asset, raised [totalProfits] by
    [finalAmount - owed], logged FlashLoanExecuted, and returned true. In
    every other case it reverts. *)
Theorem executeOperation_settlement (sender asset : address) (amount premium : Z)
    (initiator : address) (params : calldata) (w w' : world V) (b : bool) :
  executeOperation E sender asset amount premium initiator params w = Ok (b, w') ->
  exists path1 path2 minProfit finalAmount w1,
    params = Encoded path1 path2 minProfit
    /\ _executeSwaps E asset amount path1 path2 w = Ok (finalAmount, w1)
    /\ let owed := amount + premium in
       owed < finalAmount
       /\ minProfit <= finalAmount - owed
       /\ allowance (ext w') !! (asset, this E, aavePool (store w)) = Some owed
       /\ totalProfits (store w') = totalProfits (store w) + (finalAmount - owed)
       /\ logs w' = FlashLoanExecuted asset amount (finalAmount - owed) premium :: logs w
       /\ b = true.
Proof.
  intros H.
  apply executeOperation_Ok in H
    as (_ & _ & _ & p1 & p2 & minProfit & final & w1 & -> & Hs & _ & Hgt & Hmin & _ & -> & ->).
  exists p1, p2, minProfit, final, w1. cbn.
  repeat split; try done. apply lookup_insert_eq.
Qed.

(** The hop-2 loop leaves the storage alone. *)
Lemma try_routers_store (routers : list address) (mid minOut acc : Z)
    (path2 : list address) (w w' : world V) (x : Z) :
  try_routers E routers mid minOut path2 acc w = Ok (x, w') ->
  store w' = store w /\ logs w' = logs w.
Proof.
  intros H. apply try_routers_Ok in H
    as [(_ & -> & _)|(pre & r & post & amounts & c & _ & _ & _ & _ & ->)];
    split; reflexivity.
Qed.

(** C5, as the code has it. The comparison with the amount owed and the
    non-zero check are strict: no callback returns with
    [finalAmount <= amount + premium] or with nothing received. The
    comparisons with [minProfit] and with the 0.5% floor are not: a
    callback whose profit equals [minProfit] returns, and a swap phase
    whose hop 2 received exactly [amount + amount * 50 / 10000] returns
    that amount, while one unit less reverts with
    "Arbitrage not profitable" and nothing received reverts with
    "All swap attempts failed". *)
Theorem profitability_comparisons (asset : address) (amount premium : Z)
    (path1 path2 : list address) (minProfit : Z) (w : world V) :
  (forall sender initiator b w',
     executeOperation E sender asset amount premium initiator
       (Encoded path1 path2 minProfit) w = Ok (b, w') ->
     exists finalAmount w1,
       _executeSwaps E asset amount path1 path2 w = Ok (finalAmount, w1)
       /\ amount + premium < finalAmount
       /\ 0 < finalAmount
       /\ amount + amount * 50 / 10000 <= finalAmount
       /\ minProfit <= finalAmount - (amount + premium))
  /\ (forall finalAmount w1,
        inFlashLoan (store w) = true ->
        _executeSwaps E asset amount path1 path2 w = Ok (finalAmount, w1) ->
        0 <= amount -> 0 <= premium -> amount + premium <= MAX_UINT256 ->
        0 < minProfit ->
        finalAmount - (amount + premium) = minProfit ->
        0 <= totalProfits (store w) ->
        totalProfits (store w) + minProfit <= MAX_UINT256 ->
        exists w',
          executeOperation E (aavePool (store w)) asset amount premium (this E)
            (Encoded path1 path2 minProfit) w = Ok (true, w'))
  /\ (forall mid received w1,
        0 <= amount -> amount * 101 <= MAX_UINT256 ->
        try_routers E [router2 (store w); router1 (store w)] mid (amount * 101 / 100)
          path2 0 w = Ok (received, w1) ->
        (received <= 0 ->
         swapBack E amount mid path2 w = Revert (Error "All swap attempts failed"))
        /\ (0 < received -> received < amount + amount * 50 / 10000 ->
            swapBack E amount mid path2 w = Revert (Error "Arbitrage not profitable"))
        /\ (0 < received -> received = amount + amount * 50 / 10000 ->
            swapBack E amount mid path2 w = Ok (received, w1))
        /\ (0 < received -> amount + amount * 50 / 10000 < received ->
            swapBack E amount mid path2 w = Ok (received, w1))).
Proof.
  split; [|split].
  - intros sender initiator b w' H.
    apply executeOperation_Ok in H
      as (_ & _ & _ & p1 & p2 & mp & final & w1 & Hp & Hs & _ & Hgt & Hmin & _).
    injection Hp as <- <- <-.
    destruct (executeSwaps_Ok _ _ _ _ _ _ _ Hs) as (Hpos & Hfl & _).
    exists final, w1. repeat split; done.
  - intros final w1 Hflag Hs Hamt Hprem Howed Hmp Heq Htot0 Htot.
    destruct (executeSwaps_Ok _ _ _ _ _ _ _ Hs) as (Hpos & Hfl & _).
    eexists. apply executeOperation_run with (w1 := w1); try done; try lia.
  - intros mid received w1 Hamt Hmax Hloop.
    destruct (try_routers_store _ _ _ _ _ _ _ _ Hloop) as (Hst & _).
    rewrite (swapBack_after_loop amount mid received path2 w w1 Hamt Hmax Hst Hloop).
    unfold settled.
    assert (Hsame : with_ext w1 (ext w1) = w1) by now destruct w1.
    rewrite Hsame.
    destruct (Z.ltb_spec 0 received) as [Hpos|Hle];
      destruct (Z.leb_spec (amount + amount * 50 / 10000) received) as [Hfl|Hfl];
      repeat split; intros; try lia; reflexivity.
Qed.

(** *** The floors *)

(** C10. Whatever [minProfit] the owner passes, zero included, a
    [flashArbitrage] that returns received in hop 2 the answer to a
    request for at least [amount * 101 / 100], and that amount is at least
    [amount + amount * 50 / 10000]; with routers that honor the requested
    minimum it is at least [amount * 101 / 100] as well. A round trip
    below these floors therefore reverts even when [minProfit = 0]. *)
Theorem hard_coded_floors (sender asset : address) (amount minProfit : Z)
    (path1 path2 : list address) (w w' : world V) (u : unit) :
  flashArbitrage E sender asset amount path1 path2 minProfit w = Ok (u, w') ->
  exists c mid w1 r amounts c' received w2,
    transferToReceiver E (aavePool (store w)) asset amount (this E) (ext w) = Some c
    /\ swapOnRouter1 E asset amount path1 (lent w c) = Ok (mid, w1)
    /\ (r = router2 (store w) \/ r = router1 (store w))
    /\ hop2_request w1 mid (amount * 101 / 100) path2 r = Some (amounts, c')
    /\ last amounts = Some received
    /\ _executeSwaps E asset amount path1 path2 (lent w c) = Ok (received, w2)
    /\ amount + amount * 50 / 10000 <= received
    /\ (honors_minimum -> amount * 101 / 100 <= received).
Proof.
  intros H.
  apply flashArbitrage_Ok in H as (_ & _ & _ & premium & c & b & w2 & _ & Hc & Hcb).
  apply executeOperation_Ok in Hcb
    as (_ & _ & _ & p1 & p2 & mp & final & w3 & Hp & Hs & _).
  injection Hp as <- <- <-.
  destruct (executeSwaps_Ok _ _ _ _ _ _ _ Hs) as (_ & Hfl & Hmin & _).
  pose proof Hs as Hs'. unfold _executeSwaps in Hs'.
  ok_bind Hs' as mid w1 H1.
  destruct (swapOnRouter1_frame _ _ _ _ _ _ H1) as (Hst & _).
  apply swapBack_Ok in Hs' as (_ & _ & _ & _ & r & amounts & c' & Hr & Hreq & Hl & _).
  rewrite Hst in Hr. cbn in Hr.
  exists c, mid, w1, r, amounts, c', final, w3. repeat split; done.
Qed.

(** *** Atomicity *)

(** The two ways into the unit: the owner's call, and the callback. *)
Inductive entry : Type :=
| FlashArbitrageCall (sender asset : address) (amount : Z)
    (path1 path2 : list address) (minProfit : Z)
| ExecuteOperationCall (sender asset : address) (amount premium : Z)
    (initiator : address) (params : calldata).

Definition enter (e : entry) : M unit :=
  match e with
  | FlashArbitrageCall sender asset amount path1 path2 minProfit =>
      flashArbitrage E sender asset amount path1 path2 minProfit
  | ExecuteOperationCall sender asset amount premium initiator params =>
      bind (executeOperation E sender asset amount premium initiator params)
           (fun _ => ret tt)
  end.

(** The checks that can fail once the principal has been handed over, and
    the guards of a callback that no loan of this contract stands behind. *)
Inductive assertion_fails (w : world V) : entry -> Prop :=
| swap_phase_reverts sender asset amount path1 path2 minProfit c f :
    transferToReceiver E (aavePool (store w)) asset amount (this E) (ext w) = Some c ->
    _executeSwaps E asset amount path1 path2 (lent w c) = Revert f ->
    assertion_fails w (FlashArbitrageCall sender asset amount path1 path2 minProfit)
| hop2_returns_zero sender asset amount path1 path2 minProfit c mid w1 w2 :
    transferToReceiver E (aavePool (store w)) asset amount (this E) (ext w) = Some c ->
    swapOnRouter1 E asset amount path1 (lent w c) = Ok (mid, w1) ->
    try_routers E [router2 (store w); router1 (store w)] mid (amount * 101 / 100)
      path2 0 w1 = Ok (0, w2) ->
    assertion_fails w (FlashArbitrageCall sender asset amount path1 path2 minProfit)
| output_not_above_owed sender asset amount path1 path2 minProfit c premium final w1 :
    transferToReceiver E (aavePool (store w)) asset amount (this E) (ext w) = Some c ->
    premiumOf E (aavePool (store w)) asset amount = Some premium ->
    _executeSwaps E asset amount path1 path2 (lent w c) = Ok (final, w1) ->
    final <= amount + premium ->
    assertion_fails w (FlashArbitrageCall sender asset amount path1 path2 minProfit)
| profit_below_minProfit sender asset amount path1 path2 minProfit c premium final w1 :
    transferToReceiver E (aavePool (store w)) asset amount (this E) (ext w) = Some c ->
    premiumOf E (aavePool (store w)) asset amount = Some premium ->
    _executeSwaps E asset amount path1 path2 (lent w c) = Ok (final, w1) ->
    final - (amount + premium) < minProfit ->
    assertion_fails w (FlashArbitrageCall sender asset amount path1 path2 minProfit)
| caller_not_lender sender asset amount premium initiator params :
    sender <> aavePool (store w) ->
    assertion_fails w (ExecuteOperationCall sender asset amount premium initiator params)
| initiator_not_this sender asset amount premium initiator params :
    initiator <> this E ->
    assertion_fails w (ExecuteOperationCall sender asset amount premium initiator params)
| no_loan_in_progress sender asset amount premium initiator params :
    inFlashLoan (store w) = false ->
    assertion_fails w (ExecuteOperationCall sender asset amount premium initiator params).

Lemma enter_Ok_no_failure (e : entry) (w w' : world V) (u : unit) :
  enter e w = Ok (u, w') -> ~ assertion_fails w e.
Proof.
  intros H Hfail.
  destruct Hfail as
    [sender asset amount p1 p2 mp c f Hc Hrev
    |sender asset amount p1 p2 mp c mid w1 w2 Hc H1 Hloop
    |sender asset amount p1 p2 mp c premium final w1 Hc Hp Hs Hle
    |sender asset amount p1 p2 mp c premium final w1 Hc Hp Hs Hlt
    |sender asset amount premium initiator params Hne
    |sender asset amount premium initiator params Hne
    |sender asset amount premium initiator params Hflag]; cbn [enter] in H.
  - apply flashArbitrage_Ok in H as (_ & _ & _ & pr & c' & b & w3 & _ & Hc' & Hcb).
    rewrite Hc in Hc'. injection Hc' as <-.
    apply executeOperation_Ok in Hcb
      as (_ & _ & _ & q1 & q2 & mq & final & w4 & Hq & Hs & _).
    injection Hq as <- <- <-. congruence.
  - apply flashArbitrage_Ok in H as (_ & _ & _ & pr & c' & b & w3 & _ & Hc' & Hcb).
    rewrite Hc in Hc'. injection Hc' as <-.
    apply executeOperation_Ok in Hcb
      as (_ & _ & _ & q1 & q2 & mq & final & w4 & Hq & Hs & _).
    injection Hq as <- <- <-. unfold _executeSwaps in Hs.
    rewrite (bind_step _ _ _ _ _ H1) in Hs.
    destruct (swapOnRouter1_frame _ _ _ _ _ _ H1) as (Hst & _).
    apply swapBack_Ok in Hs as (_ & Hpos & _ & Hloop' & _).
    rewrite Hst in Hloop'.
    cbn [store lent router1 router2 set_inFlashLoan set_entered] in Hloop'.
    rewrite Hloop in Hloop'.
    injection Hloop' as <- _. lia.
  - apply flashArbitrage_Ok in H as (_ & _ & _ & pr & c' & b & w3 & Hp' & Hc' & Hcb).
    rewrite Hc in Hc'. injection Hc' as <-.
    rewrite Hp in Hp'. injection Hp' as <-.
    apply executeOperation_Ok in Hcb
      as (_ & _ & _ & q1 & q2 & mq & final' & w4 & Hq & Hs' & _ & Hgt & _).
    injection Hq as <- <- <-. rewrite Hs in Hs'. injection Hs' as <- _. lia.
  - apply flashArbitrage_Ok in H as (_ & _ & _ & pr & c' & b & w3 & Hp' & Hc' & Hcb).
    rewrite Hc in Hc'. injection Hc' as <-.
    rewrite Hp in Hp'. injection Hp' as <-.
    apply executeOperation_Ok in Hcb
      as (_ & _ & _ & q1 & q2 & mq & final' & w4 & Hq & Hs' & _ & _ & Hmin & _).
    injection Hq as <- <- <-. rewrite Hs in Hs'. injection Hs' as <- _. lia.
  - ok_bind H as b w1 Hcb. apply executeOperation_Ok in Hcb as (? & _). done.
  - ok_bind H as b w1 Hcb. apply executeOperation_Ok in Hcb as (_ & ? & _). done.
  - ok_bind H as b w1 Hcb. apply executeOperation_Ok in Hcb as (_ & _ & ? & _).
    congruence.
Qed.

(** C1. When a check fails after the principal was handed over (the swap
    phase reverts, hop 2 returns zero, the final amount does not exceed
    what is owed, the profit is below [minProfit]), or when a callback
    arrives that did not come from the lender, names another initiator, or
    finds no loan in progress, the transaction fails and the world after
    it is the world before it: [totalProfits], every token balance and
    every allowance included. *)
Theorem failed_attempt_changes_nothing (e : entry) (w : world V) :
  assertion_fails w e ->
  let after := (transact (enter e) w).2 in
  (exists f, transact (enter e) w = (Failed f, w))
  /\ totalProfits (store after) = totalProfits (store w)
  /\ (forall token holder,
        balance (ext after) !! (token, holder) = balance (ext w) !! (token, holder))
  /\ inFlashLoan (store after) = inFlashLoan (store w).
Proof.
  intros Hfail. cbv zeta. unfold transact.
  destruct (enter e w) as [[u w']|f] eqn:Hrun.
  - exfalso. exact (enter_Ok_no_failure e w w' u Hrun Hfail).
  - cbn. repeat split. now exists f.
Qed.

End ContractFacts.

(** ** The contract on the test deployment *)

Section Deployment.
Import FlashArbitrage Mocks.

(** Follows the specification's words for hop 2, to be compared with
    [try_routers]: the first candidate that does not fail and returns
    non-zero output is accepted; a candidate that returns zero is passed
    over and the next one is tried. *)
Fixpoint first_nonzero_candidate {V} (E : externals V) (routers : list address)
    (intermediateAmount minAmountOut : Z) (path2 : list address)
    (amountReceived : Z) : M Z :=
  match routers with
  | [] => ret amountReceived
  | r :: rest =>
      bind (add (block_timestamp E) 300) (fun deadline w =>
        match swapExactTokensForTokens E r (this E) intermediateAmount minAmountOut
                path2 (this E) deadline (ext w) with
        | Some (amounts, c) =>
            match last amounts with
            | Some x =>
                if 0 <? x then Ok (x, with_ext w c)
                else first_nonzero_candidate E rest intermediateAmount minAmountOut
                       path2 amountReceived (with_ext w c)
            | None => Revert (Panic 17)
            end
        | None =>
            first_nonzero_candidate E rest intermediateAmount minAmountOut path2
              amountReceived w
        end)
  end.

Ltac by_compute := vm_compute; first [reflexivity | discriminate | split; discriminate].

Definition pathOut : list address := [tokenA; tokenB].
Definition pathBack : list address := [tokenB; tokenA].

(** C4, the claim as worded against the code: with a router2 that returns
    zero and a router1 that would return 10302 for the same request, the
    procedure of the specification receives 10302, while the contract's
    loop stops at router2 with zero received, the swap phase reverts with
    "All swap attempts failed", and the whole call reverts. *)
Lemma zero_output_blocks_fallback :
  (exists c,
     hop2_request (zeroRouter2Externals 1000) borrowing 10150 10100 pathBack 11
     = Some ([10150; 10302], c))
  /\ (exists w,
        first_nonzero_candidate (zeroRouter2Externals 1000) [12; 11] 10150 10100
          pathBack 0 borrowing = Ok (10302, w))
  /\ (exists w,
        try_routers (zeroRouter2Externals 1000) [12; 11] 10150 10100 pathBack 0
          borrowing = Ok (0, w))
  /\ swapBack (zeroRouter2Externals 1000) 10000 10150 pathBack borrowing
     = Revert (Error "All swap attempts failed")
  /\ _executeSwaps (zeroRouter2Externals 1000) tokenA 10000 pathOut pathBack
       borrowing = Revert (Error "All swap attempts failed")
  /\ flashArbitrage (zeroRouter2Externals 1000) 1 tokenA 10000 pathOut pathBack 0
       genesis = Revert (Error "Flash loan callback failed").
Proof.
  split; [eexists; by_compute|].
  split; [eexists; by_compute|].
  split; [eexists; by_compute|].
  split; [by_compute|].
  split; by_compute.
Qed.

Lemma swapBack_takes_first_non_reverting_witness :
  swapBack (zeroRouter2Externals 1000) 10000 10150 pathBack borrowing
  = Revert (Error "All swap attempts failed").
Proof.
  apply (proj1 (proj2 (swapBack_takes_first_non_reverting
                         (zeroRouter2Externals 1000) 10000 10150 pathBack borrowing
                         ltac:(by_compute) ltac:(by_compute) ltac:(by_compute)))
           [10150; 0] (ext borrowing));
    reflexivity.
Defined.

(** C5, the claim as worded against the code: borrowing 10000 at a
    premium of 5, the mock routers return 10302, so the profit is 297; with
    [minProfit = 297] the profit merely equals its threshold and the
    callback returns true. *)
Lemma profit_equal_to_minProfit_succeeds :
  exists w1 w',
    _executeSwaps (mockExternals 1000) tokenA 10000 pathOut pathBack borrowing
    = Ok (10302, w1)
    /\ 10302 - (10000 + 5) = 297
    /\ executeOperation (mockExternals 1000) 10 tokenA 10000 5 100
         (Encoded pathOut pathBack 297) borrowing = Ok (true, w').
Proof.
  do 2 eexists. split; [by_compute|]. split; by_compute.
Qed.

(** A router that pays a fixed amount, whatever minimum it is asked
    for. *)
Definition fixedSwap {V} (out amountIn : Z) (c : chain V) : option (list Z * chain V) :=
  Some ([amountIn; out], c).

(** The deployment of the tests with that router at address 12 (the
    contract's router2) and MockUniswapRouter elsewhere. *)
Definition fixedRouter2Externals (timestamp out : Z) : externals unit :=
  {| this := 100;
     block_timestamp := timestamp;
     swapExactTokensForTokens := fun router _ amountIn amountOutMin path _ deadline c =>
       if router =? 12 then fixedSwap out amountIn c
       else mockSwap timestamp amountIn amountOutMin path deadline c;
     premiumOf := fun _ _ amount => mockPremium amount;
     callbackFailed := fun _ => Error "Flash loan callback failed";
     transferToReceiver := fun _ _ _ _ c => Some c;
     requireRepayment := fun _ _ _ _ c => Some c |}.

(** Borrowing 10000: the floor is 10050. A hop 2 that pays exactly 10050
    passes the floor check and, at a premium of 5, leaves a profit of 45,
    which passes [minProfit = 45]; one that pays 10049 is refused. *)
Lemma profitability_comparisons_witness :
  (exists w',
     executeOperation (mockExternals 1000) 10 tokenA 10000 5 100
       (Encoded pathOut pathBack 297) borrowing = Ok (true, w'))
  /\ 10050 = 10000 + 10000 * 50 / 10000
  /\ swapBack (fixedRouter2Externals 1000 10050) 10000 10150 pathBack borrowing
     = Ok (10050, borrowing)
  /\ swapBack (fixedRouter2Externals 1000 10049) 10000 10150 pathBack borrowing
     = Revert (Error "Arbitrage not profitable")
  /\ (exists w',
        executeOperation (fixedRouter2Externals 1000 10050) 10 tokenA 10000 5 100
          (Encoded pathOut pathBack 45) borrowing = Ok (true, w')).
Proof.
  split; [|split; [|split; [|split]]].
  - eapply (proj1 (proj2 (profitability_comparisons (mockExternals 1000) tokenA 10000 5
                            pathOut pathBack 297 borrowing)) 10302);
      by_compute.
  - reflexivity.
  - apply (proj1 (proj2 (proj2 (proj2 (proj2 (profitability_comparisons
             (fixedRouter2Externals 1000 10050) tokenA 10000 5 pathOut pathBack 45
             borrowing)) 10150 10050 borrowing ltac:(by_compute) ltac:(by_compute)
             ltac:(by_compute)))));
      by_compute.
  - apply (proj1 (proj2 (proj2 (proj2 (profitability_comparisons
             (fixedRouter2Externals 1000 10049) tokenA 10000 5 pathOut pathBack 45
             borrowing)) 10150 10049 borrowing ltac:(by_compute) ltac:(by_compute)
             ltac:(by_compute))));
      by_compute.
  - eapply (proj1 (proj2 (profitability_comparisons (fixedRouter2Externals 1000 10050)
                            tokenA 10000 5 pathOut pathBack 45 borrowing)) 10050);
      by_compute.
Defined.

Lemma executeOperation_settlement_witness :
  exists w',
    executeOperation (mockExternals 1000) 10 tokenA 10000 5 100
      (Encoded pathOut pathBack 100) borrowing = Ok (true, w')
    /\ exists path1 path2 minProfit finalAmount w1,
         Encoded pathOut pathBack 100 = Encoded path1 path2 minProfit
         /\ _executeSwaps (mockExternals 1000) tokenA 10000 path1 path2 borrowing
            = Ok (finalAmount, w1)
         /\ 10000 + 5 < finalAmount
         /\ minProfit <= finalAmount - (10000 + 5)
         /\ allowance (ext w') !! (tokenA, 100, 10) = Some (10000 + 5)
         /\ totalProfits (store w') = 0 + (finalAmount - (10000 + 5))
         /\ logs w' = [FlashLoanExecuted tokenA 10000 (finalAmount - (10000 + 5)) 5]
         /\ true = true.
Proof.
  eexists. split; [by_compute|].
  apply (executeOperation_settlement (mockExternals 1000) 10 tokenA 10000 5 100
           (Encoded pathOut pathBack 100) borrowing).
  by_compute.
Defined.

Lemma last_amounts_of (n : nat) (amountIn amountOut : Z) :
  (0 < n)%nat -> last (amounts_of n amountIn amountOut) = Some amountOut.
Proof.
  intros Hn. unfold amounts_of. rewrite last_lookup, !length_insert, length_replicate.
  apply list_lookup_insert_eq. rewrite length_insert, length_replicate. lia.
Qed.

(** MockUniswapRouter never returns less than it was asked for. *)
Lemma mock_honors_minimum (timestamp : Z) :
  honors_minimum (mockExternals timestamp).
Proof.
  intros router sender amountIn amountOutMin path to deadline c amounts c'.
  cbn [swapExactTokensForTokens mockExternals]. unfold mockSwap.
  destruct (deadline <? timestamp); [discriminate|].
  destruct (MAX_UINT256 <? amountIn * 1015); [discriminate|].
  destruct (Z.ltb_spec (amountIn * 1015 / 1000) amountOutMin); [discriminate|].
  destruct path as [|p path]; [discriminate|].
  intros [= <- <-]. eexists. split; [|eassumption].
  apply last_amounts_of. cbn. lia.
Qed.

Lemma hard_coded_floors_witness :
  exists c mid w1 r amounts c' received w2,
    transferToReceiver (mockExternals 1000) 10 tokenA 10000 100 (ext genesis) = Some c
    /\ swapOnRouter1 (mockExternals 1000) tokenA 10000 pathOut (lent genesis c)
       = Ok (mid, w1)
    /\ (r = 12 \/ r = 11)
    /\ hop2_request (mockExternals 1000) w1 mid (10000 * 101 / 100) pathBack r
       = Some (amounts, c')
    /\ last amounts = Some received
    /\ _executeSwaps (mockExternals 1000) tokenA 10000 pathOut pathBack (lent genesis c)
       = Ok (received, w2)
    /\ 10000 + 10000 * 50 / 10000 <= received
    /\ (honors_minimum (mockExternals 1000) -> 10000 * 101 / 100 <= received).
Proof.
  eapply (hard_coded_floors (mockExternals 1000) 1 tokenA 10000 0 pathOut pathBack
            genesis).
  by_compute.
Defined.

(** The owner's call that asks for one unit more than the mock routers
    yield. *)
Definition greedyCall : entry :=
  FlashArbitrageCall 1 tokenA 10000 pathOut pathBack 298.

Lemma failed_attempt_changes_nothing_witness :
  assertion_fails (mockExternals 1000) genesis greedyCall
  /\ (exists f,
        transact (enter (mockExternals 1000) greedyCall) genesis = (Failed f, genesis))
  /\ totalProfits (store (transact (enter (mockExternals 1000) greedyCall) genesis).2)
     = totalProfits (store genesis)
  /\ (forall token holder,
        balance (ext (transact (enter (mockExternals 1000) greedyCall) genesis).2)
          !! (token, holder)
        = balance (ext genesis) !! (token, holder))
  /\ inFlashLoan (store (transact (enter (mockExternals 1000) greedyCall) genesis).2)
     = inFlashLoan (store genesis).
Proof.
  assert (Hfail : assertion_fails (mockExternals 1000) genesis greedyCall).
  { eapply (profit_below_minProfit (mockExternals 1000) genesis 1 tokenA 10000
              pathOut pathBack 298 (ext genesis) 5 10302);
      by_compute. }
  split; [exact Hfail|].
  exact (failed_attempt_changes_nothing (mockExternals 1000) greedyCall genesis Hfail).
Defined.

End Deployment.

(** * Beyond the specification's properties *)

(** ** The quote and the scan: bounds and isolation *)

Section QuoteBounds.
Import Js UniswapScanner.

(** The quote on a pool that holds something of the input token. *)
Lemma calculateAmountOut_value (amountIn reserveIn reserveOut : Z) :
  0 <= amountIn -> 0 < reserveIn -> 0 <= reserveOut ->
  calculateAmountOut amountIn reserveIn reserveOut
  = Return (amountIn * 997 * reserveOut / (reserveIn * 1000 + amountIn * 997)).
Proof.
  intros Ha Hin Hout. unfold calculateAmountOut.
  apply bigint_div_floor; nia.
Qed.

(** X1. On a pool with a positive input reserve the quote is never
    negative, is zero for a zero input, and stays strictly below the
    output reserve: no quote promises everything the pool holds. *)
Theorem calculateAmountOut_below_reserve (amountIn reserveIn reserveOut : Z) :
  0 <= amountIn -> 0 < reserveIn -> 0 <= reserveOut ->
  exists out,
    calculateAmountOut amountIn reserveIn reserveOut = Return out
    /\ 0 <= out
    /\ (amountIn = 0 -> out = 0)
    /\ (0 < reserveOut -> out < reserveOut)
    /\ (reserveOut = 0 -> out = 0).
Proof.
  intros Ha Hin Hout. eexists. split; [now apply calculateAmountOut_value|].
  set (den := reserveIn * 1000 + amountIn * 997).
  assert (Hden : 0 < den) by (subst den; lia).
  repeat split.
  - apply Z.div_pos; nia.
  - intros ->. reflexivity.
  - intros Hpos. apply Z.div_lt_upper_bound; [exact Hden|]. subst den. nia.
  - intros ->. rewrite Z.mul_0_r. reflexivity.
Qed.

Lemma calculateAmountOut_below_reserve_witness :
  exists out,
    calculateAmountOut 10 1000 500 = Return out
    /\ 0 <= out
    /\ (10 = 0 -> out = 0)
    /\ (0 < 500 -> out < 500)
    /\ (500 = 0 -> out = 0).
Proof.
  apply (calculateAmountOut_below_reserve 10 1000 500); lia.
Defined.

(** X2. Putting more in never quotes less out. *)
Theorem calculateAmountOut_monotone (amountIn amountIn' reserveIn reserveOut : Z) :
  0 <= amountIn <= amountIn' -> 0 < reserveIn -> 0 <= reserveOut ->
  exists out out',
    calculateAmountOut amountIn reserveIn reserveOut = Return out
    /\ calculateAmountOut amountIn' reserveIn reserveOut = Return out'
    /\ out <= out'.
Proof.
  intros [Ha Hle] Hin Hout.
  exists (amountIn * 997 * reserveOut / (reserveIn * 1000 + amountIn * 997)),
         (amountIn' * 997 * reserveOut / (reserveIn * 1000 + amountIn' * 997)).
  split; [apply calculateAmountOut_value; lia|].
  split; [apply calculateAmountOut_value; lia|].
  set (out := amountIn * 997 * reserveOut / (reserveIn * 1000 + amountIn * 997)).
  assert (H0 : 0 <= out) by (subst out; apply Z.div_pos; nia).
  assert (Hfloor : out * (reserveIn * 1000 + amountIn * 997) <= amountIn * 997 * reserveOut).
  { subst out. rewrite Z.mul_comm. apply Z.mul_div_le. lia. }
  assert (Hb : out <= reserveOut).
  { subst out. apply Z.div_le_upper_bound; nia. }
  apply Z.div_le_lower_bound; [lia|]. nia.
Qed.

Lemma calculateAmountOut_monotone_witness :
  exists out out',
    calculateAmountOut 10 1000 500 = Return out
    /\ calculateAmountOut 20 1000 500 = Return out'
    /\ out <= out'.
Proof.
  apply (calculateAmountOut_monotone 10 20 1000 500); lia.
Defined.

(** Out through a pool and back through a pool with the same reserves
    returns no more than went in. *)
Lemma round_trip_loses (a x y out1 out2 : Z) :
  0 <= a -> 0 <= x -> 0 <= y ->
  calculateAmountOut a x y = Return out1 ->
  calculateAmountOut out1 y x = Return out2 ->
  out2 <= a.
Proof.
  intros Ha Hx Hy H1 H2. unfold calculateAmountOut, bigint_div in *.
  destruct (Z.eqb_spec (x * 1000 + a * 997) 0) as [|Hd1]; [discriminate|].
  injection H1 as H1.
  destruct (Z.eqb_spec (y * 1000 + out1 * 997) 0) as [|Hd2]; [discriminate|].
  injection H2 as H2.
  rewrite Z.quot_div_nonneg in H1 by nia.
  assert (H1pos : 0 <= out1) by (subst out1; apply Z.div_pos; nia).
  rewrite Z.quot_div_nonneg in H2 by nia.
  assert (F1 : out1 * (x * 1000 + a * 997) <= a * 997 * y).
  { subst out1. rewrite Z.mul_comm. apply Z.mul_div_le. lia. }
  assert (F2 : out2 * (y * 1000 + out1 * 997) <= out1 * 997 * x).
  { subst out2. rewrite Z.mul_comm. apply Z.mul_div_le. lia. }
  assert (H2pos : 0 <= out2) by (subst out2; apply Z.div_pos; nia).
  destruct (Z.le_gt_cases out2 a) as [|Hgt]; [assumption|]. exfalso.
  clear H1 H2. nia.
Qed.

End QuoteBounds.

Section ScanIsolation.
Import Js UniswapScanner.

Variable getReserves : string -> result reserves.
Variable now : Z.

(** X3. Two venues that report the same reserves for a pair of distinct
    tokens offer no arbitrage: whatever the amount and whichever token
    goes in, [findArbitrage] answers unprofitable with zero profit. *)
Theorem findArbitrage_same_reserves (p1 p2 tokenIn : string) (amount : Z) (r : reserves) :
  getReserves p1 = Return r -> getReserves p2 = Return r ->
  toLowerCase (token0 r) <> toLowerCase (token1 r) ->
  0 <= amount -> 0 <= reserve0 r -> 0 <= reserve1 r ->
  profitable (findArbitrage getReserves now p1 p2 tokenIn amount) = false
  /\ profit (findArbitrage getReserves now p1 p2 tokenIn amount) = 0.
Proof.
  intros H1 H2 Hne Ha H0 Hr1. unfold findArbitrage. rewrite H1, H2. cbn [Js.bind].
  destruct (String.eqb_spec (toLowerCase (token0 r)) (toLowerCase tokenIn)) as [Hin|Hin].
  - destruct (String.eqb_spec (toLowerCase (token0 r)) (toLowerCase (token1 r)));
      [contradiction|].
    destruct (calculateAmountOut amount (reserve0 r) (reserve1 r)) as [out1|] eqn:Q1;
      cbn [Js.bind]; [|done].
    destruct (calculateAmountOut out1 (reserve1 r) (reserve0 r)) as [out2|] eqn:Q2;
      cbn [Js.bind]; [|done].
    pose proof (round_trip_loses _ _ _ _ _ Ha H0 Hr1 Q1 Q2).
    cbn. destruct (Z.ltb_spec amount out2); [lia | done].
  - rewrite String.eqb_refl.
    destruct (calculateAmountOut amount (reserve1 r) (reserve0 r)) as [out1|] eqn:Q1;
      cbn [Js.bind]; [|done].
    destruct (calculateAmountOut out1 (reserve0 r) (reserve1 r)) as [out2|] eqn:Q2;
      cbn [Js.bind]; [|done].
    pose proof (round_trip_loses _ _ _ _ _ Ha Hr1 H0 Q1 Q2).
    cbn. destruct (Z.ltb_spec amount out2); [lia | done].
Qed.

(** A pair whose reserves can be read. *)
Definition readable (k : string * pair_info) : bool :=
  match getReserves (pair k.2) with
  | Return _ => true
  | Throw _ => false
  end.

Lemma findArbitrage_unreadable (p1 p2 tokenIn : string) (amount : Z) :
  (exists e, getReserves p1 = Throw e) \/ (exists e, getReserves p2 = Throw e) ->
  profitable (findArbitrage getReserves now p1 p2 tokenIn amount) = false.
Proof.
  unfold findArbitrage. intros [[e H]|[e H]].
  - now rewrite H.
  - destruct (getReserves p1); cbn [Js.bind]; [|done]. now rewrite H.
Qed.

Lemma compare_pairs_unreadable (tokenIn : string) (amount : Z)
    (ki kj : string * pair_info) :
  readable ki = false \/ readable kj = false ->
  compare_pairs getReserves now tokenIn amount ki kj = [].
Proof.
  intros H. unfold compare_pairs.
  destruct (_ && _); [|done].
  rewrite findArbitrage_unreadable; [done|].
  unfold readable in H.
  destruct H as [H|H]; [left|right];
    destruct (getReserves _) as [|e]; try discriminate; now exists e.
Qed.

Lemma flat_map_compare_readable (tokenIn : string) (amount : Z)
    (ki : string * pair_info) (rest : list (string * pair_info)) :
  flat_map (compare_pairs getReserves now tokenIn amount ki) rest
  = flat_map (compare_pairs getReserves now tokenIn amount ki) (filter readable rest).
Proof.
  induction rest as [|kj rest IH]; [done|].
  rewrite filter_cons. destruct (decide (readable kj)) as [Hr|Hr]; cbn [flat_map].
  - now rewrite IH.
  - rewrite compare_pairs_unreadable, IH; [done|].
    right. destruct (readable kj); [now destruct Hr | reflexivity].
Qed.

Lemma scan_from_readable (tokenIn : string) (amount : Z)
    (keys : list (string * pair_info)) :
  scan_from getReserves now tokenIn amount keys
  = scan_from getReserves now tokenIn amount (filter readable keys).
Proof.
  induction keys as [|ki rest IH]; [done|].
  cbn [scan_from]. rewrite filter_cons.
  destruct (decide (readable ki)) as [Hr|Hr]; cbn [scan_from].
  - now rewrite <- flat_map_compare_readable, IH.
  - rewrite <- IH. replace (flat_map _ rest) with (@nil opportunity); [done|].
    symmetry. clear IH. induction rest as [|kj rest IH']; [done|].
    cbn [flat_map]. rewrite compare_pairs_unreadable, IH'; [done|].
    left. destruct (readable ki); [now destruct Hr | reflexivity].
Qed.

(** X4. A venue whose read fails does not abort the scan and does not
    disturb the rest: [scanAll] over all pairs returns exactly what it
    returns over the pairs whose reserves can be read. *)
Theorem scanAll_skips_unreadable (pairs : list (string * pair_info))
    (tokenIn : string) (amount : Z) :
  scanAll getReserves now pairs tokenIn amount
  = scanAll getReserves now (filter readable pairs) tokenIn amount.
Proof.
  unfold scanAll. now rewrite scan_from_readable.
Qed.

End ScanIsolation.

Section ScanIsolationWitness.
Import Js UniswapScanner.

(** Every venue reports the same pool. *)
Definition onePool : reserves :=
  {| reserve0 := 1000000; reserve1 := 2000000;
     token0 := "0xAa"; token1 := "0xBb"; timestamp := 0 |}.

Lemma findArbitrage_same_reserves_witness :
  profitable (findArbitrage (fun _ => Return onePool) 0 "0xP1" "0xP2" "0xaa" 1000) = false
  /\ profit (findArbitrage (fun _ => Return onePool) 0 "0xP1" "0xP2" "0xaa" 1000) = 0.
Proof.
  apply (findArbitrage_same_reserves (fun _ => Return onePool) 0 "0xP1" "0xP2" "0xaa"
           1000 onePool);
    first [reflexivity | discriminate | vm_compute; discriminate].
Defined.

End ScanIsolationWitness.

(** ** lib/uniswap-scanner.js: gas filter and the pair registry *)

Module ScannerRegistry.
Import Js UniswapScanner.

(** What [provider.getFeeData()] resolves to: each field a BigInt or
    [null]. *)
Record feeData : Type := {
  maxFeePerGas : option Z;
  gasPrice : option Z
}.

(** [a || b] on values that are a BigInt or [null]: [null] and [0n] are
    falsy. *)
Definition bigint_or (a b : option Z) : option Z :=
  match a with
  | Some z => if z =? 0 then b else Some z
  | None => b
  end.

(** [estimateGasCost(gasLimit = 300000n)] *)
Definition estimateGasCost (getFeeData : result feeData) (gasLimit : Z) : result Z :=
  let* fees := getFeeData in
  let price := bigint_or (maxFeePerGas fees) (gasPrice fees) in
  match price with
  | None => Return 0
  | Some p => if p =? 0 then Return 0 else Return (p * gasLimit)
  end.

(** [filterProfitable(opportunities, minNetProfitEth)], with the parsed
    minimum in wei. *)
Definition filterProfitable (getFeeData : result feeData)
    (opportunities : list opportunity) (minNetProfit : Z) : result (list opportunity) :=
  let* gasCost := estimateGasCost getFeeData 300000 in
  Return (filter (fun opp => minNetProfit < profit (found opp) - gasCost) opportunities).

(** A thrown value: one of the built-in errors, or [new Error(message)]. *)
Inductive thrown : Type :=
| Native (e : error)
| Error (message : string).

(** A call that returns or throws any of these. *)
Inductive completion (A : Type) : Type :=
| Normal (a : A)
| Abrupt (t : thrown).
Arguments Normal {A} a.
Arguments Abrupt {A} t.

Definition ZeroAddress : string := "0x0000000000000000000000000000000000000000".

(** [obj[key]] on an object kept as its properties in key order. *)
Fixpoint get_key {A} (key : string) (obj : list (string * A)) : option A :=
  match obj with
  | [] => None
  | (k, v) :: rest => if String.eqb k key then Some v else get_key key rest
  end.

(** [obj[key] = v]: an existing property keeps its place, a new one goes
    last. *)
Fixpoint set_key {A} (key : string) (v : A) (obj : list (string * A)) : list (string * A) :=
  match obj with
  | [] => [(key, v)]
  | (k, x) :: rest =>
      if String.eqb k key then (k, v) :: rest else (k, x) :: set_key key v rest
  end.

(** The objects the registry can hold: the per-network objects of
    [KNOWN_PAIRS], which live as long as the module, the [{}] a
    constructor makes, and the built-in objects a name can lead to
    through the prototype chain; [objects] keeps for each the entries
    the module gave it. [known] maps the network names [KNOWN_PAIRS]
    lists to the address of their object. *)
Record heap : Type := {
  objects : gmap nat (list (string * pair_info));
  known : list (string * nat);
  next : nat
}.

(** The fields of a scanner that the registry methods read.
    [this.factories] is a plain object with the entries [factories], or,
    when [builtin_factories] is set, the built-in object of that
    reference (and then it has no entries of its own making). *)
Record scanner : Type := {
  network : string;
  pairs : nat;                            (* a reference into the heap *)
  factories : list (string * string);
  builtin_factories : option nat
}.

(** The own entries of [DEX_FACTORIES[network]]: only mainnet is listed. *)
Definition DEX_FACTORIES (network : string) : list (string * string) :=
  if String.eqb network "mainnet" then
    [ ("uniswap"%string, "0x5C69bEe701ef814a2B6a3EDD4B1652CB9cc5aA6f"%string);
      ("sushiswap"%string, "0xC0AEe478e3658e2610c5F7A4A2E1777cE9e4f2Ac"%string);
      ("shibaswap"%string, "0x115934131916C8b277DD010Ee02de363c09d037c"%string) ]
  else [].

(** [this.pairs], read through the reference: the entries the object was
    given, in key order. *)
Definition pairs_of (s : scanner) (h : heap) : list (string * pair_info) :=
  default [] (objects h !! pairs s).

(** A value read from an object, as far as the scanner tells values
    apart: a falsy one ([undefined], [null]), a string, or anything else
    that is truthy (an object, a function). *)
Inductive value : Type :=
| Falsy
| Text (s : string)
| Truthy.

Section Chain.

(** What every plain object inherits from [Object.prototype], by name, as
    the reference of the object found there: [constructor] is the
    function [Object], [toString] and the like are functions, and
    [__proto__] on a plain object is [Object.prototype] itself.
    ECMAScript puts nothing but these there. *)
Variable inherited : string -> option nat.

(** What a built-in function answers when read at a name: its [name] and
    [length], what it inherits in turn, or the TypeError of a poisoned
    accessor ([caller], [arguments]). *)
Variable builtin_get : nat -> string -> result value.

(** [factory.getPair(tokenA, tokenB)] on the factory at the given address. *)
Variable getPair : string -> string -> string -> result string.

(** [DEX_FACTORIES[network] || {}] beyond the listed entries: a network
    whose name every object inherits yields the inherited object, any
    other a new [{}]. *)
Definition builtin_of (net : string) : option nat :=
  if String.eqb net "mainnet" then None else inherited net.

(** [new UniswapScanner(provider, network)]: [this.pairs] is the object
    [KNOWN_PAIRS[network]] itself when that is truthy, be it a listed
    entry or an object inherited under that name, and a new empty object
    otherwise. *)
Definition new (net : string) (h : heap) : scanner * heap :=
  match get_key net (known h) with
  | Some ref =>
      ({| network := net; pairs := ref; factories := DEX_FACTORIES net;
          builtin_factories := builtin_of net |}, h)
  | None =>
      match inherited net with
      | Some ref =>
          ({| network := net; pairs := ref; factories := DEX_FACTORIES net;
              builtin_factories := builtin_of net |}, h)
      | None =>
          ({| network := net; pairs := next h; factories := DEX_FACTORIES net;
              builtin_factories := builtin_of net |},
           {| objects := <[next h := []]> (objects h);
              known := known h;
              next := S (next h) |})
      end
  end.

(** The entries an object of the heap was given under a name. *)
Definition added (ref : nat) (name : string) (h : heap) : option pair_info :=
  get_key name (default [] (objects h !! ref)).

(** A read of a built-in object: an entry it was given is an object;
    [Object.prototype] itself holds its members, and its own prototype
    is [null]; a function answers as the engine has it. *)
Definition read_builtin (ref : nat) (name : string) (h : heap) : result value :=
  match added ref name h with
  | Some _ => Return Truthy
  | None =>
      if decide (inherited "__proto__" = Some ref) then
        if String.eqb name "__proto__" then Return Falsy
        else match inherited name with
             | Some _ => Return Truthy
             | None => Return Falsy
             end
      else builtin_get ref name
  end.

(** A read of a plain object at a name that is not its own: what
    [Object.prototype] holds under it. *)
Definition read_inherited (name : string) (h : heap) : value :=
  match inherited name with
  | Some _ => Truthy
  | None =>
      match inherited "__proto__" with
      | Some proto => match added proto name h with
                      | Some _ => Truthy
                      | None => Falsy
                      end
      | None => Falsy
      end
  end.

(** [this.factories[dexName]] *)
Definition read_factory (s : scanner) (dexName : string) (h : heap) : result value :=
  match get_key dexName (factories s) with
  | Some factoryAddress => Return (Text factoryAddress)
  | None =>
      match builtin_factories s with
      | Some ref => read_builtin ref dexName h
      | None => Return (read_inherited dexName h)
      end
  end.

(** [findPairAddress(tokenA, tokenB, dexName)]: [None] is [null]. A
    factory that is neither a string nor falsy is refused by
    [new ethers.Contract] with a TypeError. *)
Definition findPairAddress (s : scanner) (tokenA tokenB dexName : string) (h : heap)
    : completion (option string) :=
  match read_factory s dexName h with
  | Throw e => Abrupt (Native e)
  | Return Falsy => Abrupt (Error ("Factory address not found for DEX: " +:+ dexName))
  | Return Truthy => Abrupt (Native TypeError)
  | Return (Text factoryAddress) =>
      if String.eqb factoryAddress EmptyString then
        Abrupt (Error ("Factory address not found for DEX: " +:+ dexName))
      else
        match getPair factoryAddress tokenA tokenB with
        | Throw e => Abrupt (Native e)
        | Return pairAddress =>
            if String.eqb pairAddress ZeroAddress then Normal None
            else Normal (Some pairAddress)
        end
  end.

(** [addPair(tokenA, tokenB, dexName, label)]; an address that is the
    empty string is falsy like [null]. *)
Definition addPair (s : scanner) (tokenA tokenB dexName label : string) (h : heap)
    : completion bool * heap :=
  match findPairAddress s tokenA tokenB dexName h with
  | Abrupt t => (Abrupt t, h)
  | Normal None => (Normal false, h)
  | Normal (Some pairAddress) =>
      if String.eqb pairAddress EmptyString then (Normal false, h)
      else
        let key := label +:+ "-" +:+ dexName in
        let entry := {| pair := pairAddress; dex := dexName;
                        p_token0 := tokenA; p_token1 := tokenB |} in
        (Normal true,
         {| objects := <[pairs s := set_key key entry (pairs_of s h)]> (objects h);
            known := known h;
            next := next h |})
  end.

End Chain.

End ScannerRegistry.

Section RegistryFacts.
Import Js UniswapScanner ScannerRegistry.

Lemma StronglySorted_filter {A} (R : relation A) (P : A -> Prop)
    `{!forall x, Decision (P x)} (l : list A) :
  StronglySorted R l -> StronglySorted R (filter P l).
Proof.
  induction 1 as [|x l Hs IH Hall]; [constructor|].
  rewrite filter_cons. destruct (decide (P x)); [|exact IH].
  constructor; [exact IH|].
  apply Forall_forall. intros y Hy. apply list_elem_of_filter in Hy as [_ Hy].
  rewrite Forall_forall in Hall. now apply Hall.
Qed.

(** X5. When the fee data can be read, [filterProfitable] keeps exactly
    the opportunities whose profit exceeds the gas cost (price times
    300000, or zero when the provider reports no price) by more than the
    minimum, in their original order, so a list ranked by profit stays
    ranked; when the fee data cannot be read it throws. *)
Theorem filterProfitable_keeps_net_profitable (getFeeData : result feeData)
    (opportunities : list opportunity) (minNetProfit : Z) :
  match getFeeData with
  | Throw e => filterProfitable getFeeData opportunities minNetProfit = Throw e
  | Return fees =>
      exists gasCost kept,
        estimateGasCost getFeeData 300000 = Return gasCost
        /\ (bigint_or (maxFeePerGas fees) (gasPrice fees) = None -> gasCost = 0)
        /\ (forall p, bigint_or (maxFeePerGas fees) (gasPrice fees) = Some p ->
                      gasCost = p * 300000)
        /\ filterProfitable getFeeData opportunities minNetProfit = Return kept
        /\ kept `sublist_of` opportunities
        /\ (forall o, o ∈ kept <->
                      o ∈ opportunities /\ minNetProfit < profit (found o) - gasCost)
        /\ (StronglySorted (fun a b => profit (found b) <= profit (found a)) opportunities ->
            StronglySorted (fun a b => profit (found b) <= profit (found a)) kept)
  end.
Proof.
  destruct getFeeData as [fees|e]; [|reflexivity].
  unfold filterProfitable, estimateGasCost. cbn [Js.bind].
  destruct (bigint_or (maxFeePerGas fees) (gasPrice fees)) as [p|] eqn:Hp.
  - destruct (Z.eqb_spec p 0) as [->|Hnz]; cbn [Js.bind];
      eexists _, _; (split; [reflexivity|]); (split; [discriminate|]);
      (split; [intros q [= <-]; lia|]); (split; [reflexivity|]);
      (split; [apply sublist_filter|]);
      (split; [intros o; rewrite list_elem_of_filter; tauto|]);
      apply StronglySorted_filter.
  - cbn [Js.bind]. eexists _, _. split; [reflexivity|]. split; [done|].
    split; [discriminate|]. split; [reflexivity|].
    split; [apply sublist_filter|].
    split; [intros o; rewrite list_elem_of_filter; tauto|].
    apply StronglySorted_filter.
Qed.

Lemma get_set_key_eq {A} (key : string) (v : A) (obj : list (string * A)) :
  get_key key (set_key key v obj) = Some v.
Proof.
  induction obj as [|[k x] rest IH]; cbn.
  - now rewrite String.eqb_refl.
  - destruct (String.eqb_spec k key) as [->|Hne]; cbn.
    + now rewrite String.eqb_refl.
    + destruct (String.eqb_spec k key); [contradiction | exact IH].
Qed.

Lemma get_set_key_ne {A} (key k' : string) (v : A) (obj : list (string * A)) :
  k' <> key -> get_key k' (set_key key v obj) = get_key k' obj.
Proof.
  intros Hne. induction obj as [|[k x] rest IH]; cbn.
  - destruct (String.eqb_spec key k'); [congruence | reflexivity].
  - destruct (String.eqb_spec k key) as [->|Hk]; cbn.
    + destruct (String.eqb_spec key k'); [congruence | reflexivity].
    + destruct (String.eqb_spec k k'); [reflexivity | exact IH].
Qed.

Lemma set_key_keys {A} (key : string) (v : A) (obj : list (string * A)) :
  map fst (set_key key v obj)
  = match get_key key obj with
    | Some _ => map fst obj
    | None => map fst obj ++ [key]
    end.
Proof.
  induction obj as [|[k x] rest IH]; cbn; [reflexivity|].
  destruct (String.eqb_spec k key) as [->|Hk]; cbn; [reflexivity|].
  rewrite IH. now destruct (get_key key rest).
Qed.

Variable inherited : string -> option nat.
Variable builtin_get : nat -> string -> result value.
Variable getPair : string -> string -> string -> result string.

(** X6. When the DEX has a factory and the factory knows the pair,
    [addPair] returns true and records the pair under [label-dexName]:
    reading that key gives the new entry, every other key reads as before,
    a key that existed keeps its place in the key order and a new key goes
    last, and no other object of the heap changes. *)
Theorem addPair_registers (s : scanner) (tokenA tokenB dexName label factory address : string)
    (h : heap) :
  get_key dexName (factories s) = Some factory -> factory <> EmptyString ->
  getPair factory tokenA tokenB = Return address ->
  address <> ZeroAddress -> address <> EmptyString ->
  let key := label +:+ "-" +:+ dexName in
  let h' := (addPair inherited builtin_get getPair s tokenA tokenB dexName label h).2 in
  (addPair inherited builtin_get getPair s tokenA tokenB dexName label h).1 = Normal true
  /\ get_key key (pairs_of s h')
     = Some {| pair := address; dex := dexName; p_token0 := tokenA; p_token1 := tokenB |}
  /\ (forall k, k <> key -> get_key k (pairs_of s h') = get_key k (pairs_of s h))
  /\ map fst (pairs_of s h')
     = match get_key key (pairs_of s h) with
       | Some _ => map fst (pairs_of s h)
       | None => map fst (pairs_of s h) ++ [key]
       end
  /\ (forall ref, ref <> pairs s -> objects h' !! ref = objects h !! ref).
Proof.
  intros Hf Hfne Hp Hz He key h'. subst h'.
  unfold addPair, findPairAddress, read_factory. rewrite Hf.
  destruct (String.eqb_spec factory EmptyString); [contradiction|].
  rewrite Hp.
  destruct (String.eqb_spec address ZeroAddress); [contradiction|].
  destruct (String.eqb_spec address EmptyString); [contradiction|].
  cbn [fst snd]. unfold pairs_of. cbn [objects].
  rewrite lookup_insert_eq. cbn [default].
  split; [reflexivity|]. split; [apply get_set_key_eq|].
  split; [intros k Hk; now apply get_set_key_ne|].
  split; [apply set_key_keys|].
  intros ref Hne. now rewrite lookup_insert_ne.
Qed.

(** X7. [addPair] changes the registry only when it returns true, and in
    every other case the heap is what it was. What [this.factories]
    holds under the DEX name decides the rest: nothing, or an empty
    string, throws the Error 'Factory address not found'; an object or a
    function throws a TypeError from the contract binding; a read that
    throws, throws the same. On a plain
    factories object a name that is neither its own nor found on
    [Object.prototype] is the first case, and a name every object
    inherits ([constructor], [toString], [__proto__]) the second. With a
    factory address, a failing factory call throws what it threw and the
    zero address returns false. *)
Theorem addPair_changes_only_on_true (s : scanner) (tokenA tokenB dexName label : string)
    (h : heap) :
  let r := addPair inherited builtin_get getPair s tokenA tokenB dexName label h in
  (r.1 <> Normal true -> r.2 = h)
  /\ (read_factory inherited builtin_get s dexName h = Return Falsy ->
      r.1 = Abrupt (Error ("Factory address not found for DEX: " +:+ dexName)))
  /\ (read_factory inherited builtin_get s dexName h = Return Truthy ->
      r.1 = Abrupt (Native TypeError))
  /\ (forall e, read_factory inherited builtin_get s dexName h = Throw e ->
                r.1 = Abrupt (Native e))
  /\ (get_key dexName (factories s) = None -> builtin_factories s = None ->
      (inherited dexName = None ->
       (forall proto, inherited "__proto__" = Some proto -> added proto dexName h = None) ->
       r.1 = Abrupt (Error ("Factory address not found for DEX: " +:+ dexName)))
      /\ (forall ref, inherited dexName = Some ref -> r.1 = Abrupt (Native TypeError)))
  /\ (get_key dexName (factories s) = Some EmptyString ->
      r.1 = Abrupt (Error ("Factory address not found for DEX: " +:+ dexName)))
  /\ (forall factory e,
        get_key dexName (factories s) = Some factory -> factory <> EmptyString ->
        getPair factory tokenA tokenB = Throw e -> r.1 = Abrupt (Native e))
  /\ (forall factory,
        get_key dexName (factories s) = Some factory -> factory <> EmptyString ->
        getPair factory tokenA tokenB = Return ZeroAddress -> r.1 = Normal false).
Proof.
  cbv zeta. unfold addPair, findPairAddress.
  split; [|split; [|split; [|split; [|split; [|split; [|split]]]]]].
  - destruct (read_factory inherited builtin_get s dexName h) as [[|f|]|e0];
      [done| |done|done].
    destruct (String.eqb f EmptyString); [done|].
    destruct (getPair f tokenA tokenB) as [a|e]; [|done].
    destruct (String.eqb a ZeroAddress); [done|].
    destruct (String.eqb a EmptyString); [done|].
    cbn. congruence.
  - now intros ->.
  - now intros ->.
  - now intros e ->.
  - intros Hown Hplain. unfold read_factory, read_inherited.
    rewrite Hown, Hplain. split.
    + intros -> Hproto. destruct (inherited "__proto__") as [proto|]; [|done].
      now rewrite (Hproto proto eq_refl).
    + now intros ref ->.
  - unfold read_factory. now intros ->.
  - unfold read_factory. intros f e -> Hne ->.
    now destruct (String.eqb_spec f EmptyString).
  - unfold read_factory. intros f -> Hne ->.
    now destruct (String.eqb_spec f EmptyString).
Qed.

End RegistryFacts.

Section RegistryAliasing.
Import Js UniswapScanner ScannerRegistry.

Variable inherited : string -> option nat.
Variable builtin_get : nat -> string -> result value.
Variable getPair : string -> string -> string -> result string.

(** X8. [this.pairs] is the object [KNOWN_PAIRS[network]] itself, not a
    copy. Two scanners made for a network that [KNOWN_PAIRS] lists hold
    the same reference, so whatever [addPair] does through the first is
    what the second reads. The same holds for a network name that
    [KNOWN_PAIRS] does not list but every object inherits
    ([constructor], [toString], [__proto__]): both scanners hold the one
    inherited object, as their pairs and as their factories; for
    [__proto__] that object is [Object.prototype], and no [addPair]
    through such a scanner returns true or changes the heap. For any
    other network each scanner gets an empty object of its own, no
    built-in one, and an [addPair] through the first leaves the second's
    pairs as they were. *)
Theorem scanners_of_known_network_share_pairs (net : string) (h : heap)
    (tokenA tokenB dexName label : string) :
  let s1 := (new inherited net h).1 in
  let h1 := (new inherited net h).2 in
  let s2 := (new inherited net h1).1 in
  let h2 := (new inherited net h1).2 in
  let h3 := (addPair inherited builtin_get getPair s1 tokenA tokenB dexName label h2).2 in
  (forall ref, get_key net (known h) = Some ref ->
     pairs s1 = ref /\ pairs s2 = ref /\ h2 = h
     /\ pairs_of s2 h3 = pairs_of s1 h3)
  /\ (forall ref, get_key net (known h) = None -> inherited net = Some ref ->
      pairs s1 = ref /\ pairs s2 = ref /\ h2 = h
      /\ pairs_of s2 h3 = pairs_of s1 h3
      /\ (net <> "mainnet"%string ->
          factories s1 = [] /\ builtin_factories s1 = Some ref
          /\ builtin_factories s2 = Some ref)
      /\ (net = "__proto__"%string ->
          forall a b d l h',
            (addPair inherited builtin_get getPair s1 a b d l h').1 <> Normal true
            /\ (addPair inherited builtin_get getPair s1 a b d l h').2 = h'))
  /\ (get_key net (known h) = None -> inherited net = None ->
      (forall ref, is_Some (objects h !! ref) -> ref < next h)%nat ->
      pairs s1 <> pairs s2
      /\ objects h !! pairs s1 = None /\ objects h !! pairs s2 = None
      /\ pairs_of s1 h2 = [] /\ pairs_of s2 h2 = []
      /\ pairs_of s2 h3 = []
      /\ ((forall name ref, inherited name = Some ref -> ref < next h)%nat ->
          forall name, inherited name <> Some (pairs s1)
                       /\ inherited name <> Some (pairs s2))).
Proof.
  cbv zeta. split; [|split].
  - intros ref Href. unfold new at 1 2 3 4 5 6 7 8. rewrite Href. cbn [fst snd].
    unfold new. rewrite Href. cbn [fst snd pairs]. auto.
  - intros ref Hnone Href.
    assert (Hnew : new inherited net h
                   = ({| network := net; pairs := ref; factories := DEX_FACTORIES net;
                         builtin_factories := builtin_of inherited net |}, h)).
    { unfold new. now rewrite Hnone, Href. }
    rewrite !Hnew. cbn [fst snd]. rewrite !Hnew. cbn [fst snd pairs].
    split; [reflexivity|]. split; [reflexivity|]. split; [reflexivity|].
    split; [reflexivity|]. split.
    + intros Hne. cbn [factories builtin_factories].
      unfold DEX_FACTORIES, builtin_of.
      destruct (String.eqb_spec net "mainnet"); [contradiction|]. auto.
    + intros -> a b d l h'.
      unfold addPair, findPairAddress, read_factory, read_builtin.
      cbn [factories builtin_factories]. unfold builtin_of. cbn [String.eqb Ascii.eqb Bool.eqb].
      cbn [DEX_FACTORIES get_key]. rewrite Href.
      destruct (added ref d h'); [split; [discriminate|reflexivity]|].
      destruct (decide (Some ref = Some ref)) as [_|Hc]; [|contradiction].
      destruct (String.eqb d "__proto__"); [split; [discriminate|reflexivity]|].
      destruct (inherited d); split; try discriminate; reflexivity.
  - intros Hnone Hplain Hfresh.
    assert (Hn : objects h !! next h = None).
    { destruct (objects h !! next h) eqn:E; [|reflexivity].
      specialize (Hfresh (next h) (ex_intro _ _ E)). lia. }
    assert (HSn : objects h !! S (next h) = None).
    { destruct (objects h !! S (next h)) eqn:E; [|reflexivity].
      specialize (Hfresh (S (next h)) (ex_intro _ _ E)). lia. }
    unfold new. rewrite Hnone, Hplain. cbn [fst snd known]. rewrite Hnone.
    cbn [fst snd pairs objects next].
    split; [lia|]. split; [exact Hn|]. split; [exact HSn|].
    unfold pairs_of. cbn [pairs objects].
    rewrite lookup_insert_eq.
    rewrite lookup_insert_ne by lia. rewrite lookup_insert_eq.
    split; [reflexivity|]. split; [reflexivity|]. split.
    + unfold addPair.
      destruct (findPairAddress _ _ _ _ _ _ _ _) as [[a|]|t]; cbn [snd objects pairs].
      * destruct (String.eqb a EmptyString); cbn [snd objects].
        -- now rewrite lookup_insert_eq.
        -- rewrite lookup_insert_ne by lia. now rewrite lookup_insert_eq.
      * now rewrite lookup_insert_eq.
      * now rewrite lookup_insert_eq.
    + intros Hbelow name. split; intros Hin; apply Hbelow in Hin; lia.
Qed.

End RegistryAliasing.

Section RegistryWitness.
Import Js UniswapScanner ScannerRegistry.

Definition oneFactory (factory tokenA tokenB : string) : result string :=
  if String.eqb factory "0x5C69bEe701ef814a2B6a3EDD4B1652CB9cc5aA6f"
  then Return "0xA478c2975Ab1Ea89e8196811F51A7B7Ade33eB11"%string
  else Return ZeroAddress.

(** The members of [Object.prototype], the first being [Object]. *)
Definition prototypeMembers : list (string * nat) :=
  [ ("constructor"%string, 1%nat); ("__defineGetter__"%string, 2%nat);
    ("__defineSetter__"%string, 3%nat); ("hasOwnProperty"%string, 4%nat);
    ("__lookupGetter__"%string, 5%nat); ("__lookupSetter__"%string, 6%nat);
    ("isPrototypeOf"%string, 7%nat); ("propertyIsEnumerable"%string, 8%nat);
    ("toString"%string, 9%nat); ("valueOf"%string, 10%nat);
    ("__proto__"%string, 11%nat); ("toLocaleString"%string, 12%nat) ].

Definition plainInherited (name : string) : option nat :=
  get_key name prototypeMembers.

(** The static methods of [Object]. *)
Definition objectStatics : list string :=
  [ "assign"; "create"; "defineProperties"; "defineProperty"; "entries"; "freeze";
    "fromEntries"; "getOwnPropertyDescriptor"; "getOwnPropertyDescriptors";
    "getOwnPropertyNames"; "getOwnPropertySymbols"; "getPrototypeOf"; "groupBy";
    "hasOwn"; "is"; "isExtensible"; "isFrozen"; "isSealed"; "keys";
    "preventExtensions"; "seal"; "setPrototypeOf"; "values"; "prototype" ]%string.

(** The declared parameter counts of the members that are functions. *)
Definition memberLength (ref : nat) : Z :=
  match ref with
  | 2%nat | 3%nat => 2
  | 9%nat | 10%nat | 12%nat => 0
  | _ => 1
  end.

(** A built-in function read at a name: the poisoned accessors throw,
    [name] is its name and [length] a number, [Object] has its static
    methods, and every function has those of [Function.prototype] and
    of [Object.prototype]. *)
Definition functionGet (ref : nat) (name : string) : result value :=
  if String.eqb name "caller" || String.eqb name "arguments" then Throw TypeError
  else if String.eqb name "name" then
    Return (Text (default "Object"%string
                    (head (map fst (List.filter (fun m => Nat.eqb m.2 ref)
                                      (tail prototypeMembers))))))
  else if String.eqb name "length" then
    Return (if memberLength ref =? 0 then Falsy else Truthy)
  else if existsb (String.eqb name) ["apply"; "bind"; "call"]%string then Return Truthy
  else if Nat.eqb ref 1 && existsb (String.eqb name) objectStatics then Return Truthy
  else match plainInherited name with
       | Some _ => Return Truthy
       | None => Return Falsy
       end.

Definition mainnetHeap : heap :=
  {| objects := <[ 13%nat := [] ]>
                {[ 0%nat := [("WETH-USDC-uni"%string,
                               {| pair := "0xB4e16d0168e52d35CaCD2c6185b44281Ec28C9Dc";
                                  dex := "uniswap"; p_token0 := "USDC"; p_token1 := "WETH" |})] ]};
     known := [("mainnet"%string, 0%nat); ("sepolia"%string, 13%nat)];
     next := 14%nat |}.

Lemma addPair_registers_witness :
  let s := (new plainInherited "mainnet" mainnetHeap).1 in
  let h' := (addPair plainInherited functionGet oneFactory s
               "DAI" "WETH" "uniswap" "WETH-DAI" mainnetHeap).2 in
  (addPair plainInherited functionGet oneFactory s
     "DAI" "WETH" "uniswap" "WETH-DAI" mainnetHeap).1 = Normal true
  /\ get_key "WETH-DAI-uniswap" (pairs_of s h')
     = Some {| pair := "0xA478c2975Ab1Ea89e8196811F51A7B7Ade33eB11"; dex := "uniswap";
               p_token0 := "DAI"; p_token1 := "WETH" |}
  /\ map fst (pairs_of s h') = ["WETH-USDC-uni"; "WETH-DAI-uniswap"]%string.
Proof.
  cbv zeta.
  destruct (addPair_registers plainInherited functionGet oneFactory
              (new plainInherited "mainnet" mainnetHeap).1
              "DAI" "WETH" "uniswap" "WETH-DAI"
              "0x5C69bEe701ef814a2B6a3EDD4B1652CB9cc5aA6f"
              "0xA478c2975Ab1Ea89e8196811F51A7B7Ade33eB11" mainnetHeap)
    as (Hr & Hget & _ & Hkeys & _);
    [reflexivity | discriminate | reflexivity | discriminate | discriminate |].
  split; [exact Hr|]. split; [exact Hget|]. exact Hkeys.
Defined.

(** On the mainnet scanner, a DEX called [constructor] is not refused
    for want of a factory: what is read is the function [Object]. *)
Example inherited_dex_name_is_a_type_error :
  addPair plainInherited functionGet oneFactory
    (new plainInherited "mainnet" mainnetHeap).1
    "DAI" "WETH" "constructor" "WETH-DAI" mainnetHeap
  = (Abrupt (Native TypeError), mainnetHeap)
  /\ addPair plainInherited functionGet oneFactory
       (new plainInherited "mainnet" mainnetHeap).1
       "DAI" "WETH" "pancake" "WETH-DAI" mainnetHeap
     = (Abrupt (Error "Factory address not found for DEX: pancake"), mainnetHeap).
Proof. split; reflexivity. Qed.

(** A scanner for a network called [constructor] allocates nothing: its
    pairs and its factories are the function [Object]. *)
Example inherited_network_is_no_new_object :
  new plainInherited "constructor" mainnetHeap
  = ({| network := "constructor"; pairs := 1%nat; factories := [];
        builtin_factories := Some 1%nat |}, mainnetHeap)
  /\ (new plainInherited "goerli" mainnetHeap).1
     = {| network := "goerli"; pairs := 14%nat; factories := [];
          builtin_factories := None |}.
Proof. split; reflexivity. Qed.

End RegistryWitness.

(** * The price-impact helpers of the slippage calculator *)

Module PriceImpact.
Import Js.

(** [setSlippage(percentage)] *)
Definition setSlippage (percentage : Z) (self : SlippageCalculator.t) : SlippageCalculator.t :=
  {| SlippageCalculator.slippageBasisPoints := percentage * 100 |}.

(** [calculateSafeFlashLoanAmount(reserve0, reserve1, maxPriceImpactPercent)]
    for a whole percentage (a fractional one makes [BigInt] throw);
    [reserve1] is converted and never read. *)
Definition calculateSafeFlashLoanAmount (reserve0 reserve1 : amount)
    (maxPriceImpactPercent : Z) : result Z :=
  let* reserve0BN := BigInt reserve0 in
  let* reserve1BN := BigInt reserve1 in
  let impactBasisPoints := maxPriceImpactPercent * 100 in
  bigint_div (reserve0BN * impactBasisPoints) (10000 - maxPriceImpactPercent * 100).

(** [calculatePriceImpact(amountIn, reserveIn)]: the BigInt [impact], in
    basis points; the source returns this count divided by 100 as a
    number. *)
Definition calculatePriceImpact (amountIn reserveIn : amount) : result Z :=
  let* amountInBN := BigInt amountIn in
  let* reserveInBN := BigInt reserveIn in
  bigint_div (amountInBN * 10000) (reserveInBN + amountInBN).

End PriceImpact.

Section SlippageBounds.
Import Js SlippageCalculator PriceImpact.

Lemma calculateMinAmountOut_value (self : t) (vIn v0 v1 : amount) (token0In : bool)
    (fee a r0 r1 : Z) :
  BigInt vIn = Return a -> BigInt v0 = Return r0 -> BigInt v1 = Return r1 ->
  let reserveIn := if token0In then r0 else r1 in
  let reserveOut := if token0In then r1 else r0 in
  0 <= a -> 0 <= reserveIn -> 0 <= reserveOut -> 0 <= fee <= 10000 ->
  0 < reserveIn * 10000 + a * (10000 - fee) ->
  0 <= slippageBasisPoints self <= 10000 ->
  calculateMinAmountOut self vIn v0 v1 token0In fee
  = Return (a * (10000 - fee) * reserveOut / (reserveIn * 10000 + a * (10000 - fee))
            * (10000 - slippageBasisPoints self) / 10000).
Proof.
  intros Ha H0 H1 reserveIn reserveOut Hna Hin Hout Hfee Hden Hbp.
  unfold calculateMinAmountOut. rewrite Ha, H0, H1. cbn [Js.bind].
  fold reserveIn reserveOut.
  rewrite bigint_div_floor by nia. cbn [Js.bind].
  apply bigint_div_floor; [|lia].
  apply Z.mul_nonneg_nonneg; [|lia]. apply Z.div_pos; nia.
Qed.

(** X9. On non-negative inputs with a positive input reserve, a fee and a
    tolerance between 0 and 100%, [calculateMinAmountOut] returns the
    constant-product output after the fee, cut by the tolerance and
    rounded down: it is never negative, never above that expected output,
    and the expected output is strictly below the output reserve. With an
    empty input reserve and a zero amount the division is by zero and the
    call throws a RangeError. *)
Theorem calculateMinAmountOut_below_expected (self : t) (vIn v0 v1 : amount)
    (token0In : bool) (fee a r0 r1 : Z) :
  BigInt vIn = Return a -> BigInt v0 = Return r0 -> BigInt v1 = Return r1 ->
  let reserveIn := if token0In then r0 else r1 in
  let reserveOut := if token0In then r1 else r0 in
  0 <= a -> 0 <= reserveIn -> 0 <= reserveOut -> 0 <= fee <= 10000 ->
  0 <= slippageBasisPoints self <= 10000 ->
  (0 < reserveIn ->
   exists expected minOut,
     calculateMinAmountOut self vIn v0 v1 token0In fee = Return minOut
     /\ expected = a * (10000 - fee) * reserveOut / (reserveIn * 10000 + a * (10000 - fee))
     /\ minOut = expected * (10000 - slippageBasisPoints self) / 10000
     /\ 0 <= minOut <= expected
     /\ (0 < reserveOut -> expected < reserveOut)
     /\ (slippageBasisPoints self = 0 -> minOut = expected))
  /\ (reserveIn = 0 -> a = 0 ->
      calculateMinAmountOut self vIn v0 v1 token0In fee = Throw RangeError).
Proof.
  intros Ha H0 H1 reserveIn reserveOut Hna Hin Hout Hfee Hbp. split.
  - intros Hpos.
    set (den := reserveIn * 10000 + a * (10000 - fee)).
    assert (Hden : 0 < den) by (subst den; nia).
    eexists _, _. split.
    { apply (calculateMinAmountOut_value self vIn v0 v1 token0In fee a r0 r1);
        try assumption. }
    fold reserveIn reserveOut den.
    split; [reflexivity|]. split; [reflexivity|].
    set (expected := a * (10000 - fee) * reserveOut / den).
    assert (Hexp : 0 <= expected) by (subst expected; apply Z.div_pos; nia).
    split; [split|split].
    + apply Z.div_pos; nia.
    + apply Z.div_le_upper_bound; nia.
    + intros Hro. subst expected. apply Z.div_lt_upper_bound; [lia|]. subst den. nia.
    + intros ->. rewrite Z.sub_0_r. now rewrite Z.div_mul by lia.
  - intros Hz ->. unfold calculateMinAmountOut. rewrite Ha, H0, H1. cbn [Js.bind].
    fold reserveIn. rewrite Hz. reflexivity.
Qed.

Lemma calculateMinAmountOut_below_expected_witness :
  exists expected minOut,
    calculateMinAmountOut (new 2) (StringV 10) (BigIntV 1000) (BigIntV 50000) true 30
    = Return minOut
    /\ expected = 493 /\ minOut = 483 /\ 0 <= minOut <= expected.
Proof.
  destruct (calculateMinAmountOut_below_expected (new 2) (StringV 10) (BigIntV 1000)
              (BigIntV 50000) true 30 10 1000 50000) as [H _];
    try reflexivity; try (cbn; lia).
  destruct (H ltac:(cbn; lia)) as (expected & minOut & Hret & He & Hm & Hb & _).
  exists expected, minOut. split; [exact Hret|]. split; [exact He|].
  split; [rewrite Hm, He; reflexivity | exact Hb].
Defined.

Lemma calculateMinAmountOut_Return (self : t) (vIn v0 v1 : amount) (token0In : bool)
    (fee out : Z) :
  calculateMinAmountOut self vIn v0 v1 token0In fee = Return out ->
  exists a r0 r1,
    BigInt vIn = Return a /\ BigInt v0 = Return r0 /\ BigInt v1 = Return r1
    /\ (if token0In then r0 else r1) * 10000 + a * (10000 - fee) <> 0.
Proof.
  unfold calculateMinAmountOut. intros H.
  apply bind_Return in H as (a & Ha & H).
  apply bind_Return in H as (r0 & H0 & H).
  apply bind_Return in H as (r1 & H1 & H).
  apply bind_Return in H as (e & He & _).
  exists a, r0, r1. repeat split; try assumption.
  unfold bigint_div in He.
  destruct (Z.eqb_spec ((if token0In then r0 else r1) * 10000 + a * (10000 - fee)) 0);
    [discriminate | assumption].
Qed.

(** X10. A route whose two venues hold the same reserves never passes the
    slippage gate: whatever the loan and the tolerance, the protected
    minimum of the way back is no more than the loan, so [isProfitable] is
    false. *)
Theorem getProtectedParameters_same_reserves (self : t) (opp : opportunity)
    (amount x y : Z) (p : protected) :
  BigInt (or_else (reserve0A opp) (reserves0A opp)) = Return x ->
  BigInt (or_else (reserve1A opp) (reserves1A opp)) = Return y ->
  BigInt (or_else (reserve0B opp) (reserves0B opp)) = Return x ->
  BigInt (or_else (reserve1B opp) (reserves1B opp)) = Return y ->
  0 <= amount -> 0 <= x -> 0 <= y ->
  0 <= slippageBasisPoints self <= 10000 ->
  getProtectedParameters self opp amount = Return p ->
  0 <= minAmountOut1 p /\ 0 <= minAmountOut2 p <= amount /\ isProfitable p = false.
Proof.
  intros HxA HyA HxB HyB Hamt Hx Hy Hbp Hret.
  unfold getProtectedParameters in Hret.
  apply bind_Return in Hret as (s & Hs & Hret).
  rewrite isProfitableWithSlippage_spec in Hret by exact Hamt.
  cbn [Js.bind] in Hret. injection Hret as <-. cbn [minAmountOut1 minAmountOut2 isProfitable].
  unfold calculateArbitrageSlippage in Hs.
  apply bind_Return in Hs as (m1 & H1 & Hs).
  apply bind_Return in Hs as (m2 & H2 & Hs).
  injection Hs as <-. cbn [s_minAmountOut1 s_minAmountOut2].
  pose proof (calculateMinAmountOut_Return _ _ _ _ _ _ _ H1)
    as (a1 & r0 & r1 & Ea & E0 & E1 & Hd1).
  cbn in Ea. injection Ea as <-. rewrite HxA in E0. rewrite HyA in E1.
  injection E0 as <-. injection E1 as <-. cbn in Hd1.
  rewrite (calculateMinAmountOut_value self _ _ _ true 30 amount x y) in H1;
    try assumption; try reflexivity; try lia.
  injection H1 as H1.
  set (e1 := amount * (10000 - 30) * y / (x * 10000 + amount * (10000 - 30))) in H1.
  assert (He1 : 0 <= e1) by (subst e1; apply Z.div_pos; nia).
  assert (F1 : e1 * (x * 10000 + amount * (10000 - 30)) <= amount * (10000 - 30) * y).
  { subst e1. rewrite Z.mul_comm. apply Z.mul_div_le. lia. }
  assert (Hm1 : 0 <= m1 <= e1).
  { subst m1. split; [apply Z.div_pos; nia | apply Z.div_le_upper_bound; nia]. }
  clearbody e1.
  pose proof (calculateMinAmountOut_Return _ _ _ _ _ _ _ H2)
    as (a2 & r0 & r1 & Ea & E0 & E1 & Hd2).
  cbn in Ea. injection Ea as <-. rewrite HxB in E0. rewrite HyB in E1.
  injection E0 as <-. injection E1 as <-. cbn in Hd2.
  rewrite (calculateMinAmountOut_value self _ _ _ false 30 m1 x y) in H2;
    try assumption; try reflexivity; try lia.
  injection H2 as H2.
  set (e2 := m1 * (10000 - 30) * x / (y * 10000 + m1 * (10000 - 30))) in H2.
  assert (He2 : 0 <= e2) by (subst e2; apply Z.div_pos; nia).
  assert (F2 : e2 * (y * 10000 + m1 * (10000 - 30)) <= m1 * (10000 - 30) * x).
  { subst e2. rewrite Z.mul_comm. apply Z.mul_div_le. lia. }
  assert (Hm2 : 0 <= m2 <= e2).
  { subst m2. split; [apply Z.div_pos; nia | apply Z.div_le_upper_bound; nia]. }
  clearbody e2.
  assert (He2a : e2 <= amount).
  { destruct (Z.le_gt_cases e2 amount) as [|Hgt]; [assumption|]. exfalso.
    clear H1 H2. nia. }
  split; [lia|]. split; [lia|].
  apply Z.ltb_ge. pose proof (Z.div_pos (amount * 5) 10000). lia.
Qed.

Definition levelRoute : opportunity :=
  {| reserve0A := BigIntV 1000; reserves0A := Undefined;
     reserve1A := BigIntV 50000; reserves1A := Undefined;
     reserve0B := BigIntV 0; reserves0B := StringV 1000;
     reserve1B := BigIntV 50000; reserves1B := Undefined;
     profit := BigIntV 7 |}.

Lemma getProtectedParameters_same_reserves_witness :
  exists p,
    getProtectedParameters (new 2) levelRoute 10 = Return p
    /\ 0 <= minAmountOut1 p /\ 0 <= minAmountOut2 p <= 10 /\ isProfitable p = false.
Proof.
  eexists. split; [reflexivity|].
  apply (getProtectedParameters_same_reserves (new 2) levelRoute 10 1000 50000);
    try reflexivity; cbn; lia.
Defined.

(** X11. An opportunity that carries a first-venue reserve under neither
    spelling ([reserve0A] nor [reserves0A], and likewise for 1A) makes
    [getProtectedParameters] throw a TypeError, whatever else it holds; a
    reserve of [0n] under the first spelling counts as missing. *)
Theorem getProtectedParameters_missing_reserve (self : t) (opp : opportunity) (amount : Z) :
  (truthy (reserve0A opp) = false /\ reserves0A opp = Undefined)
  \/ (truthy (reserve1A opp) = false /\ reserves1A opp = Undefined
      /\ or_else (reserve0A opp) (reserves0A opp) <> Undefined) ->
  getProtectedParameters self opp amount = Throw TypeError.
Proof.
  unfold getProtectedParameters, calculateArbitrageSlippage, calculateMinAmountOut.
  cbn [BigInt Js.bind].
  intros [[Ht Hu] | (Ht & Hu & H0)].
  - unfold or_else at 1. rewrite Ht, Hu. reflexivity.
  - destruct (or_else (reserve0A opp) (reserves0A opp)) as [|z|z] eqn:E0;
      [contradiction| |];
      cbn [BigInt Js.bind]; unfold or_else at 1; rewrite Ht, Hu; reflexivity.
Qed.

Definition halfRoute : opportunity :=
  {| reserve0A := BigIntV 0; reserves0A := Undefined;
     reserve1A := BigIntV 50000; reserves1A := Undefined;
     reserve0B := BigIntV 2000; reserves0B := Undefined;
     reserve1B := BigIntV 50000; reserves1B := Undefined;
     profit := BigIntV 0 |}.

Lemma getProtectedParameters_missing_reserve_witness :
  getProtectedParameters (new 2) halfRoute 10 = Throw TypeError.
Proof.
  apply getProtectedParameters_missing_reserve. left. split; reflexivity.
Defined.

(** X12. The loan [calculateSafeFlashLoanAmount] proposes for a whole
    percentage below 100 stays within that percentage: fed back to
    [calculatePriceImpact] on a funded pool it gives at most
    [maxPriceImpactPercent * 100] basis points. At 100 percent the
    divisor is zero and the call throws a RangeError, as does
    [calculatePriceImpact] on an empty pool with a zero amount. *)
Theorem calculateSafeFlashLoanAmount_within_impact (v0 v1 : amount) (r0 r1 percent : Z) :
  BigInt v0 = Return r0 -> BigInt v1 = Return r1 -> 0 <= r0 ->
  (0 <= percent < 100 ->
   exists safe,
     calculateSafeFlashLoanAmount v0 v1 percent = Return safe
     /\ safe = r0 * (percent * 100) / (10000 - percent * 100)
     /\ 0 <= safe
     /\ (0 < r0 ->
         exists impact,
           calculatePriceImpact (StringV safe) v0 = Return impact
           /\ 0 <= impact <= percent * 100)
     /\ (r0 = 0 -> calculatePriceImpact (StringV safe) v0 = Throw RangeError))
  /\ (percent = 100 -> calculateSafeFlashLoanAmount v0 v1 percent = Throw RangeError).
Proof.
  intros H0 H1 Hr. split.
  - intros Hp. unfold calculateSafeFlashLoanAmount. rewrite H0, H1. cbn [Js.bind].
    rewrite bigint_div_floor by nia.
    eexists. split; [reflexivity|]. split; [reflexivity|].
    set (b := percent * 100).
    assert (Hb : 0 <= b < 10000) by (subst b; lia).
    set (safe := r0 * b / (10000 - b)).
    assert (Hs : 0 <= safe) by (subst safe; apply Z.div_pos; nia).
    assert (F : safe * (10000 - b) <= r0 * b).
    { subst safe. rewrite Z.mul_comm. apply Z.mul_div_le. lia. }
    split; [exact Hs|]. split.
    + intros Hpos. unfold calculatePriceImpact. cbn [BigInt Js.bind]. rewrite H0.
      cbn [Js.bind]. rewrite bigint_div_floor by nia.
      eexists. split; [reflexivity|]. split.
      * apply Z.div_pos; nia.
      * apply Z.div_le_upper_bound; nia.
    + intros ->. subst safe. rewrite Z.mul_0_l, Z.div_0_l by lia.
      unfold calculatePriceImpact. cbn [BigInt Js.bind]. rewrite H0. reflexivity.
  - intros ->. unfold calculateSafeFlashLoanAmount. rewrite H0, H1. reflexivity.
Qed.

Lemma calculateSafeFlashLoanAmount_within_impact_witness :
  exists safe,
    calculateSafeFlashLoanAmount (StringV 1000000) (StringV 5) 1 = Return safe
    /\ safe = 10101
    /\ exists impact,
         calculatePriceImpact (StringV safe) (StringV 1000000) = Return impact
         /\ 0 <= impact <= 100.
Proof.
  destruct (calculateSafeFlashLoanAmount_within_impact (StringV 1000000) (StringV 5)
              1000000 5 1) as [H _]; try reflexivity; try lia.
  destruct (H ltac:(lia)) as (safe & Hret & Hv & _ & Himp & _).
  exists safe. split; [exact Hret|]. split; [exact Hv|].
  apply Himp. lia.
Defined.

End SlippageBounds.

(** * The circuit breaker over a whole run *)

Module BreakerRun.
Import CircuitBreaker.

(** The three methods the bot calls on its breaker, with the time of the
    call where the method reads the clock. *)
Inductive request : Type :=
| Success (profit : Z)
| Failure (now : Z)
| Ask (now : Z).

Definition step (b : t) (r : request) : t :=
  match r with
  | Success profit => recordSuccess profit b
  | Failure now => (recordFailure now b).2
  | Ask now => (shouldAllowRequest now b).2
  end.

Definition after (rs : list request) (b : t) : t := foldl step b rs.

(** The profits handed to [recordSuccess] during a run. *)
Definition profits (rs : list request) : Z :=
  foldr (fun r acc => match r with Success p => p + acc | _ => acc end) 0 rs.

End BreakerRun.

Section BreakerInvariant.
Import CircuitBreaker BreakerRun.

Definition threshold_kept (b : t) : Prop :=
  (state b = OPEN <-> maxFailures b <= failures b)
  /\ (state b = OPEN -> is_Some (lastFailureTime b))
  /\ 0 < maxFailures b.

Lemma step_threshold_kept (b : t) (r : request) :
  threshold_kept b ->
  threshold_kept (step b r)
  /\ maxFailures (step b r) = maxFailures b
  /\ resetTimeout (step b r) = resetTimeout b
  /\ totalProfit (step b r)
     = totalProfit b + match r with Success p => p | _ => 0 end.
Proof.
  intros (Hiff & Hlast & Hpos). destruct r as [p|now|now]; cbn [step].
  - unfold threshold_kept, recordSuccess; cbn.
    repeat split; intros; try lia; try done.
  - unfold threshold_kept, recordFailure; cbn [snd state failures maxFailures
      lastFailureTime resetTimeout totalProfit].
    destruct (Z.leb_spec (maxFailures b) (failures b + 1)) as [Hle|Hlt];
      repeat split; intros; try lia; try done; eauto.
    assert (maxFailures b <= failures b) by (apply Hiff; assumption). lia.
  - unfold shouldAllowRequest.
    destruct (state b) eqn:Hst;
      [| destruct (Z.ltb_spec (resetTimeout b) (since_last_failure now b)) |];
      cbn [snd]; unfold threshold_kept; cbn [state failures maxFailures
        lastFailureTime resetTimeout totalProfit]; rewrite ?Hst;
      repeat split; intros; try lia; try done; try tauto.
Qed.

Lemma after_threshold_kept (rs : list request) (b : t) :
  threshold_kept b ->
  threshold_kept (after rs b)
  /\ maxFailures (after rs b) = maxFailures b
  /\ resetTimeout (after rs b) = resetTimeout b
  /\ totalProfit (after rs b) = totalProfit b + profits rs.
Proof.
  revert b. induction rs as [|r rs IH]; intros b Hb.
  - cbn. repeat split; try apply Hb; lia.
  - destruct (step_threshold_kept b r Hb) as (Hk & Hm & Hr & Ht).
    destruct (IH (step b r) Hk) as (Hk' & Hm' & Hr' & Ht').
    unfold after in *. cbn [foldl foldr profits].
    repeat split; try apply Hk'; try congruence.
    rewrite Ht', Ht. unfold profits. cbn [foldr]. destruct r; lia.
Qed.

(** X13. Over any run of [recordSuccess], [recordFailure] and
    [shouldAllowRequest] calls on a new breaker whose [maxFailures] option
    is not negative: the breaker is OPEN exactly when the failures counted
    since the last success or trial have reached [maxFailures]; it refuses
    a request exactly when it is OPEN and no more than [resetTimeout] has
    passed since the last failure; the two settings never change; and
    [totalProfit] is the sum of the profits recorded. *)
Theorem breaker_open_iff_threshold_reached
    (o_maxFailures o_resetTimeout o_minProfit : option Z) (rs : list request) :
  (forall n, o_maxFailures = Some n -> 0 <= n) ->
  let b0 := new o_maxFailures o_resetTimeout o_minProfit in
  let b := after rs b0 in
  (state b = OPEN <-> maxFailures b <= failures b)
  /\ (forall now,
        (shouldAllowRequest now b).1 = false
        <-> state b = OPEN /\ since_last_failure now b <= resetTimeout b)
  /\ (state b = OPEN -> exists last, lastFailureTime b = Some last)
  /\ maxFailures b = maxFailures b0
  /\ resetTimeout b = resetTimeout b0
  /\ totalProfit b = profits rs.
Proof.
  intros Hopt b0 b.
  assert (H0 : threshold_kept b0).
  { unfold threshold_kept, b0, new; cbn.
    assert (0 < number_or o_maxFailures 5).
    { unfold number_or. destruct o_maxFailures as [n|]; [|lia].
      specialize (Hopt n eq_refl). destruct (Z.eqb_spec n 0); lia. }
    repeat split; try lia; try done. }
  destruct (after_threshold_kept rs b0 H0) as ((Hiff & Hlast & _) & Hm & Hr & Ht).
  fold b in Hiff, Hlast, Hm, Hr, Ht.
  split; [exact Hiff|]. split; [|split; [|split; [|split]]]; try assumption.
  - intros now. unfold shouldAllowRequest.
    destruct (state b) eqn:Hst; cbn [fst]; try (split; [discriminate | intros [? _]; discriminate]).
    destruct (Z.ltb_spec (resetTimeout b) (since_last_failure now b)); cbn [fst].
    + split; [discriminate | lia].
    + split; [split; [reflexivity | lia] | reflexivity].
Qed.

Lemma breaker_open_iff_threshold_reached_witness :
  let b := after [Failure 1; Failure 2; Success 7; Failure 3; Failure 4; Failure 5]
             (new (Some 3) None None) in
  state b = OPEN /\ failures b = 3 /\ totalProfit b = 7
  /\ (shouldAllowRequest 60005 b).1 = false.
Proof.
  cbv zeta.
  destruct (breaker_open_iff_threshold_reached (Some 3) None None
              [Failure 1; Failure 2; Success 7; Failure 3; Failure 4; Failure 5])
    as (Hiff & Hask & _ & _ & _ & Ht); [intros n [= <-]; lia|].
  split; [apply Hiff; vm_compute; discriminate|].
  split; [reflexivity|]. split; [exact Ht|].
  apply Hask. split; [reflexivity | vm_compute; discriminate].
Defined.

End BreakerInvariant.

(** * The performance monitor *)

Module PerformanceMonitor.

(** [this.metrics]; the counters are numbers (exact below 2^53), the two
    totals BigInts, times in milliseconds. *)
Record t : Type := {
  opportunities : Z;
  executed : Z;
  successful : Z;
  failed : Z;
  totalProfit : Z;
  totalGasSpent : Z;
  startTime : Z
}.

(** [new PerformanceMonitor()] at time [now]. *)
Definition new (now : Z) : t :=
  {| opportunities := 0; executed := 0; successful := 0; failed := 0;
     totalProfit := 0; totalGasSpent := 0; startTime := now |}.

(** [recordOpportunity()] *)
Definition recordOpportunity (m : t) : t :=
  {| opportunities := opportunities m + 1; executed := executed m;
     successful := successful m; failed := failed m;
     totalProfit := totalProfit m; totalGasSpent := totalGasSpent m;
     startTime := startTime m |}.

(** [recordExecution(success, profit = 0n, gasSpent = 0n)] *)
Definition recordExecution (success : bool) (profit gasSpent : Z) (m : t) : t :=
  let m1 :=
    {| opportunities := opportunities m; executed := executed m + 1;
       successful := successful m; failed := failed m;
       totalProfit := totalProfit m; totalGasSpent := totalGasSpent m;
       startTime := startTime m |} in
  let m2 :=
    if success then
      {| opportunities := opportunities m1; executed := executed m1;
         successful := successful m1 + 1; failed := failed m1;
         totalProfit := totalProfit m1 + profit; totalGasSpent := totalGasSpent m1;
         startTime := startTime m1 |}
    else
      {| opportunities := opportunities m1; executed := executed m1;
         successful := successful m1; failed := failed m1 + 1;
         totalProfit := totalProfit m1; totalGasSpent := totalGasSpent m1;
         startTime := startTime m1 |} in
  {| opportunities := opportunities m2; executed := executed m2;
     successful := successful m2; failed := failed m2;
     totalProfit := totalProfit m2; totalGasSpent := totalGasSpent m2 + gasSpent;
     startTime := startTime m2 |}.

(** The calls made on a monitor. *)
Inductive record : Type :=
| Opportunity
| Execution (success : bool) (profit gasSpent : Z).

Definition apply (m : t) (r : record) : t :=
  match r with
  | Opportunity => recordOpportunity m
  | Execution success profit gasSpent => recordExecution success profit gasSpent m
  end.

Definition after (rs : list record) (m : t) : t := foldl apply m rs.

(** What [getStats] reports as [netProfit], before formatting. *)
Definition netProfit (m : t) : Z := totalProfit m - totalGasSpent m.

End PerformanceMonitor.

Section MonitorFacts.
Import PerformanceMonitor.

Definition is_opportunity (r : record) : bool :=
  match r with Opportunity => true | _ => false end.

Definition is_success (r : record) : bool :=
  match r with Execution true _ _ => true | _ => false end.

Definition is_failure (r : record) : bool :=
  match r with Execution false _ _ => true | _ => false end.

Definition count (p : record -> bool) (rs : list record) : Z :=
  Z.of_nat (length (List.filter p rs)).

Definition sum_with (f : record -> Z) (rs : list record) : Z :=
  foldr (fun r acc => f r + acc) 0 rs.

Definition profit_of (r : record) : Z :=
  match r with Execution true p _ => p | _ => 0 end.

Definition gas_of (r : record) : Z :=
  match r with Execution _ _ g => g | _ => 0 end.

Lemma after_counts (rs : list record) (m : t) :
  let m' := after rs m in
  opportunities m' - opportunities m = count is_opportunity rs
  /\ successful m' - successful m = count is_success rs
  /\ failed m' - failed m = count is_failure rs
  /\ executed m' - executed m = count is_success rs + count is_failure rs
  /\ totalProfit m' - totalProfit m = sum_with profit_of rs
  /\ totalGasSpent m' - totalGasSpent m = sum_with gas_of rs
  /\ startTime m' = startTime m.
Proof.
  revert m. induction rs as [|r rs IH]; intros m; cbv zeta.
  - unfold after, count, sum_with. cbn. repeat split; lia.
  - specialize (IH (apply m r)). cbv zeta in IH.
    destruct IH as (Ho & Hs & Hf & He & Hp & Hg & Ht).
    unfold after, count, sum_with in *. cbn [foldl foldr List.filter].
    destruct r as [|[|] p g];
      cbn [apply recordOpportunity recordExecution is_opportunity is_success
           is_failure length profit_of gas_of opportunities executed successful
           failed totalProfit totalGasSpent startTime] in *;
      repeat split; lia.
Qed.

(** X14. Over any sequence of [recordOpportunity] and [recordExecution]
    calls on a new monitor, every execution is counted once as successful
    or once as failed, so [executed = successful + failed]; the profit of
    a failed execution is not added; gas is added for both; and the start
    time stays. *)
Theorem monitor_counts_add_up (now : Z) (rs : list record) :
  let m := after rs (new now) in
  executed m = successful m + failed m
  /\ successful m = count is_success rs
  /\ failed m = count is_failure rs
  /\ opportunities m = count is_opportunity rs
  /\ totalProfit m = sum_with profit_of rs
  /\ totalGasSpent m = sum_with gas_of rs
  /\ netProfit m = sum_with profit_of rs - sum_with gas_of rs
  /\ startTime m = now.
Proof.
  cbv zeta. pose proof (after_counts rs (new now)) as H. cbv zeta in H.
  destruct H as (Ho & Hs & Hf & He & Hp & Hg & Ht).
  unfold netProfit. cbn [new opportunities executed successful failed totalProfit
                         totalGasSpent startTime] in *.
  repeat split; lia.
Qed.

End MonitorFacts.

(** * The redundant provider *)

Module RedundantProvider.
Import ScannerRegistry.

(** The fields that decide which provider is used: how many there are,
    the index in use, and the set of indices marked failed. The call
    statistics ([stats]) record what happened and decide nothing; they
    are left out. *)
Record t : Type := {
  providers : nat;                 (* this.providers.length *)
  currentIndex : nat;
  failedProviders : gset nat
}.

(** [new RedundantProvider(rpcUrls)] for [rpcUrls.length = n]. *)
Definition new (n : nat) : completion t :=
  match n with
  | O => Abrupt (Error "At least one RPC URL required")
  | S _ => Normal {| providers := n; currentIndex := 0; failedProviders := ∅ |}
  end.

(** The [for] loop of [getProvider] from iteration [i], with [fuel]
    iterations left. *)
Fixpoint next_healthy (p : t) (i fuel : nat) : option nat :=
  match fuel with
  | O => None
  | S fuel' =>
      let nextIndex := ((currentIndex p + i + 1) mod providers p)%nat in
      if decide (nextIndex ∈ failedProviders p) then next_healthy p (S i) fuel'
      else Some nextIndex
  end.

(** [getProvider()]: the index of the provider returned, and the object
    afterwards. *)
Definition getProvider (p : t) : nat * t :=
  if decide (currentIndex p ∈ failedProviders p) then
    match next_healthy p 0 (providers p) with
    | Some nextIndex =>
        (nextIndex,
         {| providers := providers p; currentIndex := nextIndex;
            failedProviders := failedProviders p |})
    | None =>
        (0%nat,
         {| providers := providers p; currentIndex := currentIndex p;
            failedProviders := ∅ |})
    end
  else (currentIndex p, p).

Section Call.

Context {A : Type}.

(** [provider[method](...args)] on the provider of the given index at the
    given attempt: an error message when the promise rejects, the value
    when it resolves. *)
Variable respond : nat -> nat -> string + A.

(** The retry loop of [call] from attempt [attempt], with [fuel] attempts
    left; [lastError] is [None] while it is [undefined]. *)
Fixpoint attempts (attempt fuel : nat) (lastError : option string) (p : t)
    : completion A * t :=
  match fuel with
  | O =>
      (Abrupt (Error ("All RPC providers failed. Last error: "
                      +:+ default "undefined"%string lastError)), p)
  | S fuel' =>
      let '(provider, p1) := getProvider p in
      match respond attempt provider with
      | inr value => (Normal value, p1)
      | inl message =>
          attempts (S attempt) fuel' (Some message)
            {| providers := providers p1; currentIndex := currentIndex p1;
               failedProviders := {[ currentIndex p1 ]} ∪ failedProviders p1 |}
      end
  end.

(** [call(method, ...args)] *)
Definition call (p : t) : completion A * t :=
  attempts 0 (providers p) None p.

End Call.

End RedundantProvider.

Section ProviderFacts.
Import ScannerRegistry RedundantProvider.

Lemma next_healthy_Some (p : t) (i fuel j : nat) :
  next_healthy p i fuel = Some j ->
  exists k, (i <= k < i + fuel)%nat
    /\ j = ((currentIndex p + k + 1) mod providers p)%nat
    /\ (j ∉ failedProviders p)
    /\ forall k', (i <= k' < k)%nat ->
         ((currentIndex p + k' + 1) mod providers p)%nat ∈ failedProviders p.
Proof.
  revert i. induction fuel as [|fuel IH]; intros i H; [discriminate|].
  cbn [next_healthy] in H.
  destruct (decide (((currentIndex p + i + 1) mod providers p)%nat ∈ failedProviders p))
    as [Hin|Hout].
  - destruct (IH _ H) as (k & Hk & Hj & Hn & Hbefore).
    exists k. split; [lia|]. split; [assumption|]. split; [assumption|].
    intros k' Hk'. destruct (decide (k' = i)) as [->|]; [assumption|].
    apply Hbefore. lia.
  - injection H as <-. exists i. split; [lia|]. split; [reflexivity|].
    split; [assumption|]. intros k' Hk'. lia.
Qed.

Lemma next_healthy_None (p : t) (i fuel : nat) :
  next_healthy p i fuel = None ->
  forall k, (i <= k < i + fuel)%nat ->
    ((currentIndex p + k + 1) mod providers p)%nat ∈ failedProviders p.
Proof.
  revert i. induction fuel as [|fuel IH]; intros i H k Hk; [lia|].
  cbn [next_healthy] in H.
  destruct (decide (((currentIndex p + i + 1) mod providers p)%nat ∈ failedProviders p))
    as [Hin|Hout]; [|discriminate].
  destruct (decide (k = i)) as [->|]; [assumption|].
  apply (IH _ H). lia.
Qed.

Lemma cyclic_reach (n c j : nat) :
  (c < n)%nat -> (j < n)%nat ->
  exists k, (k < n)%nat /\ ((c + k + 1) mod n)%nat = j.
Proof.
  intros Hc Hj. destruct (decide (c < j)%nat) as [Hlt|Hge].
  - exists (j - c - 1)%nat. split; [lia|].
    replace (c + (j - c - 1) + 1)%nat with j by lia. apply Nat.mod_small. lia.
  - exists (j + n - c - 1)%nat. split; [lia|].
    replace (c + (j + n - c - 1) + 1)%nat with (j + 1 * n)%nat by lia.
    rewrite Nat.Div0.mod_add. apply Nat.mod_small. lia.
Qed.

(** X15. [getProvider] on an object whose index is in range: the index
    stays in range and the provider returned exists. While some provider
    is not marked failed, the one returned is not marked failed, it is
    the first such in cyclic order from the current index, it becomes the
    current index and the failed set is untouched. When every provider is
    marked failed the set is emptied and provider 0 is returned, while the
    current index stays where it was. *)
Theorem getProvider_first_healthy (p : t) :
  (currentIndex p < providers p)%nat ->
  let i := (getProvider p).1 in
  let p' := (getProvider p).2 in
  (i < providers p)%nat /\ (currentIndex p' < providers p')%nat
  /\ providers p' = providers p
  /\ ((exists j, (j < providers p)%nat /\ (j ∉ failedProviders p)) ->
      (i ∉ failedProviders p) /\ currentIndex p' = i
      /\ failedProviders p' = failedProviders p
      /\ exists d, (d < providers p)%nat
           /\ i = ((currentIndex p + d) mod providers p)%nat
           /\ forall d', (d' < d)%nat ->
                ((currentIndex p + d') mod providers p)%nat ∈ failedProviders p)
  /\ ((forall j, (j < providers p)%nat -> j ∈ failedProviders p) ->
      i = 0%nat /\ failedProviders p' = ∅ /\ currentIndex p' = currentIndex p).
Proof.
  intros Hc. cbv zeta. unfold getProvider.
  destruct (decide (currentIndex p ∈ failedProviders p)) as [Hfailed|Hok].
  - destruct (next_healthy p 0 (providers p)) as [j|] eqn:Hscan.
    + destruct (next_healthy_Some _ _ _ _ Hscan) as (k & Hk & Hj & Hn & Hbefore).
      cbn [fst snd providers currentIndex failedProviders].
      assert (Hjn : (j < providers p)%nat).
      { subst j. apply Nat.mod_upper_bound. lia. }
      split; [assumption|]. split; [assumption|]. split; [reflexivity|]. split.
      * intros _. split; [assumption|]. split; [reflexivity|]. split; [reflexivity|].
        destruct (decide (k = providers p - 1)%nat) as [->|Hne].
        { exfalso. apply Hn. subst j.
          replace (currentIndex p + (providers p - 1) + 1)%nat
            with (currentIndex p + 1 * providers p)%nat by lia.
          rewrite Nat.Div0.mod_add, Nat.mod_small by lia. exact Hfailed. }
        exists (S k). split; [lia|]. split.
        { subst j. f_equal. lia. }
        intros d' Hd'. destruct d' as [|d'].
        { rewrite Nat.add_0_r, Nat.mod_small by lia. exact Hfailed. }
        replace (currentIndex p + S d')%nat with (currentIndex p + d' + 1)%nat by lia.
        apply Hbefore. lia.
      * intros Hall. exfalso. apply Hn, Hall, Hjn.
    + pose proof (next_healthy_None _ _ _ Hscan) as Hall.
      cbn [fst snd providers currentIndex failedProviders].
      assert (Hevery : forall j, (j < providers p)%nat -> j ∈ failedProviders p).
      { intros j Hj. destruct (cyclic_reach _ _ j Hc Hj) as (k & Hk & <-).
        apply Hall. lia. }
      split; [lia|]. split; [assumption|]. split; [reflexivity|]. split.
      * intros (j & Hj & Hout). exfalso. apply Hout, Hevery, Hj.
      * intros _. split; [reflexivity|]. split; reflexivity.
  - cbn [fst snd]. split; [assumption|]. split; [assumption|]. split; [reflexivity|].
    split.
    + intros _. split; [assumption|]. split; [reflexivity|]. split; [reflexivity|].
      exists 0%nat. split; [lia|]. split.
      * now rewrite Nat.add_0_r, Nat.mod_small by lia.
      * intros d' Hd'. lia.
    + intros Hall. exfalso. apply Hok, Hall, Hc.
Qed.

Definition twoFailed : t :=
  {| providers := 3; currentIndex := 1; failedProviders := {[ 1%nat; 2%nat ]} |}.

Lemma getProvider_first_healthy_witness :
  ((getProvider twoFailed).1 ∉ failedProviders twoFailed)
  /\ currentIndex (getProvider twoFailed).2 = (getProvider twoFailed).1
  /\ (getProvider twoFailed).1 = 0%nat.
Proof.
  pose proof (getProvider_first_healthy twoFailed ltac:(cbn; lia)) as H.
  cbv zeta in H. destruct H as (_ & _ & _ & Hsome & _).
  destruct Hsome as (Hi & Hc & _).
  { exists 0%nat. split; [cbn; lia|]. cbn [failedProviders twoFailed].
    intros Hin. apply elem_of_union in Hin as [Hin|Hin];
      apply elem_of_singleton in Hin; discriminate. }
  split; [exact Hi|]. split; [exact Hc | reflexivity].
Defined.

Section Failover.

Context {A : Type}.
Variable respond : nat -> nat -> string + A.
Variable n : nat.

(** The object as [call] finds it at attempt [a] of a first call: the
    providers before [a] are marked failed, and the index in use is the
    last one tried. *)
Definition tried (a : nat) (p : t) : Prop :=
  providers p = n
  /\ currentIndex p = pred a
  /\ forall j, j ∈ failedProviders p <-> (j < a)%nat.

Lemma getProvider_tried (a : nat) (p : t) :
  tried a p -> (a < n)%nat ->
  getProvider p
  = (a, {| providers := providers p; currentIndex := a;
           failedProviders := failedProviders p |}).
Proof.
  intros (Hn & Hc & Hf) Ha. unfold getProvider.
  destruct (decide (currentIndex p ∈ failedProviders p)) as [Hin|Hout].
  - apply Hf in Hin. rewrite Hc in Hin. destruct a as [|a]; [cbn in Hin; lia|].
    cbn [pred] in Hc. rewrite Hn. destruct n as [|n'] eqn:En; [lia|].
    cbn [next_healthy]. rewrite Hc, Hn.
    replace (a + 0 + 1)%nat with (S a) by lia. rewrite Nat.mod_small by lia.
    destruct (decide (S a ∈ failedProviders p)) as [Hbad|_]; [|reflexivity].
    apply Hf in Hbad. lia.
  - destruct a as [|a].
    + cbn [pred] in Hc. rewrite Hc. destruct p; cbn in *. now subst.
    + exfalso. apply Hout, Hf. rewrite Hc. cbn. lia.
Qed.

Lemma tried_next (a : nat) (p : t) :
  tried a p ->
  tried (S a) {| providers := providers p; currentIndex := a;
                 failedProviders := {[ a ]} ∪ failedProviders p |}.
Proof.
  intros (Hn & Hc & Hf). split; [exact Hn|]. split; [reflexivity|].
  intros j. cbn [failedProviders]. rewrite elem_of_union, elem_of_singleton, Hf. lia.
Qed.

Lemma attempts_first_working (fuel a i : nat) (last : option string) (p : t) (v : A) :
  tried a p -> (a + fuel = n)%nat -> (a <= i < n)%nat ->
  respond i i = inr v ->
  (forall j, (a <= j < i)%nat -> exists m, respond j j = inl m) ->
  exists p',
    attempts respond a fuel last p = (Normal v, p')
    /\ providers p' = n /\ currentIndex p' = i
    /\ forall j, j ∈ failedProviders p' <-> (j < i)%nat.
Proof.
  revert a last p. induction fuel as [|fuel IH]; intros a last p Ht Hfuel Hi Hv Hbefore;
    [lia|].
  cbn [attempts]. rewrite (getProvider_tried a p Ht) by lia.
  destruct (decide (a = i)) as [->|Hne].
  - rewrite Hv. eexists. split; [reflexivity|].
    destruct Ht as (Hn & _ & Hf). cbn. auto.
  - destruct (Hbefore a ltac:(lia)) as [m Hm]. rewrite Hm.
    cbn [providers currentIndex failedProviders].
    apply IH; try assumption; try lia.
    + now apply tried_next.
    + intros j Hj. apply Hbefore. lia.
Qed.

Lemma attempts_all_fail (fuel a : nat) (last : option string) (p : t) :
  tried a p -> (a + fuel = n)%nat ->
  (forall j, (a <= j < n)%nat -> exists m, respond j j = inl m) ->
  exists last' p',
    attempts respond a fuel last p
    = (Abrupt (Error ("All RPC providers failed. Last error: "
                      +:+ default "undefined"%string last')), p')
    /\ (fuel = 0%nat -> last' = last)
    /\ ((0 < fuel)%nat -> exists m, respond (pred n) (pred n) = inl m /\ last' = Some m)
    /\ providers p' = n
    /\ forall j, j ∈ failedProviders p' <-> (j < n)%nat.
Proof.
  revert a last p. induction fuel as [|fuel IH]; intros a last p Ht Hfuel Hall.
  - cbn [attempts]. exists last, p. split; [reflexivity|]. split; [reflexivity|].
    split; [lia|]. destruct Ht as (Hn & _ & Hf). split; [exact Hn|].
    intros j. rewrite Hf. lia.
  - cbn [attempts]. rewrite (getProvider_tried a p Ht) by lia.
    destruct (Hall a ltac:(lia)) as [m Hm]. rewrite Hm.
    cbn [providers currentIndex failedProviders].
    destruct (IH (S a) (Some m) _ (tried_next a p Ht) ltac:(lia)) as
      (last' & p' & Hrun & Hzero & Hpos & Hn & Hf).
    { intros j Hj. apply Hall. lia. }
    exists last', p'. split; [exact Hrun|]. split; [lia|]. split; [|split; assumption].
    intros _. destruct fuel as [|fuel].
    + exists m. split; [|now apply Hzero].
      replace (pred n) with a by lia. exact Hm.
    + apply Hpos. lia.
Qed.

(** X16. The first [call] on a new provider set tries the providers in
    index order, one attempt each. It resolves with the answer of the
    first provider that answers, which becomes the current one, and marks
    failed exactly the providers before it. When every provider rejects
    it throws after the last one, quoting that provider's message, with
    every provider marked failed. *)
Theorem call_returns_first_working (p : t) :
  new n = Normal p ->
  (forall i v, (i < n)%nat -> respond i i = inr v ->
     (forall j, (j < i)%nat -> exists m, respond j j = inl m) ->
     (call respond p).1 = Normal v
     /\ currentIndex (call respond p).2 = i
     /\ forall j, j ∈ failedProviders (call respond p).2 <-> (j < i)%nat)
  /\ ((forall j, (j < n)%nat -> exists m, respond j j = inl m) ->
      exists m, respond (pred n) (pred n) = inl m
        /\ (call respond p).1
            = Abrupt (Error ("All RPC providers failed. Last error: " +:+ m))
        /\ forall j, j ∈ failedProviders (call respond p).2 <-> (j < n)%nat).
Proof.
  intros Hnew. destruct n as [|n'] eqn:En; [discriminate|].
  injection Hnew as <-. rewrite <- En in *.
  assert (Ht : tried 0
                 {| providers := n; currentIndex := 0; failedProviders := ∅ |}).
  { split; [reflexivity|]. split; [reflexivity|]. intros j. cbn. set_solver by lia. }
  unfold call. cbn [providers]. split.
  - intros i v Hi Hv Hbefore.
    destruct (attempts_first_working n 0 i None _ v Ht) as (p' & Hrun & _ & Hc & Hf);
      try assumption; try lia.
    { intros j Hj. apply Hbefore. lia. }
    rewrite Hrun. cbn [fst snd]. auto.
  - intros Hall.
    destruct (attempts_all_fail n 0 None _ Ht) as (last' & p' & Hrun & _ & Hpos & _ & Hf);
      try lia.
    { intros j Hj. apply Hall. lia. }
    destruct Hpos as (m & Hm & ->); [lia|].
    exists m. split; [exact Hm|]. rewrite Hrun. cbn [fst snd default]. auto.
Qed.

End Failover.

Section FailoverWitness.

Definition secondAnswers (attempt provider : nat) : string + Z :=
  match provider with
  | 0%nat => inl "timeout"%string
  | _ => inr 42
  end.

Lemma call_returns_first_working_witness :
  (call secondAnswers
     {| providers := 3; currentIndex := 0; failedProviders := ∅ |}).1 = Normal 42
  /\ currentIndex
       (call secondAnswers
          {| providers := 3; currentIndex := 0; failedProviders := ∅ |}).2 = 1%nat.
Proof.
  destruct (call_returns_first_working secondAnswers 3
              {| providers := 3; currentIndex := 0; failedProviders := ∅ |} eq_refl)
    as [Hfirst _].
  destruct (Hfirst 1%nat 42 ltac:(lia) eq_refl) as (Hr & Hc & _).
  { intros j Hj. exists "timeout"%string. destruct j; [reflexivity | lia]. }
  split; assumption.
Defined.

End FailoverWitness.

End ProviderFacts.

(** * The execution lock *)

Module InMemoryLock.

(** [this.store], a [Map] from keys to tokens. *)
Abbreviation t := (gmap string string).

Definition new : t := ∅.

(** [acquire(key, ttl)] with the token [Math.random()] produced; [None]
    is [null]. The timer it schedules runs [expire] later. *)
Definition acquire (key token : string) (s : t) : option string * t :=
  match s !! key with
  | Some _ => (None, s)
  | None => (Some token, <[key := token]> s)
  end.

(** The callback [acquire] hands to [setTimeout]. *)
Definition expire (key token : string) (s : t) : t :=
  if decide (s !! key = Some token) then delete key s else s.

(** [release(key, token)] *)
Definition release (key token : string) (s : t) : Z * t :=
  if decide (s !! key = Some token) then (1, delete key s) else (0, s).

(** [quit()] *)
Definition quit (s : t) : t := ∅.

(** What can happen to a lock object: the three methods and the firing
    of a timer. *)
Inductive event : Type :=
| Acquire (key token : string)
| Release (key token : string)
| Expire (key token : string)
| Quit.

Definition step (s : t) (e : event) : t :=
  match e with
  | Acquire key token => (acquire key token s).2
  | Release key token => (release key token s).2
  | Expire key token => expire key token s
  | Quit => quit s
  end.

Definition after (es : list event) (s : t) : t := foldl step s es.

(** An event that gives up the hold of [token] on [key]: its release, its
    timer, or [quit]. *)
Definition gives_up (key token : string) (e : event) : bool :=
  match e with
  | Release k t | Expire k t => bool_decide (k = key /\ t = token)
  | Quit => true
  | Acquire _ _ => false
  end.

End InMemoryLock.

Module RedisLock.

(** What a Redis command does: it throws, or it answers. *)
Inductive reply (A : Type) : Type :=
| Answer (a : A)
| Unreachable.
Arguments Answer {A} a.
Arguments Unreachable {A}.

(** [_useInMemory] and [_inMemory]; the latter is read only when the
    former is set. *)
Record t : Type := {
  useInMemory : bool;
  inMemory : InMemoryLock.t
}.

(** [new RedisLock(redisUrl)]; [failed] says that [new Redis(...)] threw. *)
Definition new (failed : bool) : t :=
  {| useInMemory := failed; inMemory := InMemoryLock.new |}.

(** The handler of the connection's ['error'] event. *)
Definition on_error (l : t) : t :=
  if useInMemory l then l
  else {| useInMemory := true; inMemory := InMemoryLock.new |}.

Definition in_memory {A} (r : A * InMemoryLock.t) : A * t :=
  (r.1, {| useInMemory := true; inMemory := r.2 |}).

(** [acquire(key, ttl)]: [set] is what [SET key token PX ttl NX] does
    ([true] for OK), [token] the token drawn for Redis and [token'] the
    one drawn by the in-memory lock. *)
Definition acquire (set : reply bool) (key token token' : string) (l : t)
    : option string * t :=
  if useInMemory l then in_memory (InMemoryLock.acquire key token' (inMemory l))
  else
    match set with
    | Answer ok => (if ok then Some token else None, l)
    | Unreachable => in_memory (InMemoryLock.acquire key token' InMemoryLock.new)
    end.

(** [release(key, token)]: [eval] is what the compare-and-delete script
    returns. *)
Definition release (eval : reply Z) (key token : string) (l : t) : Z * t :=
  if useInMemory l then in_memory (InMemoryLock.release key token (inMemory l))
  else
    match eval with
    | Answer n => (n, l)
    | Unreachable => in_memory (InMemoryLock.release key token InMemoryLock.new)
    end.

End RedisLock.

Section LockFacts.
Import InMemoryLock.

Lemma step_keeps_holder (key token : string) (s : t) (e : event) :
  s !! key = Some token -> gives_up key token e = false ->
  step s e !! key = Some token.
Proof.
  intros Hheld Hkeep. destruct e as [k t'|k t'|k t'|]; cbn [step gives_up] in *.
  - unfold acquire. destruct (s !! k) eqn:Hk; cbn [snd]; [exact Hheld|].
    rewrite lookup_insert_ne; [exact Hheld|]. intros ->. congruence.
  - unfold release. destruct (decide (s !! k = Some t')) as [Hm|]; cbn [snd];
      [|exact Hheld].
    rewrite lookup_delete_ne; [exact Hheld|]. intros ->.
    rewrite Hheld in Hm. injection Hm as <-.
    apply bool_decide_eq_false in Hkeep. tauto.
  - unfold expire. destruct (decide (s !! k = Some t')) as [Hm|]; [|exact Hheld].
    rewrite lookup_delete_ne; [exact Hheld|]. intros ->.
    rewrite Hheld in Hm. injection Hm as <-.
    apply bool_decide_eq_false in Hkeep. tauto.
  - discriminate.
Qed.

Lemma after_keeps_holder (key token : string) (es : list event) (s : t) :
  s !! key = Some token -> forallb (fun e => negb (gives_up key token e)) es = true ->
  after es s !! key = Some token.
Proof.
  revert s. induction es as [|e es IH]; intros s Hheld Hes; [exact Hheld|].
  cbn [forallb] in Hes. apply andb_true_iff in Hes as [He Hes].
  apply negb_true_iff in He. unfold after. cbn [foldl].
  apply IH; [|exact Hes]. now apply step_keeps_holder.
Qed.

(** X17. Mutual exclusion of the in-memory lock. An [acquire] succeeds
    exactly when the key is free and then returns the token drawn. From
    then on, through any calls of [acquire] and [release] and any timers
    of other holders, the key stays held by that token and every further
    [acquire] of the key returns [null], until the holder's own release,
    its own timer, or [quit]; a release with another token returns 0 and
    changes nothing, the holder's release returns 1 and frees the key. *)
Theorem in_memory_lock_excludes (key token : string) (s : t) :
  ((acquire key token s).1 = Some token <-> s !! key = None)
  /\ ((acquire key token s).1 = None <-> is_Some (s !! key))
  /\ (s !! key = None ->
      let held := (acquire key token s).2 in
      forall es, forallb (fun e => negb (gives_up key token e)) es = true ->
        let later := after es held in
        later !! key = Some token
        /\ (forall token', (acquire key token' later).1 = None
                           /\ (acquire key token' later).2 = later)
        /\ (forall other, other <> token -> release key other later = (0, later))
        /\ (release key token later).1 = 1
        /\ (release key token later).2 !! key = None).
Proof.
  unfold acquire at 1 2. destruct (s !! key) as [t0|] eqn:Hs; cbn [fst].
  - split; [split; [discriminate | discriminate]|].
    split; [split; [eauto | reflexivity]|]. discriminate.
  - split; [split; reflexivity|].
    split; [split; [discriminate | intros [? ?]; discriminate]|].
    intros _ es Hes.
    set (held := (acquire key token s).2). set (later := after es held).
    assert (Hheld : held !! key = Some token).
    { subst held. unfold acquire. rewrite Hs. cbn [snd]. apply lookup_insert_eq. }
    assert (Hlater : later !! key = Some token) by now apply after_keeps_holder.
    split; [exact Hlater|]. split; [|split; [|split]].
    + intros token'. unfold acquire. rewrite Hlater. split; reflexivity.
    + intros other Hne. unfold release.
      destruct (decide (later !! key = Some other)) as [Hm|]; [|reflexivity].
      congruence.
    + unfold release. destruct (decide (later !! key = Some token)); [reflexivity|].
      contradiction.
    + unfold release. destruct (decide (later !! key = Some token)); [|contradiction].
      cbn [snd]. apply lookup_delete_eq.
Qed.

End LockFacts.

Section RedisLockFacts.
Import RedisLock.

(** X18. The Redis lock falls back rather than fails. When the Redis
    command cannot be carried out, [acquire] switches to a new in-memory
    lock and grants the key, whoever holds it in Redis, and [release]
    switches and returns 0, leaving nothing held in memory. Once in
    memory the object never goes back to Redis, whatever Redis would
    answer, and behaves as its in-memory lock does. While Redis answers,
    the token is granted exactly when the [SET ... NX] succeeds. *)
Theorem redis_lock_falls_back (l : t) (key token token' : string) :
  (useInMemory l = false ->
     acquire Unreachable key token token' l
     = (Some token', {| useInMemory := true; inMemory := {[ key := token' ]} |})
     /\ release Unreachable key token l
        = (0, {| useInMemory := true; inMemory := ∅ |})
     /\ (forall ok, acquire (Answer ok) key token token' l
                    = (if ok then Some token else None, l))
     /\ (forall n, release (Answer n) key token l = (n, l)))
  /\ (useInMemory l = true ->
      forall set eval,
        useInMemory (acquire set key token token' l).2 = true
        /\ useInMemory (release eval key token l).2 = true
        /\ (acquire set key token token' l).1
           = (InMemoryLock.acquire key token' (inMemory l)).1
        /\ inMemory (acquire set key token token' l).2
           = (InMemoryLock.acquire key token' (inMemory l)).2
        /\ (release eval key token l).1
           = (InMemoryLock.release key token (inMemory l)).1
        /\ inMemory (release eval key token l).2
           = (InMemoryLock.release key token (inMemory l)).2)
  /\ useInMemory (on_error l) = true.
Proof.
  split; [|split].
  - intros Hredis. unfold acquire, release. rewrite Hredis.
    unfold in_memory, InMemoryLock.acquire, InMemoryLock.release, InMemoryLock.new.
    rewrite lookup_empty.
    destruct (decide ((∅ : InMemoryLock.t) !! key = Some token)) as [Hm|_].
    { rewrite lookup_empty in Hm. discriminate. }
    cbn [fst snd]. repeat split; reflexivity.
  - intros Hmem set eval. unfold acquire, release. rewrite Hmem.
    unfold in_memory. cbn [fst snd useInMemory inMemory]. repeat split; reflexivity.
  - unfold on_error. destruct (useInMemory l) eqn:E; [exact E | reflexivity].
Qed.

End RedisLockFacts.

(** * The bot's execution path, whatever its collaborators answer *)

Section BotTraces.
Import Js ArbitrageBot.

Variable env : world.

(** [m] only adds calls to the trace, and only calls that [allowed]
    admits. *)
Definition appends {A} (allowed : action -> Prop) (m : run A) : Prop :=
  forall b, exists added,
    trace (m b).2 = trace b ++ added /\ Forall allowed added.

Lemma appends_ret {A} (allowed : action -> Prop) (a : A) : appends allowed (ret a).
Proof. intros b. exists []. split; [now rewrite app_nil_r | constructor]. Qed.

Lemma appends_throw {A} (allowed : action -> Prop) (e : error) :
  appends allowed (@throw A e).
Proof. intros b. exists []. split; [now rewrite app_nil_r | constructor]. Qed.

Lemma appends_call (allowed : action -> Prop) (a : action) :
  allowed a -> appends allowed (call env a).
Proof.
  intros Ha b. exists [a]. unfold call.
  destruct (rejects env a); cbn; (split; [reflexivity | repeat constructor; exact Ha]).
Qed.

Lemma appends_breakerFailure (allowed : action -> Prop) :
  appends allowed (breakerFailure env).
Proof. intros b. exists []. split; [cbn; now rewrite app_nil_r | constructor]. Qed.

Lemma appends_countSuccess (allowed : action -> Prop) : appends allowed countSuccess.
Proof. intros b. exists []. split; [cbn; now rewrite app_nil_r | constructor]. Qed.

Lemma appends_seq {A B} (allowed : action -> Prop) (m : run A) (k : A -> run B) :
  appends allowed m -> (forall a, appends allowed (k a)) -> appends allowed (seq m k).
Proof.
  intros Hm Hk b. unfold seq. destruct (Hm b) as (added & Ht & Hall).
  destruct (m b) as [[a|e] b1]; cbn [snd] in *.
  - destruct (Hk a b1) as (added' & Ht' & Hall'). exists (added ++ added').
    split; [now rewrite Ht', Ht, app_assoc | now apply Forall_app].
  - exists added. split; assumption.
Qed.

Lemma appends_try_catch {A} (allowed : action -> Prop) (m : run A) (h : error -> run A) :
  appends allowed m -> (forall e, appends allowed (h e)) ->
  appends allowed (try_catch m h).
Proof.
  intros Hm Hh b. unfold try_catch. destruct (Hm b) as (added & Ht & Hall).
  destruct (m b) as [[a|e] b1]; cbn [snd] in *.
  - exists added. split; assumption.
  - destruct (Hh e b1) as (added' & Ht' & Hall'). exists (added ++ added').
    split; [now rewrite Ht', Ht, app_assoc | now apply Forall_app].
Qed.

Lemma appends_slippageGate (allowed : action -> Prop) (opp : opportunity) :
  appends allowed (slippageGate opp).
Proof.
  intros b. exists []. unfold slippageGate.
  destruct (_ && _);
    [destruct (amountIn opp);
       [destruct (SlippageCalculator.getProtectedParameters _ _ _)|]|];
    cbn; (split; [now rewrite app_nil_r | constructor]).
Qed.

Lemma appends_announce (allowed : action -> Prop) (opp : opportunity) :
  appends allowed (announce env opp).
Proof.
  unfold announce.
  destruct (minProfit env); [destruct (amountIn opp); [destruct (asset env opp)|]|];
    first [apply appends_ret | apply appends_throw].
Qed.

Lemma appends_formatProfit (allowed : action -> Prop) (opp : opportunity) :
  appends allowed (formatProfit opp).
Proof.
  unfold formatProfit.
  destruct (profit opp); first [apply appends_ret | apply appends_throw].
Qed.

Lemma seq_run {A B} (m : run A) (k : A -> run B) (b : bot) :
  seq m k b = match m b with
              | (Return a, b') => k a b'
              | (Throw e, b') => (Throw e, b')
              end.
Proof. reflexivity. Qed.

Lemma call_run (a : action) (b : bot) :
  call env a b
  = (if rejects env a then Throw CallFailed else Return tt,
     with_trace b (trace b ++ [a])).
Proof. unfold call, with_trace. now destruct (rejects env a). Qed.

Definition is_lock_call (a : action) : bool :=
  match a with
  | LockAcquire | LockRelease | LockQuit => true
  | _ => false
  end.

Definition off_lock (a : action) : Prop := is_lock_call a = false.

Ltac appends_step :=
  first
    [ apply appends_ret | apply appends_throw | apply appends_breakerFailure
    | apply appends_countSuccess | apply appends_slippageGate
    | apply appends_announce | apply appends_formatProfit
    | apply appends_call; reflexivity
    | apply appends_seq; [|intros ?]
    | apply appends_try_catch; [|intros ?]
    | match goal with |- appends _ (if ?c then _ else _) => destruct c end
    | match goal with |- appends _ (match ?c with _ => _ end) => destruct c end ].

Lemma executeViaMempool_bundle_off_lock (opp : opportunity) :
  appends off_lock (executeViaMempool_bundle env opp).
Proof. unfold executeViaMempool_bundle. repeat appends_step. Qed.

Lemma executeViaMempool_public_off_lock (opp : opportunity) :
  appends off_lock (executeViaMempool_public env opp).
Proof. unfold executeViaMempool_public. repeat appends_step. Qed.

Lemma executeLegacyArbitrage_off_lock (opp : opportunity) :
  appends off_lock (executeLegacyArbitrage env opp).
Proof. unfold executeLegacyArbitrage. repeat appends_step. Qed.

Lemma invoke_off_lock (name : string) (opp : opportunity) :
  appends off_lock (invoke env name opp).
Proof.
  unfold invoke, class_body. cbn [member].
  repeat match goal with
         | |- context [String.eqb ?a ?b] => destruct (String.eqb a b)
         end;
    first [ apply executeViaMempool_bundle_off_lock
          | apply executeViaMempool_public_off_lock
          | apply executeLegacyArbitrage_off_lock
          | apply appends_throw ].
Qed.

Lemma executeFlashLoanArbitrage_off_lock (opp : opportunity) :
  appends off_lock (executeFlashLoanArbitrage env opp).
Proof.
  intros b. unfold executeFlashLoanArbitrage.
  destruct (flashbotsProvider b); apply invoke_off_lock.
Qed.

(** X19. [executeArbitrageReal] and the lock. Without a token (the lock
    is held elsewhere, or acquiring failed) nothing but the acquire call
    is made and the breaker and the counters are untouched. With a token,
    whatever the channel does (returns, reports a failure, throws, hits
    the undefined method), the release is attempted exactly once, after
    every other call of the execution, and [quit] follows it when the
    release did not fail; no lock call happens in between. *)
Theorem executeArbitrageReal_releases_lock (opp : opportunity) (b : bot) :
  let b' := (executeArbitrageReal env opp b).2 in
  (rejects env LockAcquire = true \/ lockToken env = false ->
   trace b' = trace b ++ [LockAcquire]
   /\ circuitBreaker b' = circuitBreaker b /\ executed b' = executed b)
  /\ (rejects env LockAcquire = false -> lockToken env = true ->
      exists during,
        Forall off_lock during
        /\ trace b'
           = trace b ++ [LockAcquire] ++ during
             ++ LockRelease :: (if rejects env LockRelease then [] else [LockQuit])).
Proof.
  cbv zeta. unfold executeArbitrageReal. rewrite seq_run, call_run. split.
  - intros [Hrej | Htok].
    + rewrite Hrej. cbn. auto.
    + rewrite Htok. destruct (rejects env LockAcquire); cbn; auto.
  - intros Hacq Htok. rewrite Hacq, Htok. cbn [negb].
    set (b1 := with_trace b (trace b ++ [LockAcquire])).
    set (body := try_catch _ _).
    assert (Hbody : appends off_lock body).
    { subst body. apply appends_try_catch.
      - destruct (useFlashLoan env);
          [apply executeFlashLoanArbitrage_off_lock | apply invoke_off_lock].
      - intros e. apply appends_seq; [apply appends_breakerFailure|].
        intros _. apply appends_call. reflexivity. }
    destruct (Hbody b1) as (during & Ht & Hall).
    exists during. split; [exact Hall|].
    unfold finally. destruct (body b1) as [r b2]. cbn [snd] in Ht.
    rewrite seq_run, call_run.
    destruct (rejects env LockRelease); cbn [snd trace with_trace].
    + rewrite Ht. subst b1. cbn [trace with_trace]. now rewrite <- !app_assoc.
    + rewrite call_run. destruct (rejects env LockQuit); cbn [snd trace with_trace];
        rewrite Ht; subst b1; cbn [trace with_trace]; now rewrite <- !app_assoc.
Qed.

End BotTraces.

Section BotGates.
Import Js ArbitrageBot.

Variable env : world.

Ltac run_paths :=
  repeat first
    [ progress cbn [fst snd negb trace executed circuitBreaker flashbotsProvider
                    slippageCalculator is_Some_bool]
    | match goal with
      | |- context [if rejects env ?a then _ else _] => destruct (rejects env a) eqn:?
      | |- context [if gasTooHigh env then _ else _] => destruct (gasTooHigh env) eqn:?
      | |- context [if receiptStatus env =? 1 then _ else _] =>
          destruct (Z.eqb_spec (receiptStatus env) 1)
      | |- context [is_Some_bool (feePrice env)] => destruct (feePrice env) eqn:?
      | |- context [profit ?o] => destruct (profit o) eqn:?
      end ].

(** The opening lines go through: the minimum parses and there are an
    amount and an asset. *)
Definition announced (opp : opportunity) : Prop :=
  (exists m, minProfit env = Return m) /\ (exists n, amountIn opp = Some n)
  /\ (exists a, asset env opp = Some a).

Lemma announce_run (opp : opportunity) (b : bot) :
  (announced opp /\ announce env opp b = (Return tt, b))
  \/ (~ announced opp /\ exists e, announce env opp b = (Throw e, b)).
Proof.
  unfold announced, announce.
  destruct (minProfit env) as [m|e].
  - destruct (amountIn opp) as [n|].
    + destruct (asset env opp) as [a|].
      * left. split; [repeat split; eauto | reflexivity].
      * right. split; [intros (_ & _ & a & Ha); discriminate | eauto].
    + right. split; [intros (_ & (n & Hn) & _); discriminate | eauto].
  - right. split; [intros [[m Hm] _]; discriminate | eauto].
Qed.

(** X20. The public broadcast and its pre-flight checks. When the
    opening lines throw (a minimum profit that does not parse, an
    opportunity without an amount, or no asset: an opportunity without a
    path while WETH_ADDRESS is unset, or with an empty path) the method
    throws before any call and leaves the bot as it was. An opportunity
    older than 3000 ms makes no call either, and returns when the
    opening lines went through. A transaction is sent only after the
    opening lines went through, the fee data was read with a price in
    it, the opportunity has a profit to compare the gas cost with, the
    gas check passed and the static call of the same transaction
    returned, in that order; a static call that reverts records one
    breaker failure and sends nothing. The execution counter moves by
    one exactly when the profit notification is reached, which needs a
    receipt of status 1. The method throws only from the opening lines,
    from a failed fee read, or from a gas check on a missing price or a
    missing profit, and then it has sent nothing. *)
Theorem public_broadcast_gates (opp : opportunity) (b : bot) :
  let r := (executeViaMempool_public env opp b).1 in
  let b' := (executeViaMempool_public env opp b).2 in
  exists added,
    trace b' = trace b ++ added
    /\ (~ announced opp -> added = [] /\ b' = b /\ exists e, r = Throw e)
    /\ (3000 < ageMs env opp ->
        added = [] /\ b' = b /\ (announced opp -> r = Return tt))
    /\ (In SendTransaction added ->
        announced opp
        /\ ageMs env opp <= 3000 /\ gasTooHigh env = false
        /\ (exists price, feePrice env = Some price)
        /\ (exists gain, profit opp = Some gain)
        /\ rejects env GetFeeData = false /\ rejects env StaticCall = false
        /\ exists rest, added = GetFeeData :: StaticCall :: SendTransaction :: rest)
    /\ (In StaticCall added -> rejects env StaticCall = true ->
        added = [GetFeeData; StaticCall]
        /\ circuitBreaker b'
           = (CircuitBreaker.recordFailure (now env) (circuitBreaker b)).2
        /\ executed b' = executed b)
    /\ (In NotifyProfit added <-> executed b' = executed b + 1)
    /\ (~ In NotifyProfit added -> executed b' = executed b)
    /\ (In NotifyProfit added ->
        receiptStatus env = 1 /\ rejects env SendTransaction = false
        /\ rejects env WaitForReceipt = false)
    /\ (forall e, r = Throw e ->
        circuitBreaker b' = circuitBreaker b /\ executed b' = executed b
        /\ ((~ announced opp /\ added = [])
            \/ (announced opp /\ rejects env GetFeeData = true /\ e = CallFailed
                /\ added = [GetFeeData])
            \/ (announced opp /\ rejects env GetFeeData = false
                /\ (feePrice env = None \/ profit opp = None)
                /\ e = TypeError /\ added = [GetFeeData]))).
Proof.
  cbv zeta. unfold executeViaMempool_public. rewrite seq_run.
  destruct (announce_run opp b) as [(Hann & ->)|(Hann & e0 & ->)].
  2:{ exists []. cbn [fst snd]. rewrite app_nil_r.
      repeat match goal with |- _ /\ _ => split | |- _ <-> _ => split end;
        intros; cbn [In] in *; try contradiction; try lia; try reflexivity;
        try (split; [reflexivity|split; [reflexivity|intros; contradiction]]);
        eauto. }
  destruct (Z.ltb_spec 3000 (ageMs env opp)) as [Hold|Hfresh].
  - exists []. cbn. rewrite app_nil_r.
    repeat match goal with |- _ /\ _ => split | |- _ <-> _ => split end;
      intros; try contradiction; try lia; try reflexivity; try discriminate;
      try (split; [reflexivity|split; [reflexivity|intros; reflexivity]]).
  - unfold formatProfit, try_catch, seq, ret, throw, breakerFailure, countSuccess, call.
    destruct (rejects env GetFeeData) eqn:Hfee;
      [|destruct (feePrice env) as [price|] eqn:Hprice;
        [destruct (profit opp) as [gain|] eqn:Hgain|]];
    run_paths;
      (eexists; split; [rewrite <- ?app_assoc; cbn [app]; reflexivity|]);
      cbn [In];
      repeat match goal with
             | |- _ /\ _ => split
             | |- _ <-> _ => split
             end;
      intros;
      repeat match goal with
             | H : _ \/ _ |- _ => destruct H
             | H : False |- _ => destruct H
             | H : @eq action _ _ |- _ => discriminate H
             | H : @eq bool _ _ |- _ => discriminate H
             | H : @eq (result _) (Return _) (Throw _) |- _ => discriminate H
             | H : @eq (result _) (Throw _) (Throw _) |- _ => injection H as <-
             end;
      try contradiction; try lia; try tauto; try done;
      try (repeat match goal with
                  | |- _ /\ _ => split
                  | |- exists _, _ => eexists
                  end; first [reflexivity | assumption | lia]);
      try (split; [reflexivity|split; [reflexivity|]];
           first [ right; left; repeat split; auto; fail
                 | right; right; repeat split; auto; fail ]).
Qed.

End BotGates.

(** * The contract's entry points over a run of transactions *)

Section ContractRuns.
Import FlashArbitrage.

Context {V : Type} (E : externals V).

Tactic Notation "ok_step" hyp(H) "as" ident(a) ident(w1) ident(Ha) :=
  apply bind_Ok in H as (a & w1 & Ha & H).

Lemma external_Ok (f : chain V -> option (chain V)) (w w' : world V) (u : unit) :
  external f w = Ok (u, w') -> exists c, f (ext w) = Some c /\ w' = with_ext w c.
Proof.
  unfold external. destruct (f (ext w)) as [c|]; [|discriminate].
  intros [= <-]. eauto.
Qed.

(** The caller passes the three modifiers of [flashArbitrage]. *)
Definition admitted (sender : address) (w : world V) : Prop :=
  sender = owner (store w) /\ entered (store w) = false /\ paused (store w) = false.

(** The lender and both routers are set. *)
Definition configured (w : world V) : Prop :=
  aavePool (store w) <> 0 /\ router1 (store w) <> 0 /\ router2 (store w) <> 0.

Lemma flashArbitrage_admitted (sender asset : address) (amount minProfit : Z)
    (path1 path2 : list address) (w : world V) :
  admitted sender w ->
  flashArbitrage E sender asset amount path1 path2 minProfit w
  = bind (sload aavePool) (fun pool =>
    bind (require (negb (pool =? 0)) "Aave Pool not configured") (fun _ =>
    bind (sload router1) (fun r1 =>
    bind (sload router2) (fun r2 =>
    bind (require (negb (r1 =? 0) && negb (r2 =? 0)) "Routers not configured") (fun _ =>
    bind (require ((2 <=? Z.of_nat (length path1)) && (2 <=? Z.of_nat (length path2)))
            "Invalid paths") (fun _ =>
    bind (index path1 0) (fun first =>
    bind (last_of path2) (fun final =>
    bind (require ((first =? asset) && (final =? asset))
            "Paths must start and end with flash loan asset") (fun _ =>
    bind (sstore (set_inFlashLoan true)) (fun _ =>
    let params := Encoded path1 path2 minProfit in
    bind (flashLoanSimple E pool asset amount params) (fun _ =>
    bind (sstore (set_inFlashLoan false)) (fun _ =>
    sstore (set_entered false)))))))))))))
      {| store := set_entered true (store w); ext := ext w; logs := logs w |}.
Proof.
  intros (-> & Hent & Hp). unfold flashArbitrage.
  erewrite bind_step by reflexivity.
  erewrite bind_step by (unfold require; rewrite Z.eqb_refl; reflexivity).
  erewrite bind_step by reflexivity.
  erewrite bind_step by (unfold require; rewrite Hent; reflexivity).
  erewrite bind_step by reflexivity.
  erewrite bind_step by reflexivity.
  erewrite bind_step
    by (unfold require; cbn [store set_entered paused]; rewrite Hp; reflexivity).
  reflexivity.
Qed.

(** X21. The guards of [flashArbitrage], in the order they are checked:
    a caller other than the owner, a call while one is in progress and a
    paused contract are refused by the three modifiers; then an unset
    lender, an unset router, a path shorter than two and a path that does
    not start, or come back, at the borrowed asset each revert with their
    own reason, before any external call is made. *)
Theorem flashArbitrage_guards (sender asset : address) (amount minProfit : Z)
    (path1 path2 : list address) (w : world V) :
  let attempt := flashArbitrage E sender asset amount path1 path2 minProfit w in
  (sender <> owner (store w) ->
   attempt = Revert (Error "Ownable: caller is not the owner"))
  /\ (sender = owner (store w) -> entered (store w) = true ->
      attempt = Revert (Error "ReentrancyGuard: reentrant call"))
  /\ (sender = owner (store w) -> entered (store w) = false -> paused (store w) = true ->
      attempt = Revert (Error "Pausable: paused"))
  /\ (admitted sender w -> aavePool (store w) = 0 ->
      attempt = Revert (Error "Aave Pool not configured"))
  /\ (admitted sender w -> aavePool (store w) <> 0 ->
      router1 (store w) = 0 \/ router2 (store w) = 0 ->
      attempt = Revert (Error "Routers not configured"))
  /\ (admitted sender w -> configured w ->
      (length path1 < 2)%nat \/ (length path2 < 2)%nat ->
      attempt = Revert (Error "Invalid paths"))
  /\ (admitted sender w -> configured w ->
      (2 <= length path1)%nat -> (2 <= length path2)%nat ->
      head path1 <> Some asset \/ last path2 <> Some asset ->
      attempt = Revert (Error "Paths must start and end with flash loan asset")).
Proof.
  cbv zeta. split; [|split; [|split]].
  - intros Hne. unfold flashArbitrage.
    erewrite bind_step by reflexivity. apply bind_Revert. unfold require.
    destruct (Z.eqb_spec (owner (store w)) sender); [congruence | reflexivity].
  - intros -> Hent. unfold flashArbitrage.
    erewrite bind_step by reflexivity.
    erewrite bind_step by (unfold require; rewrite Z.eqb_refl; reflexivity).
    erewrite bind_step by reflexivity.
    apply bind_Revert. unfold require. rewrite Hent. reflexivity.
  - intros -> Hent Hp. unfold flashArbitrage.
    erewrite bind_step by reflexivity.
    erewrite bind_step by (unfold require; rewrite Z.eqb_refl; reflexivity).
    erewrite bind_step by reflexivity.
    erewrite bind_step by (unfold require; rewrite Hent; reflexivity).
    erewrite bind_step by reflexivity.
    erewrite bind_step by reflexivity.
    apply bind_Revert. unfold require. cbn [store set_entered paused]. rewrite Hp.
    reflexivity.
  - split; [|split; [|split]].
    + intros Hadm Hpool. rewrite flashArbitrage_admitted by assumption.
      erewrite bind_step by reflexivity.
      apply bind_Revert. unfold require. cbn [store set_entered aavePool].
      rewrite Hpool. reflexivity.
    + intros Hadm Hpool Hr. rewrite flashArbitrage_admitted by assumption.
      erewrite bind_step by reflexivity.
      erewrite bind_step
        by (unfold require; cbn [store set_entered aavePool];
            destruct (Z.eqb_spec (aavePool (store w)) 0); [contradiction | reflexivity]).
      erewrite bind_step by reflexivity.
      erewrite bind_step by reflexivity.
      apply bind_Revert. unfold require. cbn [store set_entered router1 router2].
      destruct Hr as [-> | ->]; cbn; [reflexivity|].
      now destruct (router1 (store w) =? 0).
    + intros Hadm (Hpool & Hr1 & Hr2) Hlen.
      rewrite flashArbitrage_admitted by assumption.
      erewrite bind_step by reflexivity.
      erewrite bind_step
        by (unfold require; cbn [store set_entered aavePool];
            destruct (Z.eqb_spec (aavePool (store w)) 0); [contradiction | reflexivity]).
      erewrite bind_step by reflexivity.
      erewrite bind_step by reflexivity.
      erewrite bind_step
        by (unfold require; cbn [store set_entered router1 router2];
            destruct (Z.eqb_spec (router1 (store w)) 0); [contradiction|];
            destruct (Z.eqb_spec (router2 (store w)) 0); [contradiction | reflexivity]).
      apply bind_Revert. unfold require.
      destruct (Z.leb_spec 2 (Z.of_nat (length path1))),
               (Z.leb_spec 2 (Z.of_nat (length path2))); cbn; try reflexivity; lia.
    + intros Hadm (Hpool & Hr1 & Hr2) Hl1 Hl2 Hends.
      rewrite flashArbitrage_admitted by assumption.
      erewrite bind_step by reflexivity.
      erewrite bind_step
        by (unfold require; cbn [store set_entered aavePool];
            destruct (Z.eqb_spec (aavePool (store w)) 0); [contradiction | reflexivity]).
      erewrite bind_step by reflexivity.
      erewrite bind_step by reflexivity.
      erewrite bind_step
        by (unfold require; cbn [store set_entered router1 router2];
            destruct (Z.eqb_spec (router1 (store w)) 0); [contradiction|];
            destruct (Z.eqb_spec (router2 (store w)) 0); [contradiction | reflexivity]).
      erewrite bind_step
        by (unfold require;
            destruct (Z.leb_spec 2 (Z.of_nat (length path1))); [|lia];
            destruct (Z.leb_spec 2 (Z.of_nat (length path2))); [|lia]; reflexivity).
      destruct path1 as [|first rest1]; [cbn in Hl1; lia|].
      erewrite bind_step by reflexivity.
      destruct (last path2) as [final|] eqn:Hlast.
      * erewrite bind_step by (apply last_of_Some; exact Hlast).
        apply bind_Revert. unfold require. cbn [head] in Hends.
        destruct (Z.eqb_spec first asset) as [->|Hf];
          destruct (Z.eqb_spec final asset) as [->|Hl]; cbn; try reflexivity.
        destruct Hends; congruence.
      * destruct path2; [cbn in Hl2; lia|]. apply last_None in Hlast. discriminate.
Qed.

(** X22. The guards of the callback, in the order they are checked: a
    caller other than the lender, an initiator other than the contract
    itself, a call outside a loan the contract started, and parameters
    that do not decode each revert with their own reason. In particular,
    while no loan is in progress [executeOperation] reverts for every
    caller and every argument. *)
Theorem executeOperation_guards (sender asset : address) (amount premium : Z)
    (initiator : address) (params : calldata) (w : world V) :
  let callback := executeOperation E sender asset amount premium initiator params w in
  (sender <> aavePool (store w) ->
   callback = Revert (Error "Caller must be Aave Pool"))
  /\ (sender = aavePool (store w) -> initiator <> this E ->
      callback = Revert (Error "Initiator must be this contract"))
  /\ (sender = aavePool (store w) -> initiator = this E ->
      inFlashLoan (store w) = false ->
      callback = Revert (Error "Not in flash loan"))
  /\ (sender = aavePool (store w) -> initiator = this E ->
      inFlashLoan (store w) = true -> params = Malformed ->
      callback = Revert BadCalldata)
  /\ (inFlashLoan (store w) = false ->
      exists reason, callback = Revert (Error reason)
        /\ In reason ["Caller must be Aave Pool"; "Initiator must be this contract";
                      "Not in flash loan"]%string).
Proof.
  cbv zeta. unfold executeOperation, bind, sload, require, ret, revert.
  destruct (Z.eqb_spec sender (aavePool (store w))) as [Hs|Hs];
    destruct (Z.eqb_spec initiator (this E)) as [Hi|Hi];
    destruct (inFlashLoan (store w)) eqn:Hflag;
    repeat split; intros; subst; try congruence; try reflexivity;
    try (eexists; split; [reflexivity|]; cbn; tauto).
Qed.

(** The storage a successful [flashArbitrage] leaves: the profit is
    credited, the two flags are down, nothing else moves. *)
Definition closed (s : storage) (profit : Z) : storage :=
  {| owner := owner s; paused := paused s; entered := false;
     totalProfits := totalProfits s + profit; aavePool := aavePool s;
     router1 := router1 s; router2 := router2 s; inFlashLoan := false |}.

Lemma flashArbitrage_result (sender asset : address) (amount minProfit : Z)
    (path1 path2 : list address) (w w' : world V) (u : unit) :
  flashArbitrage E sender asset amount path1 path2 minProfit w = Ok (u, w') ->
  admitted sender w
  /\ exists premium profit,
       premiumOf E (aavePool (store w)) asset amount = Some premium
       /\ 0 < profit /\ minProfit <= profit
       /\ 0 <= totalProfits (store w) + profit <= MAX_UINT256
       /\ store w' = closed (store w) profit
       /\ logs w' = FlashLoanExecuted asset amount profit premium :: logs w.
Proof.
  intros H.
  pose proof (flashArbitrage_Ok E _ _ _ _ _ _ _ _ _ H) as (Hown & Hp & Hent & _).
  assert (Hadm : admitted sender w) by (split; [|split]; assumption).
  split; [exact Hadm|].
  rewrite flashArbitrage_admitted in H by exact Hadm.
  ok_step H as pool w1 Hpool. apply sload_Ok in Hpool as (-> & ->).
  ok_step H as u5 w1 Hcfg. apply require_Ok in Hcfg as (_ & ->).
  ok_step H as r1 w1 Hr1. apply sload_Ok in Hr1 as (-> & ->).
  ok_step H as r2 w1 Hr2. apply sload_Ok in Hr2 as (-> & ->).
  ok_step H as u6 w1 Hrt. apply require_Ok in Hrt as (_ & ->).
  ok_step H as u7 w1 Hlen. apply require_Ok in Hlen as (_ & ->).
  ok_step H as first w1 Hfst. apply index_Ok in Hfst as (_ & ->).
  ok_step H as final w1 Hlast. apply last_of_Ok in Hlast as (_ & ->).
  ok_step H as u8 w1 Hends. apply require_Ok in Hends as (_ & ->).
  ok_step H as u9 w1 Hflag. apply sstore_Ok in Hflag as ->.
  ok_step H as u10 w1 Hloan.
  ok_step H as u11 w2 Hdown. apply sstore_Ok in Hdown as ->.
  apply sstore_Ok in H as ->.
  cbn [store ext logs set_entered set_inFlashLoan aavePool] in Hloan.
  unfold flashLoanSimple in Hloan.
  destruct (premiumOf E (aavePool (store w)) asset amount) as [premium|];
    [|discriminate].
  ok_step Hloan as u12 w2 Hlend. apply external_Ok in Hlend as (c & _ & ->).
  ok_step Hloan as b w2 Hcb. apply relay_Ok in Hcb.
  ok_step Hloan as owed w3 Howed. apply checked_Ok in Howed as (-> & -> & _).
  apply external_Ok in Hloan as (c' & _ & ->).
  apply executeOperation_Ok in Hcb
    as (_ & _ & _ & p1 & p2 & mp & finalAmount & w4 & Hpar & _ & _ & Hgt & Hmin & Htot
        & _ & ->).
  injection Hpar as <- <- <-.
  exists premium, (finalAmount - (amount + premium)).
  cbn [store ext logs with_ext credited set_totalProfits set_entered set_inFlashLoan
       totalProfits owner paused entered aavePool router1 router2 inFlashLoan] in *.
  split; [reflexivity|]. split; [lia|]. split; [exact Hmin|].
  split; [exact Htot|]. split; reflexivity.
Qed.

(** X23. What a successful [flashArbitrage] leaves behind. The caller
    was the owner and the contract was neither paused nor entered; the
    storage afterwards differs from the storage before only in
    [totalProfits], which grew by a profit that is positive and at least
    [minProfit], and in the two flags, which are both down; exactly one
    event was logged, carrying that profit. *)
Theorem flashArbitrage_success_frame (sender asset : address) (amount minProfit : Z)
    (path1 path2 : list address) (w w' : world V) (u : unit) :
  flashArbitrage E sender asset amount path1 path2 minProfit w = Ok (u, w') ->
  sender = owner (store w) /\ paused (store w) = false /\ entered (store w) = false
  /\ owner (store w') = owner (store w) /\ paused (store w') = false
  /\ aavePool (store w') = aavePool (store w)
  /\ router1 (store w') = router1 (store w) /\ router2 (store w') = router2 (store w)
  /\ entered (store w') = false /\ inFlashLoan (store w') = false
  /\ exists premium profit,
       0 < profit /\ minProfit <= profit
       /\ totalProfits (store w') = totalProfits (store w) + profit
       /\ totalProfits (store w') <= MAX_UINT256
       /\ logs w' = FlashLoanExecuted asset amount profit premium :: logs w.
Proof.
  intros H. apply flashArbitrage_result in H
    as ((Ho & He & Hp) & premium & profit & _ & Hpos & Hmin & Htot & Hst & Hlg).
  rewrite Hst. cbn [closed owner paused entered totalProfits aavePool router1 router2
                    inFlashLoan].
  repeat match goal with |- _ /\ _ => split end; try assumption; try reflexivity.
  exists premium, profit. repeat split; try assumption; lia.
Qed.

(** A run of transactions sent to the two entry points, each kept or
    rolled back as a whole. *)
Definition replay (es : list entry) (w : world V) : world V :=
  foldl (fun w e => (transact (enter E e) w).2) w es.

(** The profits the log reports. *)
Definition logged_profit (l : list event) : Z :=
  foldr (fun e acc => match e with FlashLoanExecuted _ _ profit _ => profit + acc end) 0 l.

(** Between transactions: no loan in progress, no call entered. *)
Definition at_rest (w : world V) : Prop :=
  inFlashLoan (store w) = false /\ entered (store w) = false.

Lemma transact_at_rest (e : entry) (w : world V) :
  at_rest w ->
  let w' := (transact (enter E e) w).2 in
  at_rest w'
  /\ owner (store w') = owner (store w) /\ paused (store w') = paused (store w)
  /\ aavePool (store w') = aavePool (store w)
  /\ router1 (store w') = router1 (store w) /\ router2 (store w') = router2 (store w)
  /\ exists new,
       logs w' = new ++ logs w
       /\ totalProfits (store w') = totalProfits (store w) + logged_profit new
       /\ 0 <= logged_profit new
       /\ (length new <= 1)%nat.
Proof.
  intros Hrest. cbv zeta. unfold transact.
  destruct (enter E e w) as [[u w']|f] eqn:Hrun; cbn [snd].
  - destruct e as [sender asset amount p1 p2 mp|sender asset amount premium init params];
      cbn [enter] in Hrun.
    + apply flashArbitrage_result in Hrun
        as ((Ho & He & Hp) & premium & profit & _ & Hpos & _ & _ & Hst & Hlg).
      unfold at_rest. rewrite Hst, Hlg.
      cbn [closed owner paused entered totalProfits aavePool router1
           router2 inFlashLoan].
      split; [split; reflexivity|]. rewrite Hp.
      repeat match goal with |- _ /\ _ => split end; try reflexivity.
      exists [FlashLoanExecuted asset amount profit premium].
      cbn [app logged_profit foldr length]. repeat split; lia.
    + exfalso. ok_step Hrun as b w1 Hcb.
      apply executeOperation_Ok in Hcb as (_ & _ & Hflag & _).
      destruct Hrest as [Hoff _]. congruence.
  - repeat match goal with |- _ /\ _ => split end; try reflexivity; try apply Hrest.
    exists []. cbn. repeat split; lia.
Qed.

(** X24. Over any run of transactions to [flashArbitrage] and
    [executeOperation], by any senders with any arguments, starting
    between transactions: the contract is again at rest afterwards (no
    loan in progress, no call entered); owner, pause flag, lender and
    routers are what they were; the log only grew; and [totalProfits]
    grew by exactly the sum of the profits of the new log entries, so it
    never decreases. *)
Theorem replay_accounts_for_profits (es : list entry) (w : world V) :
  at_rest w ->
  let w' := replay es w in
  at_rest w'
  /\ owner (store w') = owner (store w) /\ paused (store w') = paused (store w)
  /\ aavePool (store w') = aavePool (store w)
  /\ router1 (store w') = router1 (store w) /\ router2 (store w') = router2 (store w)
  /\ exists new,
       logs w' = new ++ logs w
       /\ totalProfits (store w') = totalProfits (store w) + logged_profit new
       /\ totalProfits (store w) <= totalProfits (store w')
       /\ (length new <= length es)%nat.
Proof.
  revert w. induction es as [|e es IH]; intros w Hrest; cbv zeta.
  - cbn [replay foldl]. repeat match goal with |- _ /\ _ => split end;
      try reflexivity; try apply Hrest.
    exists []. cbn. repeat split; lia.
  - destruct (transact_at_rest e w Hrest)
      as (Hrest1 & Ho1 & Hp1 & Ha1 & Hr1 & Hr2 & new1 & Hl1 & Ht1 & Hn1 & Hlen1).
    specialize (IH _ Hrest1). cbv zeta in IH.
    destruct IH as (Hrest2 & Ho2 & Hp2 & Ha2 & Hr3 & Hr4 & new2 & Hl2 & Ht2 & Hn2 & Hlen2).
    unfold replay in *. cbn [foldl].
    split; [exact Hrest2|].
    split; [congruence|]. split; [congruence|]. split; [congruence|].
    split; [congruence|]. split; [congruence|].
    exists (new2 ++ new1). split; [rewrite Hl2, Hl1; now rewrite app_assoc|].
    assert (Hsum : logged_profit (new2 ++ new1) = logged_profit new2 + logged_profit new1).
    { clear. unfold logged_profit.
      induction new2 as [|[a m p q] l IHl]; cbn [app foldr]; [reflexivity|].
      rewrite IHl. lia. }
    rewrite Hsum, length_app. cbn [length]. repeat split; lia.
Qed.

End ContractRuns.

Section ContractRunWitness.
Import FlashArbitrage Mocks.

Lemma flashArbitrage_success_frame_witness :
  exists w',
    flashArbitrage (mockExternals 1000) 1 tokenA 10000 pathOut pathBack 0 genesis
    = Ok (tt, w')
    /\ entered (store w') = false /\ inFlashLoan (store w') = false
    /\ exists premium profit,
         0 < profit
         /\ totalProfits (store w') = totalProfits (store genesis) + profit
         /\ logs w' = FlashLoanExecuted tokenA 10000 profit premium :: logs genesis.
Proof.
  destruct (flashArbitrage (mockExternals 1000) 1 tokenA 10000 pathOut pathBack 0 genesis)
    as [[[] w']|f] eqn:Hrun; [|vm_compute in Hrun; discriminate].
  exists w'. split; [reflexivity|].
  apply flashArbitrage_success_frame in Hrun
    as (_ & _ & _ & _ & _ & _ & _ & _ & He & Hf & premium & profit & Hpos & _ & Ht & _ & Hl).
  split; [exact He|]. split; [exact Hf|].
  exists premium, profit. split; [exact Hpos|]. split; [exact Ht | exact Hl].
Defined.

(** A callback sent from outside, the owner's profitable call, and the
    owner's call that asks for more than the routers yield. *)
Definition threeTransactions : list entry :=
  [ ExecuteOperationCall 10 tokenA 10000 5 100 (Encoded pathOut pathBack 0);
    FlashArbitrageCall 1 tokenA 10000 pathOut pathBack 0;
    FlashArbitrageCall 1 tokenA 10000 pathOut pathBack 298 ].

Lemma replay_accounts_for_profits_witness :
  at_rest genesis
  /\ let w' := replay (mockExternals 1000) threeTransactions genesis in
     at_rest w'
     /\ owner (store w') = owner (store genesis)
     /\ paused (store w') = paused (store genesis)
     /\ aavePool (store w') = aavePool (store genesis)
     /\ router1 (store w') = router1 (store genesis)
     /\ router2 (store w') = router2 (store genesis)
     /\ exists new,
          logs w' = new ++ logs genesis
          /\ totalProfits (store w')
             = totalProfits (store genesis) + logged_profit new
          /\ totalProfits (store genesis) <= totalProfits (store w')
          /\ (length new <= length threeTransactions)%nat.
Proof.
  split; [split; reflexivity|].
  apply (replay_accounts_for_profits (mockExternals 1000) threeTransactions genesis).
  split; reflexivity.
Defined.

End ContractRunWitness.

(** * The Uniswap V3 scanner *)

Module UniswapV3Scanner.
Import Js.

(** What [getPoolData(poolAddress)] resolves to. *)
Record poolData : Type := {
  token0 : string;
  token1 : string;
  fee : Z;
  sqrtPriceX96 : Z;
  tick : Z;
  liquidity : Z
}.

(** What [quoteExactInput] resolves to. *)
Record quoted : Type := {
  amountOut : Z;
  sqrtPriceX96After : Z;
  gasEstimate : Z
}.

(** The fields [findArbitrageV3] adds once both quotes are in. *)
Record route : Type := {
  r_amountIn : Z;
  r_amountOut : Z;
  path : list string;
  pathReverse : list string;
  pool1 : string;
  pool2 : string;
  fee1 : Z;
  fee2 : Z;
  r_gasEstimate : Z;
  timestamp : Z
}.

(** The object [findArbitrageV3] resolves to: the two-field object of the
    early returns and of the [catch], or the full one. *)
Record arbitrage : Type := {
  profitable : bool;
  profit : Z;
  details : option route
}.

Definition nothing : arbitrage :=
  {| profitable := false; profit := 0; details := None |}.

Inductive protocol : Type := V3_V2 | V2_V3.

(** The object [findCrossProtocolArbitrage] resolves to; the full one
    carries [amountIn], [amountOut] and [protocol]. *)
Record crossed : Type := {
  c_profitable : bool;
  c_profit : Z;
  c_details : option (Z * Z * protocol)
}.

Definition nothing_crossed : crossed :=
  {| c_profitable := false; c_profit := 0; c_details := None |}.

(** The V2 pool as the caller hands it over. *)
Record v2PoolData : Type := {
  reserveIn : Z;
  reserveOut : Z
}.

(** An element of the list [filterProfitable] receives: the spread
    result and the pair it was found on. *)
Record opportunity : Type := {
  found : arbitrage;
  pairName : string
}.

(** [calculateV2AmountOut(amountIn, reserveIn, reserveOut)] *)
Definition calculateV2AmountOut (amountIn reserveIn reserveOut : Z) : result Z :=
  let amountInWithFee := amountIn * 997 in
  let numerator := amountInWithFee * reserveOut in
  let denominator := reserveIn * 1000 + amountInWithFee in
  bigint_div numerator denominator.

Section Scanner.

(** The pool contract's views, or a rejected call. *)
Variable getPoolData : string -> result poolData.

(** [quoter.quoteExactInputSingle.staticCall] on
    (tokenIn, tokenOut, amountIn, fee) with no price limit. *)
Variable quoteExactInputSingle : string -> string -> Z -> Z -> result quoted.

(** [Date.now()] *)
Variable now : Z.

(** [quoteExactInput(tokenIn, tokenOut, amountIn, fee)]: a failed quote
    is reported as zeros. *)
Definition quoteExactInput (tokenIn tokenOut : string) (amountIn fee : Z) : quoted :=
  match quoteExactInputSingle tokenIn tokenOut amountIn fee with
  | Return q => q
  | Throw _ => {| amountOut := 0; sqrtPriceX96After := 0; gasEstimate := 0 |}
  end.

(** [findArbitrageV3(pool1Address, pool2Address, tokenIn, amountIn)] *)
Definition findArbitrageV3 (pool1Address pool2Address tokenIn : string)
    (amountIn : Z) : arbitrage :=
  let attempt :=
    let* pool1Data := getPoolData pool1Address in
    let* pool2Data := getPoolData pool2Address in
    let isToken0_1 :=
      String.eqb (UniswapScanner.toLowerCase (token0 pool1Data))
                 (UniswapScanner.toLowerCase tokenIn) in
    let tokenOut := if isToken0_1 then token1 pool1Data else token0 pool1Data in
    let quote1 := quoteExactInput tokenIn tokenOut amountIn (fee pool1Data) in
    if amountOut quote1 =? 0 then Return nothing else
    let quote2 := quoteExactInput tokenOut tokenIn (amountOut quote1) (fee pool2Data) in
    if amountOut quote2 =? 0 then Return nothing else
    let profit := if amountIn <? amountOut quote2 then amountOut quote2 - amountIn else 0 in
    let profitable := 0 <? profit in
    Return {| profitable := profitable;
              profit := profit;
              details := Some {| r_amountIn := amountIn;
                                 r_amountOut := amountOut quote2;
                                 path := [tokenIn; tokenOut];
                                 pathReverse := [tokenOut; tokenIn];
                                 pool1 := pool1Address;
                                 pool2 := pool2Address;
                                 fee1 := fee pool1Data;
                                 fee2 := fee pool2Data;
                                 r_gasEstimate := gasEstimate quote1 + gasEstimate quote2;
                                 timestamp := now |} |} in
  match attempt with
  | Return r => r
  | Throw _ => nothing
  end.

(** [findCrossProtocolArbitrage(v3PoolAddress, v2PoolData, tokenIn,
    amountIn, v3ToV2)] *)
Definition findCrossProtocolArbitrage (v3PoolAddress : string) (v2 : v2PoolData)
    (tokenIn : string) (amountIn : Z) (v3ToV2 : bool) : crossed :=
  let finish (amountOut2 : Z) : crossed :=
    let profit := if amountIn <? amountOut2 then amountOut2 - amountIn else 0 in
    {| c_profitable := 0 <? profit;
       c_profit := profit;
       c_details := Some (amountIn, amountOut2, if v3ToV2 then V3_V2 else V2_V3) |} in
  let attempt :=
    let* v3Data := getPoolData v3PoolAddress in
    let isToken0 :=
      String.eqb (UniswapScanner.toLowerCase (token0 v3Data))
                 (UniswapScanner.toLowerCase tokenIn) in
    let tokenOut := if isToken0 then token1 v3Data else token0 v3Data in
    if v3ToV2 then
      let quote1 := quoteExactInput tokenIn tokenOut amountIn (fee v3Data) in
      if amountOut quote1 =? 0 then Return nothing_crossed else
      let* amountOut2 :=
        calculateV2AmountOut (amountOut quote1) (reserveIn v2) (reserveOut v2) in
      Return (finish amountOut2)
    else
      let* amountOut1 := calculateV2AmountOut amountIn (reserveIn v2) (reserveOut v2) in
      let quote2 := quoteExactInput tokenOut tokenIn amountOut1 (fee v3Data) in
      Return (finish (amountOut quote2)) in
  match attempt with
  | Return r => r
  | Throw _ => nothing_crossed
  end.

End Scanner.

(** [opp.gasEstimate || 300000n]: the estimate of the route when there is
    one and it is not [0n]. *)
Definition gas_or_default (opp : opportunity) : Z :=
  match details (found opp) with
  | Some r => if r_gasEstimate r =? 0 then 300000 else r_gasEstimate r
  | None => 300000
  end.

(** [filterProfitable(opportunities, minNetProfitEth)], with the parsed
    minimum in wei. *)
Definition filterProfitable (getFeeData : result ScannerRegistry.feeData)
    (opportunities : list opportunity) (minNetProfit : Z) : result (list opportunity) :=
  let* feeData := getFeeData in
  match ScannerRegistry.bigint_or (ScannerRegistry.maxFeePerGas feeData)
          (ScannerRegistry.gasPrice feeData) with
  | None => Return opportunities
  | Some gasPrice =>
      if gasPrice =? 0 then Return opportunities
      else
        Return (filter (fun opp =>
                  minNetProfit < profit (found opp) - gasPrice * gas_or_default opp)
                  opportunities)
  end.

End UniswapV3Scanner.

Section V3Facts.
Import Js UniswapV3Scanner.

Variable getPoolData : string -> result poolData.
Variable quoteExactInputSingle : string -> string -> Z -> Z -> result quoted.
Variable now : Z.

(** X25. [findArbitrageV3] never throws and never reports a loss: the
    profit is zero or positive, [profitable] says exactly that it is
    positive, and then both pools were read, both quotes came back
    non-zero, the amount out is the amount in plus the profit, and the
    two paths are each other's reverse, starting at the input token. A
    pool that cannot be read gives the bare unprofitable answer, and so
    does a quote that fails or is zero on the first hop. *)
Theorem findArbitrageV3_reports_gain_only (pool1Address pool2Address tokenIn : string)
    (amountIn : Z) :
  let r := findArbitrageV3 getPoolData quoteExactInputSingle now
             pool1Address pool2Address tokenIn amountIn in
  0 <= profit r
  /\ (profitable r = true <-> 0 < profit r)
  /\ (profitable r = true ->
      exists d p1 p2 q1 q2 tokenOut,
        details r = Some d
        /\ getPoolData pool1Address = Return p1 /\ getPoolData pool2Address = Return p2
        /\ quoteExactInputSingle tokenIn tokenOut amountIn (fee p1) = Return q1
        /\ quoteExactInputSingle tokenOut tokenIn (amountOut q1) (fee p2) = Return q2
        /\ amountOut q1 <> 0 /\ amountOut q2 <> 0
        /\ r_amountOut d = amountOut q2 /\ amountOut q2 = amountIn + profit r
        /\ path d = [tokenIn; tokenOut] /\ pathReverse d = rev (path d)
        /\ r_gasEstimate d = gasEstimate q1 + gasEstimate q2)
  /\ ((forall p, getPoolData pool1Address <> Return p)
      \/ (forall p, getPoolData pool2Address <> Return p) -> r = nothing)
  /\ ((forall tokenOut f q, quoteExactInputSingle tokenIn tokenOut amountIn f = Return q ->
                            amountOut q = 0) -> r = nothing).
Proof.
  cbv zeta. unfold findArbitrageV3.
  assert (Hbare : 0 <= profit nothing
            /\ (profitable nothing = true <-> 0 < profit nothing)
            /\ (profitable nothing = true ->
                exists d p1 p2 q1 q2 tokenOut,
                  details nothing = Some d
                  /\ getPoolData pool1Address = Return p1
                  /\ getPoolData pool2Address = Return p2
                  /\ quoteExactInputSingle tokenIn tokenOut amountIn (fee p1) = Return q1
                  /\ quoteExactInputSingle tokenOut tokenIn (amountOut q1) (fee p2)
                     = Return q2
                  /\ amountOut q1 <> 0 /\ amountOut q2 <> 0
                  /\ r_amountOut d = amountOut q2
                  /\ amountOut q2 = amountIn + profit nothing
                  /\ path d = [tokenIn; tokenOut] /\ pathReverse d = rev (path d)
                  /\ r_gasEstimate d = gasEstimate q1 + gasEstimate q2)).
  { cbn. split; [lia|]. split; [split; [discriminate | lia] | discriminate]. }
  destruct Hbare as (B1 & B2 & B3).
  destruct (getPoolData pool1Address) as [p1|e1]; cbn [Js.bind];
    [|repeat (split; try assumption); intros; reflexivity].
  destruct (getPoolData pool2Address) as [p2|e2]; cbn [Js.bind];
    [|repeat (split; try assumption); intros; reflexivity].
  set (tokenOut := if String.eqb _ _ then token1 p1 else token0 p1).
  unfold quoteExactInput.
  destruct (quoteExactInputSingle tokenIn tokenOut amountIn (fee p1)) as [q1|e] eqn:Hq1;
    cbn [amountOut Z.eqb];
    [|split; [assumption|]; split; [assumption|]; split; [assumption|];
      split; [intros [H|H]; [destruct (H p1) | destruct (H p2)]; reflexivity
             | intros; reflexivity]].
  destruct (Z.eqb_spec (amountOut q1) 0) as [Hz1|Hnz1];
    [split; [assumption|]; split; [assumption|]; split; [assumption|];
     split; [intros [H|H]; [destruct (H p1) | destruct (H p2)]; reflexivity
            | intros; reflexivity]|].
  destruct (quoteExactInputSingle tokenOut tokenIn (amountOut q1) (fee p2))
    as [q2|e] eqn:Hq2; cbn [amountOut Z.eqb];
    [|split; [assumption|]; split; [assumption|]; split; [assumption|];
      split; [intros [H|H]; [destruct (H p1) | destruct (H p2)]; reflexivity
             | intros Hall; exfalso; apply Hnz1; exact (Hall _ _ _ Hq1)]].
  destruct (Z.eqb_spec (amountOut q2) 0) as [Hz2|Hnz2];
    [split; [assumption|]; split; [assumption|]; split; [assumption|];
     split; [intros [H|H]; [destruct (H p1) | destruct (H p2)]; reflexivity
            | intros Hall; exfalso; apply Hnz1; exact (Hall _ _ _ Hq1)]|].
  clear B1 B2 B3. cbn [profitable profit details].
  destruct (Z.ltb_spec amountIn (amountOut q2)) as [Hgt|Hle].
  - split; [lia|]. split; [rewrite Z.ltb_lt; tauto|]. split; [|split].
    + intros _. eexists _, p1, p2, q1, q2, tokenOut.
      split; [reflexivity|]. cbn. repeat split; try assumption; try reflexivity; lia.
    + intros [H|H]; [destruct (H p1) | destruct (H p2)]; reflexivity.
    + intros Hall. exfalso. apply Hnz1. exact (Hall _ _ _ Hq1).
  - split; [lia|]. split; [cbn; split; [discriminate | lia]|]. split; [|split].
    + cbn. discriminate.
    + intros [H|H]; [destruct (H p1) | destruct (H p2)]; reflexivity.
    + intros Hall. exfalso. apply Hnz1. exact (Hall _ _ _ Hq1).
Qed.

(** X26. [findCrossProtocolArbitrage] never throws and never reports a
    loss, in either direction. Going through V3 first, a zero or failed
    V3 quote gives the bare unprofitable answer, and on a V2 pool with a
    positive input reserve the profit reported stays below what that
    pool holds of the output token. A V2 pool whose formula divides by
    zero gives the bare unprofitable answer as well. *)
Theorem findCrossProtocolArbitrage_reports_gain_only (v3PoolAddress tokenIn : string)
    (v2 : v2PoolData) (amountIn : Z) (v3ToV2 : bool) :
  let r := findCrossProtocolArbitrage getPoolData quoteExactInputSingle
             v3PoolAddress v2 tokenIn amountIn v3ToV2 in
  0 <= c_profit r
  /\ (c_profitable r = true <-> 0 < c_profit r)
  /\ (forall a b p, c_details r = Some (a, b, p) ->
        a = amountIn /\ p = (if v3ToV2 then V3_V2 else V2_V3)
        /\ c_profit r = Z.max 0 (b - amountIn))
  /\ (c_profitable r = true -> v3ToV2 = true ->
      0 <= amountIn -> 0 < reserveIn v2 -> 0 <= reserveOut v2 ->
      (forall tokenOut f q, quoteExactInputSingle tokenIn tokenOut amountIn f = Return q ->
                            0 <= amountOut q) ->
      c_profit r < reserveOut v2)
  /\ ((forall p, getPoolData v3PoolAddress <> Return p) -> r = nothing_crossed)
  /\ (v3ToV2 = false -> reserveIn v2 = 0 -> amountIn = 0 -> r = nothing_crossed).
Proof.
  cbv zeta. unfold findCrossProtocolArbitrage, quoteExactInput.
  assert (Hbare : 0 <= c_profit nothing_crossed
            /\ (c_profitable nothing_crossed = true <-> 0 < c_profit nothing_crossed)
            /\ (forall a b p, c_details nothing_crossed = Some (a, b, p) ->
                  a = amountIn /\ p = (if v3ToV2 then V3_V2 else V2_V3)
                  /\ c_profit nothing_crossed = Z.max 0 (b - amountIn))
            /\ (c_profitable nothing_crossed = true -> v3ToV2 = true ->
                0 <= amountIn -> 0 < reserveIn v2 -> 0 <= reserveOut v2 ->
                (forall tokenOut f q,
                   quoteExactInputSingle tokenIn tokenOut amountIn f = Return q ->
                   0 <= amountOut q) ->
                c_profit nothing_crossed < reserveOut v2)).
  { cbn. split; [lia|]. split; [split; [discriminate | lia]|].
    split; discriminate. }
  destruct Hbare as (B1 & B2 & B3 & B4).
  destruct (getPoolData v3PoolAddress) as [p|e]; cbn [Js.bind];
    [|split; [assumption|]; split; [assumption|]; split; [assumption|];
      split; [assumption|]; split; intros; reflexivity].
  set (tokenOut := if String.eqb _ _ then token1 p else token0 p).
  destruct v3ToV2.
  - destruct (quoteExactInputSingle tokenIn tokenOut amountIn (fee p)) as [q1|e] eqn:Hq1;
      cbn [amountOut Z.eqb];
      [|split; [assumption|]; split; [assumption|]; split; [assumption|];
        split; [assumption|]; split; [intros H; destruct (H p); reflexivity
                                     | discriminate]].
    destruct (Z.eqb_spec (amountOut q1) 0) as [Hz|Hnz];
      [split; [assumption|]; split; [assumption|]; split; [assumption|];
       split; [assumption|]; split; [intros H; destruct (H p); reflexivity
                                    | discriminate]|].
    unfold calculateV2AmountOut, bigint_div.
    destruct (Z.eqb_spec (reserveIn v2 * 1000 + amountOut q1 * 997) 0) as [Hd|Hd];
      cbn [Js.bind];
      [split; [assumption|]; split; [assumption|]; split; [assumption|];
       split; [assumption|]; split; [intros H; destruct (H p); reflexivity
                                    | discriminate]|].
    clear B1 B2 B3 B4. cbn [c_profitable c_profit c_details].
    set (out2 := Z.quot _ _).
    split; [destruct (Z.ltb_spec amountIn out2); lia|].
    split; [rewrite Z.ltb_lt; tauto|].
    split; [|split; [|split]].
    + intros a b pr [= <- <- <-]. split; [reflexivity|]. split; [reflexivity|].
      destruct (Z.ltb_spec amountIn out2); lia.
    + intros Hprof _ Ha Hin Hout Hq. specialize (Hq _ _ _ Hq1).
      apply Z.ltb_lt in Hprof.
      destruct (Z.eq_dec (reserveOut v2) 0) as [Hzero|Hne].
      * exfalso. subst out2. rewrite Hzero, Z.mul_0_r, Z.quot_0_l in Hprof by lia.
        destruct (Z.ltb_spec amountIn 0); lia.
      * assert (Hlt : out2 < reserveOut v2).
        { subst out2. rewrite Z.quot_div_nonneg by nia.
          apply Z.div_lt_upper_bound; nia. }
        destruct (Z.ltb_spec amountIn out2); lia.
    + intros H. destruct (H p). reflexivity.
    + discriminate.
  - unfold calculateV2AmountOut, bigint_div.
    destruct (Z.eqb_spec (reserveIn v2 * 1000 + amountIn * 997) 0) as [Hd|Hd];
      cbn [Js.bind];
      [split; [assumption|]; split; [assumption|]; split; [assumption|];
       split; [assumption|]; split; [intros H; destruct (H p); reflexivity
                                    | intros; reflexivity]|].
    clear B1 B2 B3 B4. cbn [c_profitable c_profit c_details].
    set (out2 := amountOut _).
    split; [destruct (Z.ltb_spec amountIn out2); lia|].
    split; [rewrite Z.ltb_lt; tauto|].
    split; [|split; [|split]].
    + intros a b pr [= <- <- <-]. split; [reflexivity|]. split; [reflexivity|].
      destruct (Z.ltb_spec amountIn out2); lia.
    + discriminate.
    + intros H. destruct (H p). reflexivity.
    + intros _ Hz Ha. exfalso. apply Hd. rewrite Hz, Ha. reflexivity.
Qed.

End V3Facts.

Section V3FilterFacts.
Import Js UniswapV3Scanner.

(** X27. The V3 [filterProfitable] filters only when the provider
    reports a gas price. Without one it hands back the list it was
    given, untouched, whatever the minimum. With one it keeps, in order,
    exactly the opportunities whose profit exceeds the price times their
    own gas estimate (300000 when the estimate is missing or zero) by
    more than the minimum. When the fee data cannot be read it throws. *)
Theorem filterProfitable_v3_needs_gas_price (getFeeData : result ScannerRegistry.feeData)
    (opportunities : list opportunity) (minNetProfit : Z) :
  match getFeeData with
  | Throw e => filterProfitable getFeeData opportunities minNetProfit = Throw e
  | Return fees =>
      let price := ScannerRegistry.bigint_or (ScannerRegistry.maxFeePerGas fees)
                     (ScannerRegistry.gasPrice fees) in
      (price = None \/ price = Some 0 ->
       filterProfitable getFeeData opportunities minNetProfit = Return opportunities)
      /\ (forall p, price = Some p -> p <> 0 ->
          exists kept,
            filterProfitable getFeeData opportunities minNetProfit = Return kept
            /\ kept `sublist_of` opportunities
            /\ forall o, o ∈ kept <->
                 o ∈ opportunities
                 /\ minNetProfit < profit (found o) - p * gas_or_default o)
  end.
Proof.
  destruct getFeeData as [fees|e]; [|reflexivity].
  cbv zeta. unfold filterProfitable. cbn [Js.bind].
  destruct (ScannerRegistry.bigint_or _ _) as [p|]; split.
  - intros [H|[= ->]]; [discriminate | reflexivity].
  - intros q [= <-] Hnz. destruct (Z.eqb_spec p 0); [contradiction|].
    eexists. split; [reflexivity|]. split; [apply sublist_filter|].
    intros o. rewrite list_elem_of_filter. tauto.
  - reflexivity.
  - discriminate.
Qed.

End V3FilterFacts.

(** * The mock AMM of the legacy path *)

Module MockAMM.
Import FlashArbitrage.

(** The pool's storage. *)
Record t : Type := {
  token0 : address;
  token1 : address;
  reserve0 : Z;
  reserve1 : Z
}.

Definition obind {A B} (m : outcome A) (k : A -> outcome B) : outcome B :=
  match m with
  | Ok a => k a
  | Revert f => Revert f
  end.

(** Solidity 0.8 arithmetic on uint256. *)
Definition uint (z : Z) : outcome Z :=
  if in_uint256 z then Ok z else Revert (Panic 17).

(** [setReserves(_reserve0, _reserve1)] *)
Definition setReserves (_reserve0 _reserve1 : Z) (p : t) : t :=
  {| token0 := token0 p; token1 := token1 p;
     reserve0 := _reserve0; reserve1 := _reserve1 |}.

(** [getReserves()] *)
Definition getReserves (p : t) : Z * Z := (reserve0 p, reserve1 p).

(** [_getAmountOut(amountIn, reserveIn, reserveOut)] *)
Definition _getAmountOut (amountIn reserveIn reserveOut : Z) : outcome Z :=
  if (amountIn =? 0) || (reserveIn =? 0) || (reserveOut =? 0) then Ok 0
  else
    obind (uint (amountIn * reserveOut)) (fun numerator =>
    obind (uint (reserveIn + amountIn)) (fun denominator =>
    Ok (numerator / denominator))).

Section Pool.

(** The token ledger, and the two token calls the pool makes; [None] is a
    call that reverts. The values the tokens return are not looked at. *)
Context {L : Type}.
Variable transferFrom : address -> address -> address -> Z -> L -> option L.
Variable transfer : address -> address -> address -> Z -> L -> option L.

(** The pool's own address. *)
Variable self : address.

Definition token_call (f : L -> option L) (l : L) : outcome L :=
  match f l with
  | Some l' => Ok l'
  | None => Revert CallReverted
  end.

(** [swapExactTokensForTokens(amountIn, tokenIn, to)] called by [sender]:
    the amount paid out, the pool and the ledger afterwards. *)
Definition swapExactTokensForTokens (sender : address) (amountIn : Z)
    (tokenIn to : address) (p : t) (l : L) : outcome (Z * t * L) :=
  if negb (0 <? amountIn) then Revert (Error "amountIn==0")
  else if tokenIn =? token0 p then
    let tokenOut := token1 p in
    obind (_getAmountOut amountIn (reserve0 p) (reserve1 p)) (fun amountOut =>
    obind (token_call (transferFrom tokenIn sender self amountIn) l) (fun l1 =>
    obind (uint (reserve0 p + amountIn)) (fun r0 =>
    obind (uint (reserve1 p - amountOut)) (fun r1 =>
    obind (token_call (transfer tokenOut self to amountOut) l1) (fun l2 =>
    Ok (amountOut,
        {| token0 := token0 p; token1 := token1 p; reserve0 := r0; reserve1 := r1 |},
        l2))))))
  else if tokenIn =? token1 p then
    let tokenOut := token0 p in
    obind (_getAmountOut amountIn (reserve1 p) (reserve0 p)) (fun amountOut =>
    obind (token_call (transferFrom tokenIn sender self amountIn) l) (fun l1 =>
    obind (uint (reserve1 p + amountIn)) (fun r1 =>
    obind (uint (reserve0 p - amountOut)) (fun r0 =>
    obind (token_call (transfer tokenOut self to amountOut) l1) (fun l2 =>
    Ok (amountOut,
        {| token0 := token0 p; token1 := token1 p; reserve0 := r0; reserve1 := r1 |},
        l2))))))
  else Revert (Error "tokenIn not supported").

End Pool.

End MockAMM.

Section MockAMMFacts.
Import FlashArbitrage MockAMM.

Lemma obind_Ok {A B} (m : outcome A) (k : A -> outcome B) (b : B) :
  obind m k = Ok b -> exists a, m = Ok a /\ k a = Ok b.
Proof. destruct m as [a|f]; cbn; [eauto | discriminate]. Qed.

Lemma uint_Ok (z z' : Z) : uint z = Ok z' -> z' = z /\ 0 <= z <= MAX_UINT256.
Proof.
  unfold uint, in_uint256.
  destruct (Z.leb_spec 0 z), (Z.leb_spec z MAX_UINT256); cbn; try discriminate.
  intros [= <-]. lia.
Qed.

Lemma uint_in_range (z : Z) : 0 <= z <= MAX_UINT256 -> uint z = Ok z.
Proof.
  intros [H0 H1]. unfold uint, in_uint256.
  destruct (Z.leb_spec 0 z), (Z.leb_spec z MAX_UINT256); cbn; done || lia.
Qed.

(** The quote as a number. *)
Definition quoted (amountIn reserveIn reserveOut : Z) : Z :=
  if (amountIn =? 0) || (reserveIn =? 0) || (reserveOut =? 0) then 0
  else amountIn * reserveOut / (reserveIn + amountIn).

Lemma getAmountOut_Ok (amountIn reserveIn reserveOut out : Z) :
  0 <= amountIn -> 0 <= reserveIn -> 0 <= reserveOut ->
  _getAmountOut amountIn reserveIn reserveOut = Ok out ->
  out = quoted amountIn reserveIn reserveOut
  /\ 0 <= out <= reserveOut
  /\ (0 < reserveOut -> out < reserveOut)
  /\ out * (reserveIn + amountIn) <= amountIn * reserveOut.
Proof.
  intros Ha Hin Hout. unfold _getAmountOut, quoted.
  destruct (Z.eqb_spec amountIn 0) as [->|Hna]; cbn [orb].
  { intros [= <-]. lia. }
  destruct (Z.eqb_spec reserveIn 0) as [->|Hni]; cbn [orb].
  { intros [= <-]. lia. }
  destruct (Z.eqb_spec reserveOut 0) as [->|Hno]; cbn [orb].
  { intros [= <-]. lia. }
  intros H. apply obind_Ok in H as (n & Hn & H). apply uint_Ok in Hn as (-> & _).
  apply obind_Ok in H as (d & Hd & H). apply uint_Ok in Hd as (-> & _).
  injection H as <-. split; [reflexivity|].
  assert (Hdiv : 0 <= amountIn * reserveOut / (reserveIn + amountIn))
    by (apply Z.div_pos; nia).
  assert (Hlt : amountIn * reserveOut / (reserveIn + amountIn) < reserveOut)
    by (apply Z.div_lt_upper_bound; nia).
  split; [lia|]. split; [intros _; exact Hlt|].
  rewrite Z.mul_comm. apply Z.mul_div_le. lia.
Qed.

Context {L : Type}.
Variable transferFrom : address -> address -> address -> Z -> L -> option L.
Variable transfer : address -> address -> address -> Z -> L -> option L.
Variable self : address.

(** The reserve of the token going in, and of the token coming out. *)
Definition reserve_in (p : t) (tokenIn : address) : Z :=
  if tokenIn =? token0 p then reserve0 p else reserve1 p.

Definition reserve_out (p : t) (tokenIn : address) : Z :=
  if tokenIn =? token0 p then reserve1 p else reserve0 p.

Lemma swap_Ok_inv (sender : address) (amountIn : Z) (tokenIn to : address)
    (p p' : t) (l l' : L) (out : Z) :
  0 <= reserve0 p -> 0 <= reserve1 p ->
  swapExactTokensForTokens transferFrom transfer self sender amountIn tokenIn to p l
  = Ok (out, p', l') ->
  0 < amountIn
  /\ (tokenIn = token0 p \/ tokenIn = token1 p)
  /\ out = quoted amountIn (reserve_in p tokenIn) (reserve_out p tokenIn)
  /\ 0 <= out <= reserve_out p tokenIn
  /\ (0 < reserve_out p tokenIn -> out < reserve_out p tokenIn)
  /\ out * (reserve_in p tokenIn + amountIn) <= amountIn * reserve_out p tokenIn
  /\ token0 p' = token0 p /\ token1 p' = token1 p
  /\ reserve_in p' tokenIn = reserve_in p tokenIn + amountIn
  /\ reserve_out p' tokenIn = reserve_out p tokenIn - out
  /\ reserve_in p' tokenIn <= MAX_UINT256
  /\ exists l1,
       transferFrom tokenIn sender self amountIn l = Some l1
       /\ transfer (if tokenIn =? token0 p then token1 p else token0 p) self to out l1
          = Some l'.
Proof.
  intros H0 H1. unfold swapExactTokensForTokens, reserve_in, reserve_out.
  destruct (Z.ltb_spec 0 amountIn) as [Hpos|]; cbn [negb]; [|discriminate].
  destruct (Z.eqb_spec tokenIn (token0 p)) as [Ht0|Hn0].
  - intros H. apply obind_Ok in H as (out' & Hq & H).
    apply getAmountOut_Ok in Hq as (Hv & Hb & Hlt & Hk); try lia.
    apply obind_Ok in H as (l1 & Hl1 & H).
    unfold token_call in Hl1.
    destruct (transferFrom tokenIn sender self amountIn l) as [l1'|] eqn:Htf;
      [|discriminate]. injection Hl1 as <-.
    apply obind_Ok in H as (r0 & Hr0 & H). apply uint_Ok in Hr0 as (-> & Hr0).
    apply obind_Ok in H as (r1 & Hr1 & H). apply uint_Ok in Hr1 as (-> & Hr1).
    apply obind_Ok in H as (l2 & Hl2 & H).
    unfold token_call in Hl2.
    destruct (transfer (token1 p) self to out' l1') as [l2'|] eqn:Htr; [|discriminate].
    injection Hl2 as <-. injection H as <- <- <-.
    cbn [token0 token1 reserve0 reserve1].
    destruct (Z.eqb_spec tokenIn (token0 p)); [|contradiction].
    repeat match goal with |- _ /\ _ => split end; try lia; try reflexivity; auto.
    exists l1'. split; [reflexivity | exact Htr].
  - destruct (Z.eqb_spec tokenIn (token1 p)) as [Ht1|Hn1]; [|discriminate].
    intros H. apply obind_Ok in H as (out' & Hq & H).
    apply getAmountOut_Ok in Hq as (Hv & Hb & Hlt & Hk); try lia.
    apply obind_Ok in H as (l1 & Hl1 & H).
    unfold token_call in Hl1.
    destruct (transferFrom tokenIn sender self amountIn l) as [l1'|] eqn:Htf;
      [|discriminate]. injection Hl1 as <-.
    apply obind_Ok in H as (r1 & Hr1 & H). apply uint_Ok in Hr1 as (-> & Hr1).
    apply obind_Ok in H as (r0 & Hr0 & H). apply uint_Ok in Hr0 as (-> & Hr0).
    apply obind_Ok in H as (l2 & Hl2 & H).
    unfold token_call in Hl2.
    destruct (transfer (token0 p) self to out' l1') as [l2'|] eqn:Htr; [|discriminate].
    injection Hl2 as <-. injection H as <- <- <-.
    cbn [token0 token1 reserve0 reserve1].
    destruct (Z.eqb_spec tokenIn (token0 p)); [contradiction|].
    repeat match goal with |- _ /\ _ => split end; try lia; try reflexivity; auto.
    exists l1'. split; [reflexivity | exact Htr].
Qed.

(** X28. A swap on the mock AMM. It reverts with "amountIn==0" on a
    zero amount and with "tokenIn not supported" on a token the pool
    does not hold. When it returns, it paid out the constant-product
    quote without fee (nothing at all on a pool with an empty side,
    though the input is still taken), never more than the reserve and
    strictly less than a positive one, so the reserve subtraction cannot
    underflow; the input reserve grew by the amount in, the output
    reserve shrank by the amount out, and the product of the reserves
    did not decrease. It does return whenever the two token calls go
    through and the arithmetic stays within uint256. *)
Theorem mock_amm_swap_keeps_product (sender : address) (amountIn : Z)
    (tokenIn to : address) (p : t) (l : L) :
  0 <= reserve0 p <= MAX_UINT256 -> 0 <= reserve1 p <= MAX_UINT256 ->
  0 <= amountIn <= MAX_UINT256 ->
  let swap := swapExactTokensForTokens transferFrom transfer self sender amountIn
                tokenIn to p l in
  (amountIn = 0 -> swap = Revert (Error "amountIn==0"))
  /\ (0 < amountIn -> tokenIn <> token0 p -> tokenIn <> token1 p ->
      swap = Revert (Error "tokenIn not supported"))
  /\ (forall out p' l', swap = Ok (out, p', l') ->
      out = quoted amountIn (reserve_in p tokenIn) (reserve_out p tokenIn)
      /\ 0 <= out <= reserve_out p tokenIn
      /\ (0 < reserve_out p tokenIn -> out < reserve_out p tokenIn)
      /\ reserve_in p' tokenIn = reserve_in p tokenIn + amountIn
      /\ reserve_out p' tokenIn = reserve_out p tokenIn - out
      /\ reserve0 p * reserve1 p <= reserve0 p' * reserve1 p'
      /\ 0 <= reserve0 p' <= MAX_UINT256 /\ 0 <= reserve1 p' <= MAX_UINT256)
  /\ (0 < amountIn -> tokenIn = token0 p \/ tokenIn = token1 p ->
      amountIn * reserve_out p tokenIn <= MAX_UINT256 ->
      reserve_in p tokenIn + amountIn <= MAX_UINT256 ->
      (forall a l0, exists l1, transferFrom tokenIn sender self a l0 = Some l1) ->
      (forall tok a l0, exists l1, transfer tok self to a l0 = Some l1) ->
      exists out p' l', swap = Ok (out, p', l')).
Proof.
  intros Hr0 Hr1 Ha. cbv zeta. split; [|split; [|split]].
  - intros ->. reflexivity.
  - intros Hpos Hn0 Hn1. unfold swapExactTokensForTokens.
    destruct (Z.ltb_spec 0 amountIn); [|lia]. cbn [negb].
    destruct (Z.eqb_spec tokenIn (token0 p)); [contradiction|].
    destruct (Z.eqb_spec tokenIn (token1 p)); [contradiction | reflexivity].
  - intros out p' l' H.
    apply swap_Ok_inv in H
      as (Hpos & Htok & Hv & Hb & Hlt & Hk & Ht0 & Ht1 & Hin & Hout & Hmax & _); try lia.
    split; [exact Hv|]. split; [exact Hb|]. split; [exact Hlt|].
    split; [exact Hin|]. split; [exact Hout|].
    unfold reserve_in, reserve_out in *. rewrite Ht0 in Hin, Hout, Hmax.
    destruct (Z.eqb_spec tokenIn (token0 p)); cbv iota in *;
      (split; [rewrite Hin, Hout; nia | lia]).
  - intros Hpos Htok Hmul Hadd Htf Htr. unfold swapExactTokensForTokens.
    destruct (Z.ltb_spec 0 amountIn); [|lia]. cbn [negb].
    unfold reserve_in, reserve_out in *.
    destruct (Z.eqb_spec tokenIn (token0 p)) as [E0|N0].
    + destruct (_getAmountOut amountIn (reserve0 p) (reserve1 p)) as [out|f] eqn:Hq.
      2:{ exfalso. unfold _getAmountOut in Hq.
          destruct (_ || _); [discriminate|].
          rewrite uint_in_range in Hq
            by (split; [apply Z.mul_nonneg_nonneg; lia | lia]).
          cbn [obind] in Hq. rewrite uint_in_range in Hq by lia. discriminate. }
      apply getAmountOut_Ok in Hq as (_ & Hb & _ & _); try lia.
      cbn [obind]. unfold token_call.
      destruct (Htf amountIn l) as [l1 ->]. cbn [obind].
      rewrite uint_in_range by lia. cbn [obind].
      rewrite uint_in_range by lia. cbn [obind].
      destruct (Htr (token1 p) out l1) as [l2 ->]. cbn [obind]. eauto.
    + destruct Htok as [|E1]; [contradiction|].
      destruct (Z.eqb_spec tokenIn (token1 p)); [|contradiction].
      destruct (_getAmountOut amountIn (reserve1 p) (reserve0 p)) as [out|f] eqn:Hq.
      2:{ exfalso. unfold _getAmountOut in Hq.
          destruct (_ || _); [discriminate|].
          rewrite uint_in_range in Hq
            by (split; [apply Z.mul_nonneg_nonneg; lia | lia]).
          cbn [obind] in Hq. rewrite uint_in_range in Hq by lia. discriminate. }
      apply getAmountOut_Ok in Hq as (_ & Hb & _ & _); try lia.
      cbn [obind]. unfold token_call.
      destruct (Htf amountIn l) as [l1 ->]. cbn [obind].
      rewrite uint_in_range by lia. cbn [obind].
      rewrite uint_in_range by lia. cbn [obind].
      destruct (Htr (token0 p) out l1) as [l2 ->]. cbn [obind]. eauto.
Qed.

(** X29. There and back through the same mock pool never returns more
    than went in: if a swap of [a] of one token pays [b] of the other
    and swapping that [b] back pays [a'], then [a' <= a], and the pool
    holds at least what it held of both tokens. A first leg that pays
    nothing cannot be swapped back at all. *)
Theorem mock_amm_round_trip_loses (sender to : address) (a b a' : Z)
    (tokenIn tokenBack : address) (p p1 p2 : t) (l l1 l2 : L) :
  0 <= reserve0 p <= MAX_UINT256 -> 0 <= reserve1 p <= MAX_UINT256 ->
  token0 p <> token1 p ->
  tokenBack = (if tokenIn =? token0 p then token1 p else token0 p) ->
  swapExactTokensForTokens transferFrom transfer self sender a tokenIn to p l
  = Ok (b, p1, l1) ->
  swapExactTokensForTokens transferFrom transfer self sender b tokenBack to p1 l1
  = Ok (a', p2, l2) ->
  0 < b /\ 0 <= a' <= a
  /\ reserve0 p <= reserve0 p2 /\ reserve1 p <= reserve1 p2.
Proof.
  intros Hr0 Hr1 Hdiff Hback H1 H2.
  apply swap_Ok_inv in H1
    as (Hpos & Htok & Hv & Hb & Hlt & Hk & Ht0 & Ht1 & Hin & Hout & Hmax & _); try lia.
  assert (Hr0' : 0 <= reserve0 p1 /\ 0 <= reserve1 p1).
  { unfold reserve_in, reserve_out in *.
    destruct (Z.eqb_spec tokenIn (token0 p)); rewrite ?Ht0 in *;
      destruct (Z.eqb_spec tokenIn (token0 p)); try contradiction; lia. }
  apply swap_Ok_inv in H2
    as (Hpos2 & _ & Hv2 & Hb2 & _ & Hk2 & Ht0' & Ht1' & Hin2 & Hout2 & _ & _); try lia.
  unfold reserve_in, reserve_out in *. rewrite ?Ht0, ?Ht1 in *.
  rewrite Ht0' in Hin2, Hout2.
  destruct (Z.eqb_spec tokenIn (token0 p)) as [E0|N0].
  - subst tokenBack.
    destruct (Z.eqb_spec (token1 p) (token0 p)) as [E|_]; [congruence|].
    rewrite Hin, Hout in *.
    split; [lia|].
    assert (Ha' : a' <= a).
    { destruct (Z.le_gt_cases a' a) as [|Hgt]; [assumption|]. exfalso.
      replace (reserve1 p - b + b) with (reserve1 p) in Hk2 by lia. nia. }
    repeat split; lia.
  - destruct Htok as [|E1]; [contradiction|]. subst tokenBack.
    rewrite Z.eqb_refl in *.
    rewrite Hin, Hout in *.
    split; [lia|].
    assert (Ha' : a' <= a).
    { destruct (Z.le_gt_cases a' a) as [|Hgt]; [assumption|]. exfalso.
      replace (reserve0 p - b + b) with (reserve0 p) in Hk2 by lia. nia. }
    repeat split; lia.
Qed.

End MockAMMFacts.

Section MockAMMWitness.
Import FlashArbitrage MockAMM.

(** A pool of tokens 201 and 202 holding 1000 of each, with tokens that
    let every transfer through. *)
Definition evenPool : t :=
  {| token0 := 201; token1 := 202; reserve0 := 1000; reserve1 := 1000 |}.

Definition anyTransferFrom (token from to : address) (amount : Z) (l : unit)
    : option unit := Some l.

Definition anyTransfer (token from to : address) (amount : Z) (l : unit)
    : option unit := Some l.

Lemma mock_amm_swap_keeps_product_witness :
  exists out p',
    swapExactTokensForTokens anyTransferFrom anyTransfer 300 1 100 201 1 evenPool tt
    = Ok (out, p', tt)
    /\ out = 90
    /\ reserve0 evenPool * reserve1 evenPool <= reserve0 p' * reserve1 p'.
Proof.
  destruct (mock_amm_swap_keeps_product anyTransferFrom anyTransfer 300 1 100 201 1
              evenPool tt) as (_ & _ & Hok & _);
    try (vm_compute; split; discriminate).
  eexists _, _. split; [reflexivity|].
  destruct (Hok _ _ _ eq_refl) as (Hv & _ & _ & _ & _ & Hk & _).
  split; [exact Hv | exact Hk].
Defined.

Lemma mock_amm_round_trip_loses_witness :
  exists b a' p1 p2,
    swapExactTokensForTokens anyTransferFrom anyTransfer 300 1 100 201 1 evenPool tt
    = Ok (b, p1, tt)
    /\ swapExactTokensForTokens anyTransferFrom anyTransfer 300 1 b 202 1 p1 tt
       = Ok (a', p2, tt)
    /\ 0 < b /\ 0 <= a' <= 100
    /\ reserve0 evenPool <= reserve0 p2 /\ reserve1 evenPool <= reserve1 p2.
Proof.
  eexists _, _, _, _. split; [reflexivity|]. split; [reflexivity|].
  eapply (mock_amm_round_trip_loses anyTransferFrom anyTransfer 300 1 1 100 _ _
            201 202 evenPool _ _ tt tt tt);
    try reflexivity; try (vm_compute; split; discriminate); try discriminate.
Defined.

End MockAMMWitness.

(** * The emergency pause *)

Module EmergencyStop.
Import FlashArbitrage.

(** The events of the pause functions: the two of [Pausable] and the
    contract's own two. *)
Inductive notice : Type :=
| Paused (account : address)
| Unpaused (account : address)
| EmergencyPause (by_ : address) (reason : string)
| EmergencyUnpause (by_ : address).

Definition set_paused (b : bool) (s : storage) : storage :=
  {| owner := owner s; paused := b; entered := entered s;
     totalProfits := totalProfits s; aavePool := aavePool s;
     router1 := router1 s; router2 := router2 s; inFlashLoan := inFlashLoan s |}.

(** [emergencyPause(reason)] called by [sender]: the storage afterwards
    and the events emitted, in order. [_pause] is [whenNotPaused]. *)
Definition emergencyPause (sender : address) (reason : string) (s : storage)
    : outcome (storage * list notice) :=
  if negb (owner s =? sender) then Revert (Error "Ownable: caller is not the owner")
  else if paused s then Revert (Error "Pausable: paused")
  else Ok (set_paused true s, [Paused sender; EmergencyPause sender reason]).

(** [emergencyUnpause()] called by [sender]. [_unpause] is [whenPaused]. *)
Definition emergencyUnpause (sender : address) (s : storage)
    : outcome (storage * list notice) :=
  if negb (owner s =? sender) then Revert (Error "Ownable: caller is not the owner")
  else if negb (paused s) then Revert (Error "Pausable: not paused")
  else Ok (set_paused false s, [Unpaused sender; EmergencyUnpause sender]).

End EmergencyStop.

Section EmergencyStopFacts.
Import FlashArbitrage EmergencyStop.

Context {V : Type} (E : externals V).

(** The world with another storage. *)
Definition with_store (w : world V) (s : storage) : world V :=
  {| store := s; ext := ext w; logs := logs w |}.

(** X30. The emergency stop. Only the owner can pause or unpause. The
    owner's pause of a running contract sets the pause flag and nothing
    else, and emits [Paused] and then [EmergencyPause] with the reason;
    from then on [flashArbitrage] returns for no caller and no
    arguments, and reverts with "Pausable: paused" for the owner.
    Pausing again reverts, as does unpausing a contract that is not
    paused. The owner's unpause gives back exactly the storage there was
    before the pause. *)
Theorem pause_blocks_until_unpause (sender : address) (reason : string) (w : world V) :
  (sender <> owner (store w) ->
   emergencyPause sender reason (store w)
   = Revert (Error "Ownable: caller is not the owner")
   /\ emergencyUnpause sender (store w)
      = Revert (Error "Ownable: caller is not the owner"))
  /\ (sender = owner (store w) -> paused (store w) = true ->
      emergencyPause sender reason (store w) = Revert (Error "Pausable: paused"))
  /\ (sender = owner (store w) -> paused (store w) = false ->
      emergencyUnpause sender (store w) = Revert (Error "Pausable: not paused"))
  /\ (sender = owner (store w) -> paused (store w) = false ->
      exists s',
        emergencyPause sender reason (store w)
        = Ok (s', [Paused sender; EmergencyPause sender reason])
        /\ paused s' = true /\ owner s' = owner (store w)
        /\ totalProfits s' = totalProfits (store w)
        /\ (forall caller asset amount path1 path2 minProfit,
              exists f,
                flashArbitrage E caller asset amount path1 path2 minProfit
                  (with_store w s') = Revert f)
        /\ (entered (store w) = false ->
            forall asset amount path1 path2 minProfit,
              flashArbitrage E sender asset amount path1 path2 minProfit
                (with_store w s') = Revert (Error "Pausable: paused"))
        /\ emergencyPause sender reason s' = Revert (Error "Pausable: paused")
        /\ emergencyUnpause sender s'
           = Ok (store w, [Unpaused sender; EmergencyUnpause sender])).
Proof.
  split; [|split; [|split]].
  - intros Hne. unfold emergencyPause, emergencyUnpause.
    destruct (Z.eqb_spec (owner (store w)) sender); [congruence|]. split; reflexivity.
  - intros -> Hp. unfold emergencyPause. now rewrite Z.eqb_refl, Hp.
  - intros -> Hp. unfold emergencyUnpause. now rewrite Z.eqb_refl, Hp.
  - intros -> Hp. exists (set_paused true (store w)).
    unfold emergencyPause, emergencyUnpause. cbn [set_paused owner paused negb].
    rewrite Z.eqb_refl, Hp. cbn [negb].
    split; [reflexivity|]. split; [reflexivity|]. split; [reflexivity|].
    split; [reflexivity|]. split; [|split; [|split]].
    + intros caller asset amount path1 path2 minProfit.
      destruct (flashArbitrage E caller asset amount path1 path2 minProfit
                  (with_store w (set_paused true (store w)))) as [[u w']|f] eqn:Hrun;
        [|eauto].
      apply flashArbitrage_Ok in Hrun as (_ & Hpaused & _). discriminate.
    + intros Hent asset amount path1 path2 minProfit. unfold flashArbitrage.
      erewrite bind_step by reflexivity.
      erewrite bind_step
        by (unfold require; cbn [with_store store set_paused owner];
            rewrite Z.eqb_refl; reflexivity).
      erewrite bind_step by reflexivity.
      erewrite bind_step
        by (unfold require; cbn [with_store store set_paused entered];
            rewrite Hent; reflexivity).
      erewrite bind_step by reflexivity.
      erewrite bind_step by reflexivity.
      apply bind_Revert. reflexivity.
    + reflexivity.
    + f_equal. f_equal. destruct w as [[] ? ?]. cbn in *. now subst.
Qed.

End EmergencyStopFacts.
